(** * Image compressor core: size-budget search, adaptive downscale,
      file replacement and the batch wrapper of [tpys.py]

    A shallow embedding of [ImageCompressorCore] and of the counting part of
    [ImageCompressorUI].  The Python methods become functions over an explicit
    [world]: a file system, a schedule of injected faults for the library and
    operating-system calls, a trace of those calls and the log sink. *)

From Stdlib Require Import ZArith Floats Uint63 Lia List String Ascii.
From stdpp Require Import gmap strings list.
From Equations Require Import Equations.
Import ListNotations.
Local Open Scope string_scope.
Local Open Scope list_scope.
Local Open Scope Z_scope.

Set Warnings "-inexact-float".

(** ** Numbers

    Python's [int / int] and [int * float] are binary64 operations; they are
    kept as such where rounding can matter (the 5% tolerance, the 0.9 downscale
    step and the long-edge ratio). *)

(** The binary64 value Python gives an [int] in a mixed operation: the
    nearest one, ties to even.  An [int] too large for a finite value (from
    [2^1024 - 2^970] on) has none: the result here is infinite, and Python
    raises [OverflowError] instead. *)
Definition float_of_Z (z : Z) : float :=
  SF2Prim (binary_normalize prec emax z 0 false).

Definition float_overflows (z : Z) : bool :=
  negb (PrimFloat.is_finite (float_of_Z z)).

(** [int(x)] on a float: truncation toward zero.  Non-finite arguments make
    Python raise; they cannot arise from the products of finite dimensions
    taken below, and are sent to 0. *)
Definition int_of_float (f : float) : Z :=
  match Prim2SF f with
  | S754_finite s m e =>
      let v := if e <? 0 then Z.pos m / 2 ^ (- e) else Z.pos m * 2 ^ e in
      if s then - v else v
  | _ => 0
  end.

(** A size in kilobytes as the program holds it: [os.path.getsize(p) / 1024]
    or [float('inf')].  Division by 1024 is exact in binary64 (for sizes below
    2^53 bytes) and preserves order, so a finite size is kept as its number of
    bytes and every comparison is made on bytes. *)
Inductive fsize :=
| Finite (bytes : Z)
| Infinity.

(** [a < b] on sizes. *)
Definition size_ltb (a b : fsize) : bool :=
  match a, b with
  | Finite x, Finite y => x <? y
  | Finite _, Infinity => true
  | Infinity, _ => false
  end.

(** [a <= b] on sizes. *)
Definition size_leb (a b : fsize) : bool :=
  match a, b with
  | Finite x, Finite y => x <=? y
  | _, Infinity => true
  | Infinity, Finite _ => false
  end.

(** [size > target_size_kb], the target being an integer number of KB. *)
Definition exceeds_target (size : fsize) (target_kb : Z) : bool :=
  match size with
  | Finite b => b >? 1024 * target_kb
  | Infinity => true
  end.

(** [final_s <= self.target_size_kb * 1.05], in binary64 as Python does it,
    for a target that does not overflow. *)
Definition within_tolerance (bytes target_kb : Z) : bool :=
  PrimFloat.leb (PrimFloat.div (float_of_Z bytes) (float_of_Z 1024))
                (PrimFloat.mul (float_of_Z target_kb) 1.05%float).

(** ** Paths

    Paths are ASCII strings.  [str.lower], [str.endswith] and
    [os.path.splitext] are modelled after CPython. *)

Definition lower_ascii (c : ascii) : ascii :=
  let n := N_of_ascii c in
  if ((65 <=? n) && (n <=? 90))%N then ascii_of_N (n + 32) else c.

Fixpoint lower (s : string) : string :=
  match s with
  | EmptyString => EmptyString
  | String c r => String (lower_ascii c) (lower r)
  end.

Definition endswith (s suffix : string) : bool :=
  let n := String.length s in
  let k := String.length suffix in
  (k <=? n)%nat && String.eqb (substring (n - k) k s) suffix.

(** [p.rfind(c)]: index of the last occurrence, or -1. *)
Fixpoint rfind_from (c : ascii) (s : string) (i : Z) (last : Z) : Z :=
  match s with
  | EmptyString => last
  | String d r => rfind_from c r (i + 1) (if Ascii.eqb c d then i else last)
  end.

Definition rfind (c : ascii) (s : string) : Z := rfind_from c s 0 (-1).

Inductive platform := Posix | Windows.

(** The name under which the file system keeps the file called [p]: Windows
    compares file names without regard to letter case, so that [PHOTO.JPG]
    and [PHOTO.jpg] name one file there. *)
Definition fs_key (os : platform) (p : string) : string :=
  match os with
  | Posix => p
  | Windows => lower p
  end.

(** Is there a character other than '.' in [p[lo:hi]]? *)
Definition has_non_dot (p : string) (lo hi : Z) : bool :=
  negb (forallb (Ascii.eqb ".")
          (list_ascii_of_string (substring (Z.to_nat lo) (Z.to_nat (hi - lo)) p))).

(** [os.path.splitext(p)[0]] ([genericpath._splitext] with the separators of
    [posixpath], respectively [ntpath]). *)
Definition splitext_root (os : platform) (p : string) : string :=
  let sepIndex :=
    match os with
    | Posix => rfind "/" p
    | Windows => Z.max (rfind "\" p) (rfind "/" p)
    end in
  let dotIndex := rfind "." p in
  if (dotIndex >? sepIndex) && has_non_dot p (sepIndex + 1) dotIndex
  then substring 0 (Z.to_nat dotIndex) p
  else p.

(** ** Images

    A decoded image is its mode (a string, as in the library), its size, whether [img.info] has a
    transparency entry, and its raster.  No property below depends on pixel
    values, so a raster is the expression that produced it.  The library
    keeps the two dimensions in C [int]s, well inside the range where their
    conversion to binary64 is exact. *)

Inductive raster :=
| Decoded (data : list Byte.byte)
| Blank (size : Z * Z)
| Converted (mode : string) (r : raster)
| Band (i : nat) (r : raster)
| Pasted (bg fg mask : raster)
| Resampled (size : Z * Z) (r : raster).

Record image := Image {
  im_mode : string;
  im_size : Z * Z;
  im_transparency : bool;
  im_raster : raster }.

(** The codec of the imaging library: what [Image.open] makes of a file's
    bytes (an image and its format name, or nothing when the data is not an
    image), and the bytes [img.save(..., quality=q, optimize=True,
    format='JPEG')] produces (nothing when the encoder raises). *)
Record Pillow := {
  pil_decode : list Byte.byte -> option (image * string);
  pil_encode : image -> Z -> option (list Byte.byte) }.

(** ** The world *)

Record file := File { f_data : list Byte.byte; f_readonly : bool }.

(** The calls that can fail or that change something outside the process. *)
Inductive event :=
| EvChmod (p : string)
| EvGetsize (p : string)
| EvOpen (p : string)
| EvIdentify (p : string)
| EvLoad (p : string)
| EvNew (size : Z * Z)
| EvSplit
| EvPaste
| EvConvert (mode : string)
| EvResize (size : Z * Z)
| EvCopyImage
| EvSave (p : string) (q : Z)
| EvCopy2 (src dst : string)
| EvRemove (p : string)
| EvReplace (src dst : string)
| EvSleep (ms : Z)
| EvClose.

Inductive exn :=
| Fault (ev : event)
| FileNotFound (p : string)
| PermissionDenied (p : string)
| NotAnImage (p : string)
| EncoderError (q : Z)
| InvalidSize (size : Z * Z)
| Overflow.

(** The lines the program hands to [self.log]. *)
Inductive log_line :=
| LogChmodFailed (e : exn)
| LogReplaceFailed (e : exn)
| LogColorFailed (e : exn)
| LogAttemptFailed (q : Z) (e : exn)
| LogFinalFailed (e : exn)
| LogPermissionError (p : string)
| LogUnreadable (p : string)
| LogOpenFailed (p : string) (e : exn)
| LogResized (old new : Z * Z)
| LogSatisfied (p : string) (init_bytes : Z)
| LogBackupFailed (e : exn)
| LogMinDimension (new : Z * Z)
| LogShrink (new : Z * Z)
| LogDone (out : string) (final_bytes init_bytes : Z)
| LogDeleted (p : string)
| LogDeleteFailed (e : exn)
| LogSaveFailed (p : string)
| LogException (p : string) (e : exn)
| LogWrapperException (e : exn)
| LogSummary (success failed : Z).

(** [w_fs] holds each file under the key [fs_key] gives its name.
    [w_faults] is consumed one entry per fallible call, in program order: a
    [true] makes that call raise (a locked file, a full disk, no memory); an
    exhausted schedule injects nothing more. *)
Record world := World {
  w_os : platform;
  w_fs : gmap string file;
  w_faults : list bool;
  w_trace : list event;
  w_log : list log_line }.

Definition set_fs (f : gmap string file -> gmap string file) (w : world) : world :=
  World (w_os w) (f (w_fs w)) (w_faults w) (w_trace w) (w_log w).

Definition emit (l : log_line) (w : world) : world :=
  World (w_os w) (w_fs w) (w_faults w) (w_trace w) (w_log w ++ [l]).

Inductive result (A : Type) :=
| Ok (a : A)
| Raise (e : exn).
Arguments Ok {A} a.
Arguments Raise {A} e.

(** A computation that may raise: it returns a value or an exception, and
    the world it leaves.  Methods that catch everything they can raise are
    given the type [world -> A * world] instead. *)
Definition M (A : Type) : Type := world -> result A * world.

Definition ret {A} (a : A) : M A := fun w => (Ok a, w).
Definition raise {A} (e : exn) : M A := fun w => (Raise e, w).
Definition bind {A B} (m : M A) (k : A -> M B) : M B :=
  fun w =>
    match m w with
    | (Ok a, w1) => k a w1
    | (Raise e, w1) => (Raise e, w1)
    end.

Notation "'let*' x ':=' m 'in' k" := (bind m (fun x => k))
  (at level 10, x pattern, m at level 100, k at level 200).
Notation "m ';;' k" := (bind m (fun _ => k))
  (at level 100, k at level 200, right associativity).

(** [try: m except Exception as e: h e] *)
Definition try_except {A} (m : M A) (h : exn -> M A) : M A :=
  fun w =>
    match m w with
    | (Ok a, w1) => (Ok a, w1)
    | (Raise e, w1) => h e w1
    end.

(** [self.log(...)] *)
Definition log (l : log_line) : M unit := fun w => (Ok tt, emit l w).

(** Every fallible call is recorded and takes the next entry of the fault
    schedule. *)
Definition call (ev : event) : M unit :=
  fun w =>
    let w1 := World (w_os w) (w_fs w) (tl (w_faults w)) (w_trace w ++ [ev]) (w_log w) in
    if hd false (w_faults w) then (Raise (Fault ev), w1) else (Ok tt, w1).

(** *** The operating system *)

(** [os.path.exists(p)] *)
Definition os_path_exists (p : string) (w : world) : bool :=
  bool_decide (is_Some (w_fs w !! fs_key (w_os w) p)).

(** [os.access(p, os.W_OK)] *)
Definition os_access_w (p : string) (w : world) : bool :=
  match w_fs w !! fs_key (w_os w) p with
  | Some f => negb (f_readonly f)
  | None => false
  end.

(** Does the read-only attribute of [p] stop its deletion or replacement?  It
    does on Windows; on POSIX the directory decides, not the file. *)
Definition locked_by_attribute (p : string) (w : world) : bool :=
  match w_os w, w_fs w !! fs_key (w_os w) p with
  | Windows, Some f => f_readonly f
  | _, _ => false
  end.

(** [os.chmod(p, 0o666)] *)
Definition os_chmod_writable (p : string) : M unit :=
  call (EvChmod p) ;;
  fun w =>
    match w_fs w !! fs_key (w_os w) p with
    | None => (Raise (FileNotFound p), w)
    | Some f => (Ok tt, set_fs (insert (fs_key (w_os w) p) (File (f_data f) false)) w)
    end.

(** [os.path.getsize(p)], in bytes. *)
Definition os_path_getsize (p : string) : M Z :=
  call (EvGetsize p) ;;
  fun w =>
    match w_fs w !! fs_key (w_os w) p with
    | None => (Raise (FileNotFound p), w)
    | Some f => (Ok (Z.of_nat (List.length (f_data f))), w)
    end.

(** [os.remove(p)] *)
Definition os_remove (p : string) : M unit :=
  call (EvRemove p) ;;
  fun w =>
    match w_fs w !! fs_key (w_os w) p with
    | None => (Raise (FileNotFound p), w)
    | Some _ =>
        if locked_by_attribute p w then (Raise (PermissionDenied p), w)
        else (Ok tt, set_fs (delete (fs_key (w_os w) p)) w)
    end.

(** [os.replace(src, dst)]: [dst] takes the file of [src], attributes
    included. *)
Definition os_replace (src dst : string) : M unit :=
  call (EvReplace src dst) ;;
  fun w =>
    match w_fs w !! fs_key (w_os w) src with
    | None => (Raise (FileNotFound src), w)
    | Some f =>
        if locked_by_attribute dst w then (Raise (PermissionDenied dst), w)
        else (Ok tt, set_fs (fun m => <[fs_key (w_os w) dst := f]>
                                        (delete (fs_key (w_os w) src) m)) w)
    end.

(** [shutil.copy2]: data and permission bits. *)
Definition shutil_copy2 (src dst : string) : M unit :=
  call (EvCopy2 src dst) ;;
  fun w =>
    match w_fs w !! fs_key (w_os w) src with
    | None => (Raise (FileNotFound src), w)
    | Some f =>
        if negb (os_access_w dst w) && os_path_exists dst w
        then (Raise (PermissionDenied dst), w)
        else (Ok tt, set_fs (insert (fs_key (w_os w) dst) f) w)
    end.

(** [time.sleep], in milliseconds. *)
Definition time_sleep (ms : Z) : M unit :=
  fun w => (Ok tt, World (w_os w) (w_fs w) (w_faults w) (w_trace w ++ [EvSleep ms]) (w_log w)).

(** [os.path.exists] as a step of a computation. *)
Definition path_exists (p : string) : M bool :=
  fun w => (Ok (os_path_exists p w), w).

(** [range(n)] *)
Definition range (n : nat) : list Z := map Z.of_nat (seq 0 n).

(** *** In-memory operations of the imaging library *)

(** [Image.new('RGB', size, (255, 255, 255))] *)
Definition image_new_rgb (size : Z * Z) : M image :=
  call (EvNew size) ;; ret (Image "RGB" size false (Blank size)).

(** [img.split()[i]] *)
Definition image_band (img : image) (i : nat) : M raster :=
  call EvSplit ;; ret (Band i (im_raster img)).

(** [bg.paste(img, mask=mask)], which updates [bg] in place. *)
Definition image_paste (bg img : image) (mask : raster) : M image :=
  call EvPaste ;;
  ret (Image (im_mode bg) (im_size bg) (im_transparency bg)
         (Pasted (im_raster bg) (im_raster img) mask)).

(** [img.convert(mode)] *)
Definition image_convert (img : image) (mode : string) : M image :=
  call (EvConvert mode) ;;
  ret (Image mode (im_size img) (im_transparency img) (Converted mode (im_raster img))).

(** [img.resize(size, Image.Resampling.LANCZOS)]: a copy when the size is the
    one the image has, [ValueError] when a dimension asked for is below 1,
    the resampled image otherwise. *)
Definition image_resize (img : image) (size : Z * Z) : M image :=
  call (EvResize size) ;;
  if bool_decide (im_size img = size) then ret img
  else if (fst size <? 1) || (snd size <? 1) then raise (InvalidSize size)
  else ret (Image (im_mode img) size (im_transparency img) (Resampled size (im_raster img))).

(** [img.copy()] *)
Definition image_copy (img : image) : M image :=
  call EvCopyImage ;; ret img.

(** ** [class ImageCompressorCore] *)

Module ImageCompressorCore.

Record t := Core {
  target_size_kb : Z;
  backup : bool;
  auto_resize : bool;
  max_dimension : Z;
  supported_formats : list string;
  MIN_Q : Z;
  RESIZE_STEP : float;
  MIN_DIMENSION : Z;
  MAX_ATTEMPTS : Z }.

(** [__init__]; the log function is the world's log sink. *)
Definition __init__ (target_size_kb : Z) (backup auto_resize : bool) (max_dimension : Z) : t :=
  {| target_size_kb := target_size_kb;
     backup := backup;
     auto_resize := auto_resize;
     max_dimension := max_dimension;
     supported_formats := ["JPEG"; "JPG"; "PNG"; "WEBP"; "BMP"; "GIF"; "TIFF"];
     MIN_Q := 10;
     RESIZE_STEP := 0.9%float;
     MIN_DIMENSION := 50;
     MAX_ATTEMPTS := 5 |}.

(** The state of the search loop of [_binary_compress].  [measured] is a
    ghost field: the sizes measured so far, newest last; no branch reads it. *)
Record search := Search {
  low : Z;
  high : Z;
  best_q : Z;
  found_size : fsize;
  measured : list fsize }.

Section WithPillow.

Variable pil : Pillow.

(** [img.save(p, quality=q, optimize=True, format='JPEG')] *)
Definition image_save (img : image) (p : string) (q : Z) : M unit :=
  call (EvSave p q) ;;
  fun w =>
    match pil_encode pil img q with
    | None => (Raise (EncoderError q), w)
    | Some data =>
        if os_path_exists p w && negb (os_access_w p w)
        then (Raise (PermissionDenied p), w)
        else (Ok tt, set_fs (insert (fs_key (w_os w) p) (File data false)) w)
    end.

(** [open(path, 'rb')] followed by [Image.open(f)] *)
Definition image_open (path : string) : M (image * string) :=
  call (EvOpen path) ;;
  let* data := (fun w =>
    match w_fs w !! fs_key (w_os w) path with
    | None => (Raise (FileNotFound path), w)
    | Some f => (Ok (f_data f), w)
    end) in
  call (EvIdentify path) ;;
  match pil_decode pil data with
  | None => raise (NotAnImage path)
  | Some r => ret r
  end.

(** Lines 28-36. *)
Definition _clear_readonly (self : t) (path : string) : world -> bool * world :=
  fun w =>
    match (if os_path_exists path w && negb (os_access_w path w)
           then os_chmod_writable path else ret tt) w with
    | (Ok _, w1) => (true, w1)
    | (Raise e, w1) => (false, emit (LogChmodFailed e) w1)
    end.

(** Lines 42-44: one attempt. *)
Definition replace_attempt (src dst : string) : M unit :=
  let* there := path_exists dst in
  (if there then os_remove dst else ret tt) ;;
  os_replace src dst.

(** Lines 40-51, over the remaining values of [attempt]. *)
Fixpoint safe_replace_from (attempts : list Z) (src dst : string) (w : world) : bool * world :=
  match attempts with
  | [] => (false, w)
  | attempt :: rest =>
      match replace_attempt src dst w with
      | (Ok _, w1) => (true, w1)
      | (Raise e, w1) =>
          safe_replace_from rest src dst
            (if attempt <? 4 then snd (time_sleep 200 w1) else emit (LogReplaceFailed e) w1)
      end
  end.

Definition _safe_replace (self : t) (src dst : string) : world -> bool * world :=
  safe_replace_from (range 5) src dst.

(** The handler of lines 77-79, for the image [img] is bound to when the
    exception arrives. *)
Definition rgb_fallback (img : image) (e : exn) : M image :=
  log (LogColorFailed e) ;;
  if String.eqb (im_mode img) "RGB" then ret img else image_convert img "RGB".

(** Paste [img] on a white canvas through its band [alpha]. *)
Definition composite_on_white (img : image) (alpha : nat) : M image :=
  let* bg := image_new_rgb (im_size img) in
  let* mask := image_band img alpha in
  image_paste bg img mask.

(** Lines 53-79. *)
Definition _convert_to_rgb (self : t) (img : image) : M image :=
  if String.eqb (im_mode img) "RGBA" then
    try_except (composite_on_white img 3) (rgb_fallback img)
  else if String.eqb (im_mode img) "LA" then
    try_except (composite_on_white img 1) (rgb_fallback img)
  else if String.eqb (im_mode img) "P" then
    if im_transparency img then
      fun w =>
        match image_convert img "RGBA" w with
        | (Raise e, w1) => rgb_fallback img e w1
        | (Ok img1, w1) =>
            try_except (composite_on_white img1 3) (rgb_fallback img1) w1
        end
    else try_except (image_convert img "RGB") (rgb_fallback img)
  else if String.eqb (im_mode img) "L" || String.eqb (im_mode img) "1"
          || String.eqb (im_mode img) "PA" then
    try_except (image_convert img "RGB") (rgb_fallback img)
  else if negb (String.eqb (im_mode img) "RGB") then
    try_except (image_convert img "RGB") (rgb_fallback img)
  else ret img.

(** Lines 89-94: encode at quality [q] and measure, an exception counting as
    an infinite size. *)
Definition measure (img : image) (tmp_path : string) (q : Z) (w : world) : fsize * world :=
  match (image_save img tmp_path q ;; os_path_getsize tmp_path) w with
  | (Ok n, w1) => (Finite n, w1)
  | (Raise e, w1) => (Infinity, emit (LogAttemptFailed q e) w1)
  end.

(** Lines 88-102: one turn of the [while low <= high] loop. *)
Definition search_step (self : t) (img : image) (tmp_path : string) (ceiling_kb : fsize)
    (s : search) (w : world) : search * world :=
  let mid := (low s + high s) / 2 in
  let '(size, w1) := measure img tmp_path mid w in
  let '(found, best) :=
    if size_ltb size (found_size s) && size_ltb size ceiling_kb
    then (size, mid) else (found_size s, best_q s) in
  if exceeds_target size (target_size_kb self)
  then (Search (low s) (mid - 1) best found (measured s ++ [size]), w1)
  else (Search (mid + 1) (high s) best found (measured s ++ [size]), w1).

(** Lines 87-102. *)
Equations? search_loop (self : t) (img : image) (tmp_path : string) (ceiling_kb : fsize)
    (s : search) (w : world) : search * world
    by wf (Z.to_nat (high s + 1 - low s)) lt :=
search_loop self img tmp_path ceiling_kb s w with Z_le_gt_dec (low s) (high s) := {
  | left _ =>
      search_loop self img tmp_path ceiling_kb
        (fst (search_step self img tmp_path ceiling_kb s w))
        (snd (search_step self img tmp_path ceiling_kb s w));
  | right _ => (s, w) }.
Proof.
  unfold search_step.
  destruct (measure img tmp_path ((low s + high s) / 2) w) as [size w1].
  destruct (size_ltb size (found_size s) && size_ltb size ceiling_kb);
    destruct (exceeds_target size (target_size_kb self)); simpl;
    assert (low s <= (low s + high s) / 2 <= high s)
      by (split; [apply Z.div_le_lower_bound | apply Z.div_le_upper_bound]; lia);
    lia.
Qed.

(** Lines 81-111.  The product [self.target_size_kb * 1.05] of line 108 is
    inside the [try]: a target without a finite binary64 value makes it raise
    [OverflowError], which the handler of line 109 turns into the result of a
    failed encode. *)
Definition _binary_compress (self : t) (img : image) (tmp_path : string) (ceiling_kb : fsize)
    (w : world) : (fsize * bool) * world :=
  let '(s, w1) :=
    search_loop self img tmp_path ceiling_kb (Search (MIN_Q self) 95 95 Infinity []) w in
  match (image_save img tmp_path (Z.max (MIN_Q self) (high s)) ;;
         os_path_getsize tmp_path) w1 with
  | (Ok final_s, w2) =>
      if float_overflows (target_size_kb self)
      then ((Infinity, false), emit (LogFinalFailed Overflow) w2)
      else ((Finite final_s, within_tolerance final_s (target_size_kb self)), w2)
  | (Raise e, w2) => ((Infinity, false), emit (LogFinalFailed e) w2)
  end.

(** [int(d * self.RESIZE_STEP)] *)
Definition shrink (self : t) (d : Z) : Z :=
  int_of_float (PrimFloat.mul (float_of_Z d) (RESIZE_STEP self)).

(** Lines 171-191, for the [remaining] turns the test
    [attempt < self.MAX_ATTEMPTS] still allows.  Returns [curr_img] and the
    last [(fs, ok)]. *)
Fixpoint adaptive_loop (self : t) (tmp_file : string) (ceil : fsize) (remaining : nat)
    (curr_img : image) (last : option (fsize * bool)) : M (image * option (fsize * bool)) :=
  match remaining with
  | O => ret (curr_img, last)
  | S remaining' =>
      fun w =>
        let '((fs, ok), w1) := _binary_compress self curr_img tmp_file ceil w in
        if ok then (Ok (curr_img, Some (fs, ok)), w1)
        else if negb (auto_resize self) then (Ok (curr_img, Some (fs, ok)), w1)
        else
          let nw := shrink self (fst (im_size curr_img)) in
          let nh := shrink self (snd (im_size curr_img)) in
          if (nw <? MIN_DIMENSION self) || (nh <? MIN_DIMENSION self)
          then (Ok (curr_img, Some (fs, ok)), emit (LogMinDimension (nw, nh)) w1)
          else
            (let* resized := image_resize curr_img (nw, nh) in
             log (LogShrink (nw, nh)) ;;
             adaptive_loop self tmp_file ceil remaining' resized (Some (fs, ok))) w1
  end.

(** Lines 147-152: the long-edge limit.  Returns the image and [is_resized]. *)
Definition limit_long_edge (self : t) (img : image) : M (image * bool) :=
  let '(w_, h_) := im_size img in
  if (max_dimension self >? 0) && (Z.max w_ h_ >? max_dimension self) then
    let ratio := PrimFloat.div (float_of_Z (max_dimension self)) (float_of_Z (Z.max w_ h_)) in
    let new_w := int_of_float (PrimFloat.mul (float_of_Z w_) ratio) in
    let new_h := int_of_float (PrimFloat.mul (float_of_Z h_) ratio) in
    let* resized := image_resize img (new_w, new_h) in
    log (LogResized (w_, h_) (new_w, new_h)) ;;
    ret (resized, true)
  else ret (img, false).

(** Line 155. *)
Definition is_jpg (path : string) : bool :=
  endswith (lower path) ".jpg" || endswith (lower path) ".jpeg".

(** Lines 161-165. *)
Definition make_backup (self : t) (path : string) : M unit :=
  let* there := path_exists (path +:+ ".bak") in
  if backup self && negb there then
    try_except (shutil_copy2 path (path +:+ ".bak"))
               (fun e => log (LogBackupFailed e))
  else ret tt.

(** Lines 204-214, over the remaining values of [attempt]. *)
Fixpoint delete_original (attempts : list Z) (path : string) (w : world) : world :=
  match attempts with
  | [] => w
  | attempt :: rest =>
      if os_path_exists path w then
        match os_remove path w with
        | (Ok _, w1) => emit (LogDeleted path) w1
        | (Raise e, w1) =>
            delete_original rest path
              (if attempt <? 2 then snd (time_sleep 100 w1) else emit (LogDeleteFailed e) w1)
        end
      else delete_original rest path w
  end.

(** Line 173: the ceiling handed to [_binary_compress], the size of the
    original for a file taken as a JPEG that was not resized and none
    otherwise; [is_jpg] is the variable of line 155. *)
Definition attempt_ceiling (is_resized is_jpg : bool) (init_bytes : Z) : fsize :=
  if is_resized || negb is_jpg then Infinity else Finite init_bytes.

(** Lines 193-214: the scratch file is installed under the output name, then
    the original is removed when its name is another. *)
Definition install_output (self : t) (path tmp_file : string) (init_bytes : Z) : M unit :=
  let* out_path := (fun w => (Ok (splitext_root (w_os w) path +:+ ".jpg"), w)) in
  let* replaced := (fun w => let '(b, w1) := _safe_replace self tmp_file out_path w in (Ok b, w1)) in
  if replaced then
    let* final_bytes := os_path_getsize out_path in
    log (LogDone out_path final_bytes init_bytes) ;;
    if negb (String.eqb path out_path)
    then fun w => (Ok tt, delete_original (range 3) path w)
    else ret tt
  else log (LogSaveFailed path).

(** Lines 160-214: what follows the check of line 156 when it does not
    hold. *)
Definition compress_to_budget (self : t) (path tmp_file : string) (init_bytes : Z)
    (img : image) (is_resized is_jpg : bool) : M unit :=
  make_backup self path ;;
  let* curr_img := image_copy img in
  adaptive_loop self tmp_file (attempt_ceiling is_resized is_jpg init_bytes)
    (Z.to_nat (MAX_ATTEMPTS self)) curr_img None ;;
  install_output self path tmp_file init_bytes.

(** Lines 142-216: what the [try] block does once the image is loaded. *)
Definition compress_and_install (self : t) (path tmp_file : string) (init_bytes : Z)
    (img : image) : M unit :=
  let* img := _convert_to_rgb self img in
  let* (img, is_resized) := limit_long_edge self img in
  if is_jpg path && negb is_resized && (init_bytes <=? 1024 * target_size_kb self) then
    log (LogSatisfied path init_bytes)
  else compress_to_budget self path tmp_file init_bytes img is_resized (is_jpg path).

(** Lines 118-219: the [try] block with its handler.  Returns the variable
    [img] as the [finally] block finds it; that block only tests it against
    [None] and closes it, so the image first bound stands for its later
    rebindings. *)
Definition try_block (self : t) (path tmp_file : string) (w : world) : option image * world :=
  match _clear_readonly self path w with
  | (false, w1) => (None, emit (LogPermissionError path) w1)
  | (true, w1) =>
  match os_path_getsize path w1 with
  | (Raise _, w2) => (None, emit (LogUnreadable path) w2)
  | (Ok init_bytes, w2) =>
  match image_open path w2 with
  | (Raise e, w3) => (None, emit (LogOpenFailed path e) w3)
  | (Ok (img, original_format), w3) =>
  match call (EvLoad path) w3 with
  | (Raise e, w4) => (Some img, emit (LogOpenFailed path e) w4)
  | (Ok _, w4) =>
  match compress_and_install self path tmp_file init_bytes img w4 with
  | (Ok _, w5) => (Some img, w5)
  | (Raise e, w5) => (Some img, emit (LogException path e) w5)
  end end end end end.

(** Lines 227-233, over the remaining values of [attempt]. *)
Fixpoint remove_tmp (attempts : list Z) (tmp_file : string) (w : world) : world :=
  match attempts with
  | [] => w
  | _ :: rest =>
      if os_path_exists tmp_file w then
        match os_remove tmp_file w with
        | (Ok _, w1) => w1
        | (Raise _, w1) => remove_tmp rest tmp_file (snd (time_sleep 100 w1))
        end
      else remove_tmp rest tmp_file w
  end.

(** Lines 113-236.  Only [img.close()] of the [finally] block can let an
    exception out. *)
Definition process_single_image (self : t) (path : string) : M unit :=
  fun w =>
    let tmp_file := path +:+ ".tmp" in
    let '(img, w1) := try_block self path tmp_file w in
    ((match img with Some _ => call EvClose | None => ret tt end) ;;
     fun w2 => (Ok tt, remove_tmp (range 3) tmp_file w2)) w1.

End WithPillow.

End ImageCompressorCore.

(** ** [class ImageCompressorUI]: the counters and the batch driver *)

Module ImageCompressorUI.

Record t := UI {
  target_size : Z;
  backup : bool;
  auto_resize : bool;
  max_workers : Z;
  max_dimension : Z;
  image_list : list string;
  processed_count : Z;
  failed_count : Z }.

Definition set_processed (n : Z) (self : t) : t :=
  UI (target_size self) (backup self) (auto_resize self) (max_workers self)
     (max_dimension self) (image_list self) n (failed_count self).

Section WithPillow.

Variable pil : Pillow.

(** Lines 499-505. *)
Definition wrapper (p : string) (core : ImageCompressorCore.t) (st : t * world) : t * world :=
  let '(self, w) := st in
  match ImageCompressorCore.process_single_image pil core p w with
  | (Ok _, w1) => (set_processed (processed_count self + 1) self, w1)
  | (Raise e, w1) => (self, emit (LogWrapperException e) w1)
  end.

(** Lines 486-487: the counts of the final report. *)
Definition tally (self : t) : Z * Z :=
  let success := processed_count self in
  let failed := Z.of_nat (List.length (image_list self)) - success in
  (success, failed).

(** Lines 452-494, the jobs taken one after the other in the order of
    submission (the schedule of a pool with one worker).  [wrapper] catches
    every exception and no job is timed here, so [future.result] never raises
    and [failed_count] stays as it is. *)
Definition thread_pool_run (self : t) (w : world) : t * world :=
  let core :=
    ImageCompressorCore.__init__ (target_size self) (backup self) (auto_resize self)
      (max_dimension self) in
  let '(self1, w1) := fold_left (fun st p => wrapper p core st) (image_list self) (self, w) in
  let '(success, failed) := tally self1 in
  (self1, emit (LogSummary success failed) w1).

End WithPillow.

(** Lines 244-245: [os.cpu_count() or 4], then the recommended number of
    worker threads. *)
Definition recommended_threads (cpu_count : option Z) : Z :=
  let cpu_cores :=
    match cpu_count with
    | Some n => if n =? 0 then 4 else n
    | None => 4
    end in
  Z.max 1 (Z.min (cpu_cores - 1) 8).

(** Lines 247-257: the settings and counters a new window starts with. *)
Definition __init__ (cpu_count : option Z) : t :=
  UI 100 false true (recommended_threads cpu_count) 1080 [] 0 0.

(** Lines 362 and 370: the list of images after a selection. *)
Definition set_image_list (l : list string) (self : t) : t :=
  UI (target_size self) (backup self) (auto_resize self) (max_workers self)
     (max_dimension self) l (processed_count self) (failed_count self).

(** Line 360: the extensions a folder scan looks for. *)
Definition scanned_extensions : list string :=
  [".jpg"; ".jpeg"; ".png"; ".webp"; ".bmp"; ".gif"; ".tiff"].

(** Lines 360-361: is the file name [f] taken by a folder scan? *)
Definition scan_accepts (f : string) : bool :=
  existsb (endswith (lower f)) scanned_extensions && negb (endswith (lower f) ".bak").

(** Lines 358-362, over what [os.walk] yields; [join] is [os.path.join]. *)
Definition scan_folder (join : string -> string -> string)
    (walk : list (string * list string * list string)) : list string :=
  flat_map (fun '(root, _, files) => map (join root) (List.filter scan_accepts files)) walk.

(** What [start_work] does with the request. *)
Inductive start_outcome :=
| NoImages
| AlreadyRunning
| BadTarget
| BadWorkers
| Started (self : t).

(** Lines 418-450.  [running] is the flag of the same name; the entries are
    integers here, so reading them cannot fail.  On [Started] the batch runs
    on the state given, its counters reset. *)
Definition start_work (self : t) (running : bool) : start_outcome :=
  match image_list self with
  | [] => NoImages
  | _ =>
      if running then AlreadyRunning
      else if target_size self <=? 0 then BadTarget
      else if (max_workers self <=? 0) || (max_workers self >? 16) then BadWorkers
      else Started (UI (target_size self) (backup self) (auto_resize self) (max_workers self)
                       (max_dimension self) (image_list self) 0 0)
  end.

End ImageCompressorUI.

Import ImageCompressorCore.

(** ** Vocabulary of the properties *)

(** [x] is the least of the sizes of [l] that are strictly below [ceiling]. *)
Definition least_below (ceiling : fsize) (l : list fsize) (x : fsize) : Prop :=
  In x l /\ size_ltb x ceiling = true /\
  forall y, In y l -> size_ltb y ceiling = true -> size_leb x y = true.

(** The candidate update of line 96, as a function of the sizes measured. *)
Definition keep (ceiling : fsize) (acc x : fsize) : fsize :=
  if size_ltb x acc && size_ltb x ceiling then x else acc.

(** Two search states with the same bounds and the same history. *)
Definition same_bounds (s1 s2 : search) : Prop :=
  low s1 = low s2 /\ high s1 = high s2 /\ measured s1 = measured s2.

(** [n] turns of the body of the search loop. *)
Definition turns (pil : Pillow) (self : t) (img : image) (tmp_path : string)
    (ceiling_kb : fsize) (n : nat) (st : search * world) : search * world :=
  Nat.iter n (fun st => search_step pil self img tmp_path ceiling_kb (fst st) (snd st)) st.

(** The state [_binary_compress] starts its loop from. *)
Definition search_start (self : t) : search :=
  Search (MIN_Q self) 95 95 Infinity [].

Definition is_save (ev : event) : bool :=
  match ev with EvSave _ _ => true | _ => false end.

Definition is_sleep (ev : event) : bool :=
  match ev with EvSleep _ => true | _ => false end.


Definition is_remove (ev : event) : bool :=
  match ev with EvRemove _ => true | _ => false end.


Definition count (f : event -> bool) (evs : list event) : nat :=
  List.length (List.filter f evs).

(** The calls of the encoder on the scratch file. *)
Definition codec_event (tmp_path : string) (ev : event) : Prop :=
  match ev with
  | EvSave p _ => p = tmp_path
  | EvGetsize p => p = tmp_path
  | _ => False
  end.

(** A resize respects the floor [d] on both dimensions. *)
Definition resize_respects (d : Z) (ev : event) : Prop :=
  match ev with
  | EvResize (nw, nh) => d <= nw /\ d <= nh
  | _ => True
  end.






(** The calls a job may make when it stops at the check of line 156: none of
    the backup, encoding or replacement calls, and no removal but that of the
    scratch file. *)
Definition untouching_event (tmp_file : string) (ev : event) : Prop :=
  match ev with
  | EvCopy2 _ _ | EvSave _ _ | EvReplace _ _ => False
  | EvRemove p => p = tmp_file
  | _ => True
  end.

(** [w'] comes from [w] without a fault pending, without a log line, with the
    bytes of every file but the scratch file as they were, and through calls
    that touch nothing else. *)
Definition preserved (tmp_file : string) (w w' : world) : Prop :=
  w_os w' = w_os w /\ w_faults w' = [] /\ w_log w' = w_log w /\
  (forall p, p <> fs_key (w_os w) tmp_file ->
     f_data <$> (w_fs w' !! p) = f_data <$> (w_fs w !! p)) /\
  exists evs, w_trace w' = w_trace w ++ evs /\ Forall (untouching_event tmp_file) evs.


(** ** Environments for the concrete runs *)

(** A codec whose output grows with the quality, [k] bytes per quality step;
    it decodes any non-empty file as a 200x100 RGB image. *)
Definition scaled_pil (k : Z) : Pillow :=
  {| pil_decode := fun data =>
       match data with
       | [] => None
       | _ => Some (Image "RGB" (200, 100) false (Decoded data), "JPEG")
       end;
     pil_encode := fun _ q => Some (repeat Byte.x00 (Z.to_nat (k * q))) |}.

Definition linear_pil : Pillow := scaled_pil 40.

Definition sample_image : image :=
  Image "RGB" (200, 100) false (Decoded [Byte.x01]).

(** An image one downscale step away from the floor of 50 pixels. *)
Definition tiny_image : image :=
  Image "RGB" (55, 40) false (Decoded [Byte.x01]).

Definition empty_world : world := World Posix ∅ [] [] [].

(** A 3000-byte file [photo.jpg]; the first 22 calls of the job go through
    and the five calls of [os.replace] that follow fail. *)
Definition photo_bytes : list Byte.byte := repeat Byte.x01 3000.

Definition replace_blocked_world : world :=
  World Posix {[ "photo.jpg" := File photo_bytes false ]}
        (repeat false 22 ++ repeat true 5) [] [].

(** A read-only file whose permissions cannot be changed: the first call,
    [os.chmod], fails. *)
Definition locked_world : world :=
  World Windows {[ "locked.jpg" := File photo_bytes true ]} [true] [] [].

Definition one_job_ui : ImageCompressorUI.t :=
  ImageCompressorUI.UI 2 false true 4 0 ["locked.jpg"] 0 0.

(** A scratch file ready to be installed over a read-only destination. *)
Definition readonly_dst_world : world :=
  World Windows
        {[ "out.jpg.tmp" := File [Byte.x02; Byte.x02] false;
           "out.jpg" := File [Byte.x01] true ]}
        [] [] [].


Definition small_world : world :=
  World Posix {[ "small.jpg" := File (repeat Byte.x01 1500) false ]} [] [] [].

(** The same file under the name [photo.png]: one call less before the five
    failing calls of [os.replace], there being no destination to remove. *)
Definition replace_blocked_png_world : world :=
  World Posix {[ "photo.png" := File photo_bytes false ]}
        (repeat false 21 ++ repeat true 5) [] [].

(** The scratch file of [photo.jpg] is written, the file is in place, and
    [os.replace] fails at each of its five calls. *)
Definition replace_only_world : world :=
  World Posix
        {[ "photo.jpg.tmp" := File [Byte.x02; Byte.x02] false;
           "photo.jpg" := File photo_bytes false ]}
        [false; true; true; true; true; true] [] [].

(** ** Tactics *)

Ltac run_step :=
  match goal with
  | |- context [match ?x with _ => _ end] => destruct x eqn:?
  | |- context [if ?x then _ else _] => destruct x eqn:?
  | H : context [match ?x with _ => _ end] |- _ => destruct x eqn:?
  | H : context [if ?x then _ else _] |- _ => destruct x eqn:?
  end.

Ltac run := repeat (simplify_eq/=; try run_step).

Ltac quiet_done evs :=
  eexists; eexists; split; [reflexivity | split; [reflexivity | ]];
  repeat split; simpl; auto;
  exists evs; rewrite <- ?app_assoc; split; [reflexivity | repeat constructor].


(** ** Vocabulary of the further properties *)

(** The file [p] is not there, or it can be written. *)
Definition writable_or_absent (p : string) (w : world) : Prop :=
  os_path_exists p w && negb (os_access_w p w) = false.

(** Between [w] and [w'] the platform is the same and no file outside
    [paths] has changed. *)
Definition only_touches (paths : list string) (w w' : world) : Prop :=
  w_os w' = w_os w /\
  forall p, ~ In p (map (fs_key (w_os w)) paths) -> w_fs w' !! p = w_fs w !! p.

Definition is_resize (ev : event) : bool :=
  match ev with EvResize _ => true | _ => false end.

(** The path the job installs its result under (line 194). *)
Definition out_path_of (w : world) (path : string) : string :=
  splitext_root (w_os w) path +:+ ".jpg".

(** Is the image over the long-edge limit (line 147)? *)
Definition over_limit (self : t) (img : image) : bool :=
  (max_dimension self >? 0) &&
  (Z.max (fst (im_size img)) (snd (im_size img)) >? max_dimension self).

(** An RGBA image, for the colour conversion. *)
Definition rgba_image : image :=
  Image "RGBA" (64, 48) false (Decoded [Byte.x03]).

(** A computation that touches only [S], in every world. *)
Definition confined {A} (S : list string) (m : M A) : Prop :=
  forall w, only_touches S w (snd (m w)).

(** Confinement on one platform. *)
Definition confined_on {A} (os : platform) (S : list string) (m : M A) : Prop :=
  forall w, w_os w = os -> only_touches S w (snd (m w)).

(** The four paths of a job. *)
Definition job_paths (os : platform) (path : string) : list string :=
  [path; path +:+ ".bak"; path +:+ ".tmp"; splitext_root os path +:+ ".jpg"].

(** The state of the world during a search without faults. *)
Definition quiet_search (tmp : string) (w0 w : world) : Prop :=
  w_faults w = [] /\ w_os w = w_os w0 /\ w_log w = w_log w0 /\ writable_or_absent tmp w /\
  (w_fs w = w_fs w0 \/ exists d, w_fs w = <[fs_key (w_os w0) tmp := File d false]> (w_fs w0)).

(** [w'] has no fault pending, the platform and the files of [w]. *)
Definition calm (w w' : world) : Prop :=
  w_faults w' = [] /\ w_os w' = w_os w /\ w_fs w' = w_fs w.

(** A 3000-byte file [photo.png] and no fault. *)
Definition png_world : world :=
  World Posix {[ "photo.png" := File photo_bytes false ]} [] [] [].

(** The four calls up to the load of [small.jpg] go through and the fifth,
    [img.close()], fails. *)
Definition close_fails_world : world :=
  World Posix {[ "small.jpg" := File (repeat Byte.x01 1500) false ]}
        [false; false; false; false; true] [] [].

(** A scratch file ready to be installed over a writable [photo.jpg]. *)
Definition scratch_ready_world : world :=
  World Posix
        {[ "photo.jpg.tmp" := File [Byte.x02; Byte.x02] false;
           "photo.jpg" := File photo_bytes false ]}
        [] [] [].




(** What [img.resize(size, ...)] returns when it returns. *)
Definition resized (img : image) (size : Z * Z) : image :=
  if bool_decide (im_size img = size) then img
  else Image (im_mode img) size (im_transparency img) (Resampled size (im_raster img)).

(** The size of line 149. *)
Definition limit_size (self : t) (img : image) : Z * Z :=
  let '(w_, h_) := im_size img in
  let ratio := PrimFloat.div (float_of_Z (max_dimension self)) (float_of_Z (Z.max w_ h_)) in
  (int_of_float (PrimFloat.mul (float_of_Z w_) ratio),
   int_of_float (PrimFloat.mul (float_of_Z h_) ratio)).

(** The image after the long-edge limit of lines 147-152. *)
Definition limited (self : t) (img : image) : image :=
  if over_limit self img then resized img (limit_size self img) else img.

(** [img] pasted on a white canvas through its band [alpha]. *)
Definition on_white (img : image) (alpha : nat) : image :=
  Image "RGB" (im_size img) false
        (Pasted (Blank (im_size img)) (im_raster img) (Band alpha (im_raster img))).

(** What [img.convert(mode)] returns. *)
Definition converted (img : image) (mode : string) : image :=
  Image mode (im_size img) (im_transparency img) (Converted mode (im_raster img)).

(** What [_convert_to_rgb] returns when none of its calls fails. *)
Definition rgb_of (img : image) : image :=
  if String.eqb (im_mode img) "RGBA" then on_white img 3
  else if String.eqb (im_mode img) "LA" then on_white img 1
  else if String.eqb (im_mode img) "P" then
    if im_transparency img then on_white (converted img "RGBA") 3 else converted img "RGB"
  else if String.eqb (im_mode img) "RGB" then img
  else converted img "RGB".

(** One step of the downscale loop (lines 183-190). *)
Definition downscaled (self : t) (img : image) : image :=
  resized img (shrink self (fst (im_size img)), shrink self (snd (im_size img))).

(** The image the downscale loop holds after [k] steps. *)
Fixpoint candidate (self : t) (img : image) (k : nat) : image :=
  match k with
  | O => img
  | S k' => candidate self (downscaled self img) k'
  end.

(** A read-only 3000-byte file on Windows, kept under the name [photo.png]. *)
Definition windows_png_world : world :=
  World Windows {[ "photo.png" := File photo_bytes true ]} [] [] [].

(** A 3000-byte file on Windows whose name is asked for in capitals. *)
Definition capitals_world : world :=
  World Windows {[ "photo.jpg" := File photo_bytes false ]} [] [] [].

(** * Properties *)

(** ** The search loop *)

Section SearchLoop.
Variable pil : Pillow.
Variables (self : t) (img : image) (tmp : string).

Lemma search_loop_eq c s w :
  search_loop pil self img tmp c s w =
  if Z_le_gt_dec (low s) (high s)
  then search_loop pil self img tmp c (fst (search_step pil self img tmp c s w))
         (snd (search_step pil self img tmp c s w))
  else (s, w).
Proof.
  rewrite search_loop_equation_1 at 1.
  destruct (Z_le_gt_dec (low s) (high s)); reflexivity.
Qed.

Lemma midpoint_between a b : a <= b -> a <= (a + b) / 2 <= b.
Proof.
  intros Hab. split.
  - apply Z.div_le_lower_bound; lia.
  - apply Z.div_le_upper_bound; lia.
Qed.

(** The state after one turn, field by field. *)
Lemma search_step_fields c s w :
  let mid := (low s + high s) / 2 in
  let size := fst (measure pil img tmp mid w) in
  let s' := fst (search_step pil self img tmp c s w) in
  snd (search_step pil self img tmp c s w) = snd (measure pil img tmp mid w) /\
  measured s' = measured s ++ [size] /\
  found_size s' = (if size_ltb size (found_size s) && size_ltb size c then size else found_size s) /\
  best_q s' = (if size_ltb size (found_size s) && size_ltb size c then mid else best_q s) /\
  (if exceeds_target size (target_size_kb self)
   then low s' = low s /\ high s' = mid - 1
   else low s' = mid + 1 /\ high s' = high s).
Proof.
  unfold search_step. cbv zeta.
  destruct (measure pil img tmp ((low s + high s) / 2) w) as [size w1]. simpl fst; simpl snd.
  destruct (size_ltb size (found_size s) && size_ltb size c);
    destruct (exceeds_target size (target_size_kb self)); simpl; repeat split.
Qed.

Lemma search_loop_invariant c (I : search -> world -> Prop) :
  (forall s w, I s w -> low s <= high s ->
     I (fst (search_step pil self img tmp c s w)) (snd (search_step pil self img tmp c s w))) ->
  forall s w, I s w ->
    I (fst (search_loop pil self img tmp c s w)) (snd (search_loop pil self img tmp c s w)) /\
    high (fst (search_loop pil self img tmp c s w)) < low (fst (search_loop pil self img tmp c s w)).
Proof.
  intros Hstep s.
  remember (Z.to_nat (high s + 1 - low s)) as n eqn:Hn.
  revert s Hn. induction n as [n IH] using lt_wf_ind. intros s Hn w HI.
  rewrite search_loop_eq.
  destruct (Z_le_gt_dec (low s) (high s)) as [Hle | Hgt]; [ | simpl; split; [assumption | lia]].
  eapply IH; [ | reflexivity | apply Hstep; assumption ].
  pose proof (search_step_fields c s w) as (_ & _ & _ & _ & Hb).
  pose proof (midpoint_between _ _ Hle).
  destruct (exceeds_target _ _); destruct Hb as [-> ->]; lia.
Qed.



Lemma save_getsize_ok q w n w2 :
  (image_save pil img tmp q ;; os_path_getsize tmp) w = (Ok n, w2) ->
  exists data, pil_encode pil img q = Some data /\ n = Z.of_nat (List.length data) /\
               w_fs w2 !! fs_key (w_os w) tmp = Some (File data false).
Proof.
  unfold bind, image_save, os_path_getsize, call, bind, ret, set_fs.
  intros H. run.
  rewrite lookup_insert_eq in *.
  assert (f = File l false) by congruence; subst f.
  eexists; split; [reflexivity | split; reflexivity].
Qed.

Lemma save_getsize_trace q w :
  exists rest,
    w_trace (snd ((image_save pil img tmp q ;; os_path_getsize tmp) w)) =
      w_trace w ++ EvSave tmp q :: rest /\
    (rest = [] \/ rest = [EvGetsize tmp]).
Proof.
  unfold bind, image_save, os_path_getsize, call, bind, ret, set_fs.
  run; eexists; (split; [ try rewrite <- app_assoc; reflexivity | auto ]).
Qed.

(** Order facts on sizes. *)
Lemma size_leb_refl a : size_leb a a = true.
Proof. destruct a; simpl; [apply Z.leb_refl | reflexivity]. Qed.

Lemma size_ltb_leb a b : size_ltb a b = true -> size_leb a b = true.
Proof. destruct a, b; simpl; try congruence; rewrite Z.ltb_lt, Z.leb_le; lia. Qed.

Lemma size_leb_trans a b c : size_leb a b = true -> size_leb b c = true -> size_leb a c = true.
Proof. destruct a, b, c; simpl; try congruence; rewrite !Z.leb_le; lia. Qed.

Lemma size_nlt_leb a b : size_ltb a b = false -> size_leb b a = true.
Proof. destruct a, b; simpl; try congruence; rewrite Z.ltb_ge, Z.leb_le; lia. Qed.

Lemma keep_fold_spec c l : forall acc,
  let r := fold_left (keep c) l acc in
  size_leb r acc = true /\
  (r = acc \/ (In r l /\ size_ltb r c = true)) /\
  (forall y, In y l -> size_ltb y c = true -> size_leb r y = true).
Proof.
  induction l as [ | x l IH]; intros acc; simpl.
  - split; [apply size_leb_refl | split; [left; reflexivity | intros y []]].
  - destruct (IH (keep c acc x)) as (Hle & Hin & Hmin).
    assert (Hk : size_leb (keep c acc x) acc = true).
    { unfold keep. destruct (size_ltb x acc) eqn:E; simpl; [ | apply size_leb_refl].
      destruct (size_ltb x c); [apply size_ltb_leb, E | apply size_leb_refl]. }
    split; [eapply size_leb_trans; eassumption | split].
    + destruct Hin as [Heq | [Hin Hlt]]; [ | right; auto].
      rewrite Heq. unfold keep.
      destruct (size_ltb x acc) eqn:E1; simpl; [ | left; reflexivity].
      destruct (size_ltb x c) eqn:E2; [right; auto | left; reflexivity].
    + intros y [<- | Hy] Hyc; [ | apply Hmin; assumption].
      eapply size_leb_trans; [exact Hle | ].
      unfold keep. rewrite Hyc, andb_true_r.
      destruct (size_ltb x acc) eqn:E; [apply size_leb_refl | apply size_nlt_leb, E].
Qed.

Lemma search_loop_found c s w :
  found_size s = fold_left (keep c) (measured s) Infinity ->
  found_size (fst (search_loop pil self img tmp c s w)) =
  fold_left (keep c) (measured (fst (search_loop pil self img tmp c s w))) Infinity.
Proof.
  intros H.
  apply (search_loop_invariant c
           (fun s _ => found_size s = fold_left (keep c) (measured s) Infinity)); [ | exact H].
  clear. intros s w Hs _.
  destruct (search_step_fields c s w) as (_ & Hm & Hf & _).
  rewrite Hm, Hf, fold_left_app, <- Hs. reflexivity.
Qed.

Lemma search_loop_high c s w :
  high (fst (search_loop pil self img tmp c s w)) <= high s.
Proof.
  apply (search_loop_invariant c (fun s' _ => high s' <= high s)); [ | lia].
  clear. intros s' w Hs Hle.
  destruct (search_step_fields c s' w) as (_ & _ & _ & _ & Hb).
  pose proof (midpoint_between _ _ Hle).
  destruct (exceeds_target _ _); destruct Hb as [_ ->]; lia.
Qed.

(** Two runs that differ in the ceiling only. *)
Lemma search_step_ceiling c1 c2 s1 s2 w :
  same_bounds s1 s2 ->
  same_bounds (fst (search_step pil self img tmp c1 s1 w))
              (fst (search_step pil self img tmp c2 s2 w)) /\
  snd (search_step pil self img tmp c1 s1 w) = snd (search_step pil self img tmp c2 s2 w).
Proof.
  intros (Hl & Hh & Hm).
  destruct (search_step_fields c1 s1 w) as (Hw1 & Hm1 & _ & _ & Hb1).
  destruct (search_step_fields c2 s2 w) as (Hw2 & Hm2 & _ & _ & Hb2).
  rewrite Hl, Hh in *. unfold same_bounds. rewrite Hw1, Hw2, Hm1, Hm2, Hm.
  destruct (exceeds_target _ _); destruct Hb1 as [-> ->], Hb2 as [-> ->]; auto.
Qed.

Lemma search_loop_ceiling c1 c2 : forall s1 s2 w,
  same_bounds s1 s2 ->
  same_bounds (fst (search_loop pil self img tmp c1 s1 w))
              (fst (search_loop pil self img tmp c2 s2 w)) /\
  snd (search_loop pil self img tmp c1 s1 w) = snd (search_loop pil self img tmp c2 s2 w).
Proof.
  intros s1.
  remember (Z.to_nat (high s1 + 1 - low s1)) as n eqn:Hn.
  revert s1 Hn. induction n as [n IH] using lt_wf_ind. intros s1 Hn s2 w Hs.
  rewrite (search_loop_eq c1 s1), (search_loop_eq c2 s2).
  destruct Hs as (Hl & Hh & Hm).
  destruct (Z_le_gt_dec (low s1) (high s1)) as [Hle | Hgt];
    destruct (Z_le_gt_dec (low s2) (high s2)); try lia;
    [ | simpl; unfold same_bounds; auto ].
  destruct (search_step_ceiling c1 c2 s1 s2 w) as [Hs' Hw']; [unfold same_bounds; auto | ].
  rewrite <- Hw'.
  eapply IH; [ | reflexivity | exact Hs'].
  destruct (search_step_fields c1 s1 w) as (_ & _ & _ & _ & Hb).
  pose proof (midpoint_between _ _ Hle).
  destruct (exceeds_target _ _); destruct Hb as [-> ->]; lia.
Qed.

Lemma binary_compress_ceiling c1 c2 w :
  _binary_compress pil self img tmp c1 w = _binary_compress pil self img tmp c2 w.
Proof.
  unfold _binary_compress.
  destruct (search_loop_ceiling c1 c2 (Search (MIN_Q self) 95 95 Infinity [])
              (Search (MIN_Q self) 95 95 Infinity []) w) as [(_ & Hh & _) Hw];
    [unfold same_bounds; auto | ].
  destruct (search_loop pil self img tmp c1 _ w) as [s1 w1].
  destruct (search_loop pil self img tmp c2 _ w) as [s2 w2].
  simpl in Hh, Hw. rewrite Hh, Hw. reflexivity.
Qed.

Lemma search_step_halves c s w :
  low s <= high s ->
  let s' := fst (search_step pil self img tmp c s w) in
  0 <= high s' + 1 - low s' /\ 2 * (high s' + 1 - low s') <= high s + 1 - low s.
Proof.
  intros Hle s'.
  destruct (search_step_fields c s w) as (_ & _ & _ & _ & Hb).
  pose proof (midpoint_between _ _ Hle).
  pose proof (Z.div_mod (low s + high s) 2 ltac:(lia)).
  pose proof (Z.mod_pos_bound (low s + high s) 2 ltac:(lia)).
  subst s'. destruct (exceeds_target _ _); destruct Hb as [-> ->]; lia.
Qed.

Lemma search_loop_turns c : forall (k : nat) s w,
  high s + 1 - low s < 2 ^ Z.of_nat k ->
  exists n, (n <= k)%nat /\
    search_loop pil self img tmp c s w = turns pil self img tmp c n (s, w) /\
    (forall j, (j < n)%nat ->
       low (fst (turns pil self img tmp c j (s, w))) <=
       high (fst (turns pil self img tmp c j (s, w)))).
Proof.
  induction k as [ | k IH]; intros s w Hk.
  - exists O. rewrite search_loop_eq.
    destruct (Z_le_gt_dec (low s) (high s)); [simpl in Hk; lia | ].
    split; [lia | split; [reflexivity | intros j Hj; lia]].
  - rewrite search_loop_eq.
    destruct (Z_le_gt_dec (low s) (high s)) as [Hle | Hgt].
    + destruct (search_step_halves c s w Hle) as [H0 H2].
      destruct (IH (fst (search_step pil self img tmp c s w))
                   (snd (search_step pil self img tmp c s w))) as (n & Hn & Heq & Hcond).
      { rewrite Nat2Z.inj_succ, Z.pow_succ_r in Hk by lia. lia. }
      exists (S n). split; [lia | split].
      * rewrite Heq. unfold turns. rewrite Nat.iter_succ_r.
        rewrite <- surjective_pairing. reflexivity.
      * intros [ | j] Hj; [exact Hle | ].
        unfold turns. rewrite Nat.iter_succ_r. simpl fst at 2. simpl snd at 2.
        specialize (Hcond j ltac:(lia)). unfold turns in Hcond.
        rewrite <- surjective_pairing in Hcond. exact Hcond.
    + exists O. split; [lia | split; [reflexivity | intros j Hj; lia]].
Qed.

End SearchLoop.

(** ** Traces of the encoder and the downscale loop *)

Section Frames.
Variable pil : Pillow.
Variables (self : t).

Lemma measure_trace img tmp q w :
  exists rest,
    w_trace (snd (measure pil img tmp q w)) = w_trace w ++ EvSave tmp q :: rest /\
    (rest = [] \/ rest = [EvGetsize tmp]).
Proof.
  unfold measure.
  destruct (save_getsize_trace pil img tmp q w) as (rest & Ht & Hr).
  destruct ((image_save pil img tmp q;; os_path_getsize tmp) w) as [[n | e] w1];
    exists rest; auto.
Qed.

Lemma measure_os img tmp q w : w_os (snd (measure pil img tmp q w)) = w_os w.
Proof.
  unfold measure, bind, image_save, os_path_getsize, call, bind, ret, set_fs.
  run; reflexivity.
Qed.

Lemma search_loop_os img tmp c s w :
  w_os (snd (search_loop pil self img tmp c s w)) = w_os w.
Proof.
  apply (search_loop_invariant pil self img tmp c (fun _ w' => w_os w' = w_os w));
    [ | reflexivity].
  clear s. intros s w1 Ho _.
  destruct (search_step_fields pil self img tmp c s w1) as (-> & _).
  rewrite measure_os. exact Ho.
Qed.

Lemma codec_event_rest tmp q rest :
  rest = [] \/ rest = [EvGetsize tmp] -> Forall (codec_event tmp) (EvSave tmp q :: rest).
Proof. intros [-> | ->]; repeat constructor. Qed.

Lemma search_loop_trace img tmp c s w :
  exists evs,
    w_trace (snd (search_loop pil self img tmp c s w)) = w_trace w ++ evs /\
    Forall (codec_event tmp) evs.
Proof.
  apply (search_loop_invariant pil self img tmp c
           (fun _ w' => exists evs, w_trace w' = w_trace w ++ evs /\ Forall (codec_event tmp) evs)).
  - clear s. intros s w1 (evs & Ht & Hf) _.
    destruct (search_step_fields pil self img tmp c s w1) as (-> & _).
    destruct (measure_trace img tmp ((low s + high s) / 2) w1) as (rest & -> & Hr).
    exists (evs ++ EvSave tmp ((low s + high s) / 2) :: rest).
    rewrite Ht, <- app_assoc. split; [reflexivity | ].
    apply Forall_app. split; [assumption | apply codec_event_rest, Hr].
  - exists []. rewrite app_nil_r. split; [reflexivity | constructor].
Qed.

Lemma binary_compress_trace img tmp c w :
  exists evs,
    w_trace (snd (_binary_compress pil self img tmp c w)) = w_trace w ++ evs /\
    Forall (codec_event tmp) evs.
Proof.
  unfold _binary_compress.
  destruct (search_loop_trace img tmp c (Search (MIN_Q self) 95 95 Infinity []) w)
    as (evs & Ht & Hf).
  destruct (search_loop pil self img tmp c _ w) as [s w1]. simpl in Ht.
  destruct (save_getsize_trace pil img tmp (Z.max (MIN_Q self) (high s)) w1) as (rest & Ht2 & Hr).
  exists (evs ++ EvSave tmp (Z.max (MIN_Q self) (high s)) :: rest).
  split.
  - destruct ((image_save pil img tmp _;; os_path_getsize tmp) w1) as [[n | e] w2];
      [destruct (float_overflows (target_size_kb self)) | ];
      simpl in *; rewrite Ht2, Ht, <- app_assoc; reflexivity.
  - apply Forall_app. split; [assumption | apply codec_event_rest, Hr].
Qed.

(** A resize records its call and leaves the rest of the world; an image it
    returns has the size asked for and the mode it had. *)
Lemma image_resize_cases img size w :
  let w1 := World (w_os w) (w_fs w) (tl (w_faults w)) (w_trace w ++ [EvResize size]) (w_log w) in
  (exists e, image_resize img size w = (Raise e, w1)) \/
  (exists img', image_resize img size w = (Ok img', w1) /\
                im_size img' = size /\ im_mode img' = im_mode img).
Proof.
  unfold image_resize, bind, call, ret, raise.
  destruct (hd false (w_faults w)); [left; eauto | ].
  destruct (bool_decide (im_size img = size)) eqn:E.
  - apply bool_decide_eq_true in E. right. eauto.
  - destruct ((fst size <? 1) || (snd size <? 1)); [left; eauto | right; eauto].
Qed.

Lemma codec_event_respects tmp d evs :
  Forall (codec_event tmp) evs -> Forall (resize_respects d) evs.
Proof.
  intros Hf. eapply Forall_impl; [exact Hf | ].
  intros [] H; simpl in *; try contradiction; exact I.
Qed.

Lemma adaptive_loop_floor tmp ceil : forall remaining curr last w,
  let r := adaptive_loop pil self tmp ceil remaining curr last w in
  (exists evs, w_trace (snd r) = w_trace w ++ evs /\
               Forall (resize_respects (MIN_DIMENSION self)) evs) /\
  (forall img last', fst r = Ok (img, last') ->
     img = curr \/
     (MIN_DIMENSION self <= fst (im_size img) /\ MIN_DIMENSION self <= snd (im_size img))).
Proof.
  induction remaining as [ | n IH]; intros curr last w; simpl.
  - split; [exists []; rewrite app_nil_r; split; [reflexivity | constructor] | ].
    intros img last' H. inversion H. auto.
  - destruct (binary_compress_trace curr tmp ceil w) as (evs & Ht & Hf).
    apply (codec_event_respects tmp (MIN_DIMENSION self)) in Hf.
    destruct (_binary_compress pil self curr tmp ceil w) as [[fs ok] w1]. simpl in Ht.
    destruct ok;
      [ split; [exists evs; auto | intros img last' H; inversion H; auto] | ].
    destruct (negb (auto_resize self));
      [ split; [exists evs; auto | intros img last' H; inversion H; auto] | ].
    set (nw := shrink self (fst (im_size curr))).
    set (nh := shrink self (snd (im_size curr))).
    destruct ((nw <? MIN_DIMENSION self) || (nh <? MIN_DIMENSION self)) eqn:Efloor;
      [ split; [exists evs; auto | intros img last' H; inversion H; auto] | ].
    apply orb_false_iff in Efloor. destruct Efloor as [Hw Hh].
    apply Z.ltb_ge in Hw, Hh.
    unfold bind, log.
    pose proof (image_resize_cases curr (nw, nh) w1) as Hr. cbv zeta in Hr.
    destruct Hr as [[e Hr] | (resized & Hr & Hsz & _)]; rewrite Hr.
    + simpl. split; [ | intros img last' H; discriminate].
      exists (evs ++ [EvResize (nw, nh)]). rewrite Ht, <- app_assoc.
      split; [reflexivity | ].
      apply Forall_app. split; [assumption | repeat constructor; assumption].
    + cbv beta iota.
      match goal with |- context [adaptive_loop pil self tmp ceil n ?i ?l ?w'] =>
        destruct (IH i l w') as [(evs' & Ht' & Hf') Himg] end.
      simpl in *. split.
      * exists (evs ++ EvResize (nw, nh) :: evs').
        rewrite Ht', Ht, <- !app_assoc. split; [reflexivity | ].
        apply Forall_app. split; [assumption | ].
        constructor; [simpl; auto | assumption].
      * intros img last' H. right.
        destruct (Himg img last' H) as [-> | Hd]; [rewrite Hsz; simpl; auto | exact Hd].
Qed.

End Frames.

(** ** File replacement *)

Section Replace.
Variables (src dst : string).

Lemma count_app f (a b : list event) : count f (a ++ b) = (count f a + count f b)%nat.
Proof. unfold count. rewrite List.filter_app, length_app. reflexivity. Qed.








End Replace.

(** ** Runs without faults *)

Lemma string_length_append (s t : string) :
  String.length (s +:+ t) = (String.length s + String.length t)%nat.
Proof. induction s as [ | c s IH]; simpl; [reflexivity | rewrite IH; reflexivity]. Qed.

Lemma tmp_file_fresh (path : string) : path <> path +:+ ".tmp".
Proof.
  intros H. apply (f_equal String.length) in H.
  rewrite string_length_append in H. simpl in H. lia.
Qed.

Lemma lower_length (s : string) : String.length (lower s) = String.length s.
Proof. induction s as [ | c s IH]; simpl; [reflexivity | rewrite IH; reflexivity]. Qed.

Lemma fs_key_length (os : platform) (p : string) :
  String.length (fs_key os p) = String.length p.
Proof. destruct os; [reflexivity | apply lower_length]. Qed.

(** The scratch file is not the file itself, on either platform. *)
Lemma fs_key_tmp_fresh (os : platform) (path : string) :
  fs_key os path <> fs_key os (path +:+ ".tmp").
Proof.
  intros H. apply (f_equal String.length) in H.
  rewrite !fs_key_length, string_length_append in H. simpl in H. lia.
Qed.

Section Quiet.
Variable pil : Pillow.
Variable self : t.
Variable tmp : string.

Lemma preserved_refl w : w_faults w = [] -> preserved tmp w w.
Proof.
  intros H. repeat split; auto. exists []. rewrite app_nil_r. split; [reflexivity | constructor].
Qed.

Lemma preserved_trans w1 w2 w3 :
  preserved tmp w1 w2 -> preserved tmp w2 w3 -> preserved tmp w1 w3.
Proof.
  intros (Ho & _ & Hl & Hd & evs & Ht & Hf) (Ho' & Hq' & Hl' & Hd' & evs' & Ht' & Hf').
  repeat split; try congruence.
  - intros p Hp. rewrite Hd', Hd by (rewrite ?Ho; assumption). reflexivity.
  - exists (evs ++ evs'). rewrite Ht', Ht, <- app_assoc. split; [reflexivity | ].
    apply Forall_app. auto.
Qed.

Lemma call_quiet ev w :
  w_faults w = [] ->
  call ev w = (Ok tt, World (w_os w) (w_fs w) [] (w_trace w ++ [ev]) (w_log w)).
Proof. intros H. unfold call. rewrite H. reflexivity. Qed.

Lemma call_preserved ev w :
  w_faults w = [] -> untouching_event tmp ev ->
  exists w1, call ev w = (Ok tt, w1) /\ preserved tmp w w1.
Proof.
  intros H Hev. rewrite call_quiet by assumption. eexists. split; [reflexivity | ].
  repeat split; simpl; auto. exists [ev]. split; [reflexivity | repeat constructor; assumption].
Qed.

Lemma clear_readonly_quiet path w :
  w_faults w = [] ->
  exists w1, _clear_readonly self path w = (true, w1) /\ preserved tmp w w1.
Proof.
  intros H. unfold _clear_readonly.
  destruct (os_path_exists path w && negb (os_access_w path w)) eqn:E.
  - unfold os_chmod_writable, bind. rewrite call_quiet by assumption. simpl.
    destruct (w_fs w !! fs_key (w_os w) path) as [f | ] eqn:Ef.
    + eexists. split; [reflexivity | ].
      repeat split; simpl; auto.
      * intros p _. destruct (decide (fs_key (w_os w) path = p)) as [<- | Hne].
        -- rewrite lookup_insert_eq, Ef. reflexivity.
        -- rewrite lookup_insert_ne by assumption. reflexivity.
      * exists [EvChmod path]. split; [reflexivity | repeat constructor].
    + apply andb_true_iff in E. destruct E as [E _].
      unfold os_path_exists in E. apply bool_decide_eq_true in E.
      rewrite Ef in E. destruct E as [? E]. discriminate.
  - exists w. split; [reflexivity | apply preserved_refl; assumption].
Qed.

Lemma getsize_quiet path w data :
  w_faults w = [] -> f_data <$> (w_fs w !! fs_key (w_os w) path) = Some data ->
  exists w1, os_path_getsize path w = (Ok (Z.of_nat (List.length data)), w1) /\
             preserved tmp w w1.
Proof.
  intros H Hd. unfold os_path_getsize, bind. rewrite call_quiet by assumption. simpl.
  destruct (w_fs w !! fs_key (w_os w) path) as [f | ]; simpl in Hd; [ | discriminate].
  injection Hd as <-. eexists. split; [reflexivity | ].
  repeat split; simpl; auto.
  exists [EvGetsize path]. split; [reflexivity | repeat constructor].
Qed.

Lemma image_open_quiet path w data r :
  w_faults w = [] -> f_data <$> (w_fs w !! fs_key (w_os w) path) = Some data ->
  pil_decode pil data = Some r ->
  exists w1, image_open pil path w = (Ok r, w1) /\ preserved tmp w w1.
Proof.
  intros H Hd Hdec. unfold image_open, bind. rewrite call_quiet by assumption. simpl.
  destruct (w_fs w !! fs_key (w_os w) path) as [f | ]; simpl in Hd; [ | discriminate].
  injection Hd as <-. rewrite call_quiet by reflexivity. simpl. rewrite Hdec.
  eexists. split; [reflexivity | ].
  repeat split; simpl; auto.
  exists [EvOpen path; EvIdentify path]. rewrite <- app_assoc.
  split; [reflexivity | repeat constructor].
Qed.

(** A world without pending faults, spelled out. *)
Lemma quiet_world w : w_faults w = [] ->
  w = World (w_os w) (w_fs w) [] (w_trace w) (w_log w).
Proof. destruct w; simpl; intros ->; reflexivity. Qed.

Lemma convert_to_rgb_quiet img w :
  w_faults w = [] ->
  exists img' w1, _convert_to_rgb self img w = (Ok img', w1) /\
                  im_size img' = im_size img /\ preserved tmp w w1.
Proof.
  intros H. rewrite (quiet_world w H).
  unfold _convert_to_rgb, try_except, composite_on_white, image_new_rgb, image_band,
    image_paste, image_convert, bind, call, ret.
  destruct (String.eqb (im_mode img) "RGBA");
    [ quiet_done [EvNew (im_size img); EvSplit; EvPaste] | ].
  destruct (String.eqb (im_mode img) "LA");
    [ quiet_done [EvNew (im_size img); EvSplit; EvPaste] | ].
  destruct (String.eqb (im_mode img) "P").
  { destruct (im_transparency img).
    - quiet_done [EvConvert "RGBA"; EvNew (im_size img); EvSplit; EvPaste].
    - quiet_done [EvConvert "RGB"]. }
  destruct (String.eqb (im_mode img) "L" || String.eqb (im_mode img) "1"
            || String.eqb (im_mode img) "PA");
    [ quiet_done [EvConvert "RGB"] | ].
  destruct (negb (String.eqb (im_mode img) "RGB")).
  - quiet_done [EvConvert "RGB"].
  - eexists; eexists; split; [reflexivity | split; [reflexivity | ]].
    apply preserved_refl. reflexivity.
Qed.

Lemma remove_tmp_quiet : forall attempts w,
  w_faults w = [] -> preserved tmp w (remove_tmp attempts tmp w).
Proof.
  induction attempts as [ | a rest IH]; intros w H; simpl.
  - apply preserved_refl, H.
  - destruct (os_path_exists tmp w); [ | apply IH, H].
    unfold os_remove, bind. rewrite call_quiet by assumption. simpl.
    destruct (w_fs w !! fs_key (w_os w) tmp) eqn:Ef.
    + destruct (locked_by_attribute tmp _).
      * eapply preserved_trans; [ | apply IH; reflexivity].
        repeat split; simpl; auto.
        exists [EvRemove tmp; EvSleep 100]. rewrite <- app_assoc.
        split; [reflexivity | repeat constructor].
      * repeat split; simpl; auto.
        -- intros p Hp. rewrite lookup_delete_ne by congruence. reflexivity.
        -- exists [EvRemove tmp]. split; [reflexivity | repeat constructor].
    + eapply preserved_trans; [ | apply IH; reflexivity].
      repeat split; simpl; auto.
      exists [EvRemove tmp; EvSleep 100]. rewrite <- app_assoc.
      split; [reflexivity | repeat constructor].
Qed.


Lemma limit_long_edge_within img w :
  (max_dimension self >? 0) &&
    (Z.max (fst (im_size img)) (snd (im_size img)) >? max_dimension self) = false ->
  limit_long_edge self img w = (Ok (img, false), w).
Proof.
  intros H. unfold limit_long_edge. destruct (im_size img) as [w_ h_]. simpl in H.
  rewrite H. reflexivity.
Qed.

Lemma skip_check_noop path w f img fmt :
  tmp = path +:+ ".tmp" ->
  w_faults w = [] ->
  w_fs w !! fs_key (w_os w) path = Some f ->
  pil_decode pil (f_data f) = Some (img, fmt) ->
  is_jpg path = true ->
  (max_dimension self >? 0) &&
    (Z.max (fst (im_size img)) (snd (im_size img)) >? max_dimension self) = false ->
  Z.of_nat (List.length (f_data f)) <= 1024 * target_size_kb self ->
  exists w',
    process_single_image pil self path w = (Ok tt, w') /\
    w_log w' = w_log w ++ [LogSatisfied path (Z.of_nat (List.length (f_data f)))] /\
    (forall p, p <> fs_key (w_os w) tmp ->
       f_data <$> (w_fs w' !! p) = f_data <$> (w_fs w !! p)) /\
    exists evs, w_trace w' = w_trace w ++ evs /\ Forall (untouching_event tmp) evs.
Proof.
  intros Htmp Hq Hf Hdec Hjpg Hdim Hsize.
  assert (Hne : forall os, fs_key os path <> fs_key os tmp)
    by (intros os; rewrite Htmp; apply fs_key_tmp_fresh).
  destruct (clear_readonly_quiet path w Hq) as (w1 & E1 & P1).
  assert (Ho1 : w_os w1 = w_os w) by apply P1.
  assert (Hd1 : f_data <$> (w_fs w1 !! fs_key (w_os w1) path) = Some (f_data f)).
  { destruct P1 as (_ & _ & _ & Hd & _). rewrite Ho1, Hd, Hf by apply Hne. reflexivity. }
  destruct (getsize_quiet path w1 _ (proj1 (proj2 P1)) Hd1) as (w2 & E2 & P2).
  assert (Ho2 : w_os w2 = w_os w1) by apply P2.
  assert (Hd2 : f_data <$> (w_fs w2 !! fs_key (w_os w2) path) = Some (f_data f)).
  { destruct P2 as (_ & _ & _ & Hd & _). rewrite Ho2, Hd by apply Hne. exact Hd1. }
  destruct (image_open_quiet path w2 _ _ (proj1 (proj2 P2)) Hd2 Hdec) as (w3 & E3 & P3).
  destruct (call_preserved (EvLoad path) w3 (proj1 (proj2 P3)) I) as (w4 & E4 & P4).
  destruct (convert_to_rgb_quiet img w4 (proj1 (proj2 P4))) as (img' & w5 & E5 & Hsz & P5).
  assert (P05 : preserved tmp w w5).
  { eapply preserved_trans; [exact P1 | ]. eapply preserved_trans; [exact P2 | ].
    eapply preserved_trans; [exact P3 | ]. eapply preserved_trans; [exact P4 | exact P5]. }
  pose (w6 := emit (LogSatisfied path (Z.of_nat (List.length (f_data f)))) w5).
  assert (Hq6 : w_faults w6 = []) by (apply P5).
  destruct (call_preserved EvClose w6 Hq6 I) as (w7 & E7 & P7).
  pose proof (remove_tmp_quiet (range 3) w7 (proj1 (proj2 P7))) as P8.
  exists (remove_tmp (range 3) tmp w7).
  assert (Hrun : process_single_image pil self path w = (Ok tt, remove_tmp (range 3) tmp w7)).
  { unfold process_single_image, try_block. rewrite <- Htmp.
    rewrite E1, E2, E3, E4.
    unfold compress_and_install, bind at 1. rewrite E5.
    unfold bind at 1. rewrite limit_long_edge_within by (rewrite Hsz; exact Hdim).
    rewrite Hjpg. simpl negb. rewrite andb_true_l.
    apply Z.leb_le in Hsize. rewrite Hsize. unfold log. fold w6.
    unfold bind. rewrite E7. reflexivity. }
  split; [exact Hrun | ].
  assert (P68 : preserved tmp w6 (remove_tmp (range 3) tmp w7))
    by (eapply preserved_trans; eassumption).
  pose proof P05 as P05'.
  destruct P05 as (_ & _ & Hl5 & Hd5 & evs5 & Ht5 & Hf5).
  destruct P68 as (_ & _ & Hl8 & Hd8 & evs8 & Ht8 & Hf8).
  split; [rewrite Hl8; subst w6; simpl; rewrite Hl5; reflexivity | ].
  split.
  - intros p Hp. rewrite Hd8; [subst w6; simpl; apply Hd5, Hp | ].
    subst w6. simpl. destruct P05' as [-> _]. exact Hp.
  - exists (evs5 ++ evs8). rewrite Ht8. subst w6. simpl. rewrite Ht5, <- app_assoc.
    split; [reflexivity | apply Forall_app; auto].
Qed.

End Quiet.

(** ** The reported format *)

Section Retag.
Variable pil : Pillow.
Variable g : string -> string.
Variable self : t.







End Retag.

(** ** The batch wrapper *)

Lemma remove_tmp_fs tmp : forall attempts w,
  w_fs (remove_tmp attempts tmp w) = w_fs w \/
  w_fs (remove_tmp attempts tmp w) = delete (fs_key (w_os w) tmp) (w_fs w).
Proof.
  induction attempts as [ | a rest IH]; intros w; simpl; [left; reflexivity | ].
  destruct (os_path_exists tmp w); [ | apply IH].
  unfold os_remove, bind, call.
  destruct (hd false (w_faults w)); simpl.
  - match goal with |- context [remove_tmp rest tmp ?w'] => destruct (IH w') as [H | H] end;
      rewrite H; auto.
  - destruct (w_fs w !! fs_key (w_os w) tmp).
    + destruct (locked_by_attribute tmp _); simpl; [ | right; reflexivity].
      match goal with |- context [remove_tmp rest tmp ?w'] => destruct (IH w') as [H | H] end;
        rewrite H; auto.
    + match goal with |- context [remove_tmp rest tmp ?w'] => destruct (IH w') as [H | H] end;
        rewrite H; auto.
Qed.

Lemma clear_readonly_failure_fs self path w :
  fst (_clear_readonly self path w) = false ->
  w_fs (snd (_clear_readonly self path w)) = w_fs w.
Proof.
  unfold _clear_readonly.
  destruct (os_path_exists path w && negb (os_access_w path w)) eqn:E; [ | discriminate].
  unfold os_chmod_writable, bind, call.
  destruct (hd false (w_faults w)); simpl; [reflexivity | ].
  destruct (w_fs w !! fs_key (w_os w) path); simpl; [discriminate | reflexivity].
Qed.

Lemma clear_readonly_os self path w :
  w_os (snd (_clear_readonly self path w)) = w_os w.
Proof.
  unfold _clear_readonly.
  destruct (os_path_exists path w && negb (os_access_w path w)); [ | reflexivity].
  unfold os_chmod_writable, bind, call.
  destruct (hd false (w_faults w)); simpl; [reflexivity | ].
  destruct (w_fs w !! fs_key (w_os w) path); reflexivity.
Qed.

(** Whenever the permission check fails, the job changes no file but a stale
    scratch file, returns normally, and [wrapper] counts it as processed. *)
Lemma permission_failure_always_counted pil core p u w :
  fst (_clear_readonly core p w) = false ->
  let r := ImageCompressorUI.wrapper pil p core (u, w) in
  ImageCompressorUI.processed_count (fst r) = ImageCompressorUI.processed_count u + 1 /\
  (w_fs (snd r) = w_fs w \/
   w_fs (snd r) = delete (fs_key (w_os w) (p +:+ ".tmp")) (w_fs w)).
Proof.
  intros Hfail. pose proof (clear_readonly_failure_fs core p w Hfail) as Hfs.
  pose proof (clear_readonly_os core p w) as Hos.
  unfold ImageCompressorUI.wrapper, process_single_image, try_block.
  destruct (_clear_readonly core p w) as [b w1]. simpl in Hfail, Hfs, Hos. subst b.
  unfold bind, ret. cbv beta iota zeta.
  split; [reflexivity | ]. cbv beta iota zeta delta [snd].
  destruct (remove_tmp_fs (p +:+ ".tmp") (range 3) (emit (LogPermissionError p) w1)) as [H | H];
    rewrite H; simpl; rewrite Hfs, ?Hos; auto.
Qed.

(** ** Auxiliary counts *)

Lemma turns_measured pil self img tmp c n st :
  List.length (measured (fst (turns pil self img tmp c n st))) =
  (List.length (measured (fst st)) + n)%nat.
Proof.
  induction n as [ | n IH]; simpl; [lia | ].
  destruct (search_step_fields pil self img tmp c
              (fst (turns pil self img tmp c n st)) (snd (turns pil self img tmp c n st)))
    as (_ & Hm & _).
  unfold turns in *. rewrite Hm, length_app, IH. simpl. lia.
Qed.


(** ** The claims *)

(** C1, as stated, fails: with a codec whose output grows with the quality, a
    target of 2 KB and a ceiling of 3000 bytes, the loop measures 1200 bytes
    at quality 30, below the ceiling, yet the size returned is the 2040 bytes
    of the final encode at quality 51, which is not the least of the sizes
    below the ceiling. *)
Lemma binary_compress_not_least :
  let self := __init__ 2 false true 0 in
  let tmp := "photo.jpg.tmp" in
  let ceiling := Finite 3000 in
  let s := fst (search_loop linear_pil self sample_image tmp ceiling
                  (search_start self) empty_world) in
  let returned := fst (fst (_binary_compress linear_pil self sample_image tmp ceiling
                              empty_world)) in
  returned = Finite 2040 /\
  In (Finite 1200) (measured s) /\
  size_ltb (Finite 1200) ceiling = true /\
  found_size s = Finite 1200 /\
  ~ least_below ceiling (measured s ++ [returned]) returned.
Proof.
  vm_compute. split; [reflexivity | split; [tauto | split; [reflexivity | ]]].
  split; [reflexivity | ].
  intros (_ & _ & Hmin).
  specialize (Hmin (Finite 1200)).
  assert (H : false = true) by (apply Hmin; [tauto | reflexivity]).
  discriminate H.
Qed.

(** C1, amended: the loop keeps in [found_size] the least of the sizes it
    measured strictly below the ceiling, when there is one, and infinity
    otherwise; the size returned is that of the final encode at quality
    [max(MIN_Q, high)], which is then the content of the scratch file. *)
Theorem binary_compress_tracks_least_returns_final
    (pil : Pillow) (self : t) (img : image) (tmp : string) (ceiling : fsize) (w : world) :
  let s := fst (search_loop pil self img tmp ceiling (search_start self) w) in
  let q := Z.max (MIN_Q self) (high s) in
  ((exists y, In y (measured s) /\ size_ltb y ceiling = true) ->
     least_below ceiling (measured s) (found_size s)) /\
  ((forall y, In y (measured s) -> size_ltb y ceiling = false) ->
     found_size s = Infinity) /\
  (forall n ok w2,
     _binary_compress pil self img tmp ceiling w = ((Finite n, ok), w2) ->
     exists data,
       pil_encode pil img q = Some data /\ n = Z.of_nat (List.length data) /\
       w_fs w2 !! fs_key (w_os w) tmp = Some (File data false) /\
       ok = within_tolerance n (target_size_kb self)) /\
  (forall ok w2,
     _binary_compress pil self img tmp ceiling w = ((Infinity, ok), w2) -> ok = false).
Proof.
  intros s q.
  assert (Hfold : found_size s = fold_left (keep ceiling) (measured s) Infinity)
    by (apply search_loop_found; reflexivity).
  destruct (keep_fold_spec ceiling (measured s) Infinity) as (_ & Hin & Hmin).
  rewrite <- Hfold in Hin, Hmin.
  split; [ | split; [ | split]].
  - intros (y & Hy & Hlt).
    destruct Hin as [Hinf | [Hin Hc]]; [ | split; [exact Hin | split; [exact Hc | exact Hmin]]].
    specialize (Hmin y Hy Hlt). rewrite Hinf in Hmin.
    destruct y; simpl in *; discriminate.
  - intros Hnone. destruct Hin as [Hinf | [Hin Hc]]; [exact Hinf | ].
    rewrite (Hnone _ Hin) in Hc. discriminate.
  - intros n ok w2. unfold _binary_compress. fold (search_start self).
    pose proof (search_loop_os pil self img tmp ceiling (search_start self) w) as Hos.
    subst q s. destruct (search_loop pil self img tmp ceiling (search_start self) w) as [s1 w1].
    simpl fst. simpl in Hos.
    destruct ((image_save pil img tmp (Z.max (MIN_Q self) (high s1));; os_path_getsize tmp) w1)
      as [[m | e] w3] eqn:E; [ | discriminate].
    destruct (float_overflows (target_size_kb self)); intros H; [discriminate | ].
    injection H as <- <- <-.
    destruct (save_getsize_ok pil img tmp _ _ _ _ E) as (data & Hd & Hn & Hf).
    rewrite Hos in Hf. exists data. auto.
  - intros ok w2. unfold _binary_compress.
    destruct (search_loop pil self img tmp ceiling _ w) as [s1 w1].
    destruct ((image_save pil img tmp _;; os_path_getsize tmp) w1) as [[m | e] w3];
      [destruct (float_overflows (target_size_kb self)) | ];
      intros H; try discriminate; injection H as <- _; reflexivity.
Qed.

Lemma binary_compress_tracks_least_witness :
  let self := __init__ 2 false true 0 in
  let s := fst (search_loop linear_pil self sample_image "photo.jpg.tmp" (Finite 1500)
                  (search_start self) empty_world) in
  (exists y, In y (measured s) /\ size_ltb y (Finite 1500) = true) /\
  least_below (Finite 1500) (measured s) (found_size s).
Proof.
  intros self s.
  assert (H : exists y, In y (measured s) /\ size_ltb y (Finite 1500) = true)
    by (exists (Finite 1200); vm_compute; tauto).
  split; [exact H | ].
  exact (proj1 (binary_compress_tracks_least_returns_final linear_pil self sample_image
                  "photo.jpg.tmp" (Finite 1500) empty_world) H).
Defined.

(** C5: the final artifact is encoded at [max(MIN_Q, high)], a quality between
    10 and 95, and that call is the last encode of the run. *)
Theorem final_quality_in_range
    (pil : Pillow) (target : Z) (backup auto_resize : bool) (max_dimension : Z)
    (img : image) (tmp : string) (ceiling : fsize) (w : world) :
  let self := __init__ target backup auto_resize max_dimension in
  let r := search_loop pil self img tmp ceiling (search_start self) w in
  let q := Z.max (MIN_Q self) (high (fst r)) in
  10 <= q <= 95 /\
  exists rest,
    w_trace (snd (_binary_compress pil self img tmp ceiling w)) =
      w_trace (snd r) ++ EvSave tmp q :: rest /\
    count is_save rest = O.
Proof.
  intros self r q.
  pose proof (search_loop_high pil self img tmp ceiling (search_start self) w) as Hh.
  fold r in Hh. simpl in Hh.
  split; [subst q; simpl; lia | ].
  unfold _binary_compress. fold (search_start self). fold r.
  destruct r as [s1 w1]. simpl in q |- *.
  destruct (save_getsize_trace pil img tmp q w1) as (rest & Ht & Hr).
  exists rest. split.
  - fold q. destruct ((image_save pil img tmp q;; os_path_getsize tmp) w1) as [[m | e] w2];
      [destruct (float_overflows _) | ]; exact Ht.
  - destruct Hr as [-> | ->]; reflexivity.
Qed.

(** C6: with the same image, scratch path, target and world, a lower ceiling
    never gives a larger final size. *)
Theorem binary_compress_monotone_in_ceiling
    (pil : Pillow) (self : t) (img : image) (tmp : string) (c1 c2 : fsize) (w : world) :
  size_leb c2 c1 = true ->
  size_leb (fst (fst (_binary_compress pil self img tmp c2 w)))
           (fst (fst (_binary_compress pil self img tmp c1 w))) = true.
Proof.
  intros _. rewrite (binary_compress_ceiling pil self img tmp c2 c1 w).
  apply size_leb_refl.
Qed.

Lemma binary_compress_monotone_in_ceiling_witness :
  let self := __init__ 2 false true 0 in
  size_leb (Finite 1500) Infinity = true /\
  size_leb
    (fst (fst (_binary_compress linear_pil self sample_image "photo.jpg.tmp" (Finite 1500)
                 empty_world)))
    (fst (fst (_binary_compress linear_pil self sample_image "photo.jpg.tmp" Infinity
                 empty_world))) = true.
Proof.
  split; [reflexivity | ].
  apply binary_compress_monotone_in_ceiling. reflexivity.
Defined.

(** C10: a turn of the loop moves [high] to [mid - 1] or [low] to [mid + 1]
    and so narrows the interval; from [10, 95] the loop is over after at most
    7 turns, whatever the sizes measured, with [low > high]. *)
Theorem search_loop_terminates
    (pil : Pillow) (target : Z) (backup auto_resize : bool) (max_dimension : Z)
    (img : image) (tmp : string) (ceiling : fsize) :
  let self := __init__ target backup auto_resize max_dimension in
  (forall s w, low s <= high s ->
     let mid := (low s + high s) / 2 in
     let s' := fst (search_step pil self img tmp ceiling s w) in
     ((low s' = low s /\ high s' = mid - 1) \/ (low s' = mid + 1 /\ high s' = high s)) /\
     high s' - low s' < high s - low s) /\
  (forall w,
     let r := search_loop pil self img tmp ceiling (search_start self) w in
     exists n, (n <= 7)%nat /\
       r = turns pil self img tmp ceiling n (search_start self, w) /\
       (forall j, (j < n)%nat ->
          low (fst (turns pil self img tmp ceiling j (search_start self, w))) <=
          high (fst (turns pil self img tmp ceiling j (search_start self, w)))) /\
       high (fst r) < low (fst r) /\
       List.length (measured (fst r)) = n).
Proof.
  intros self. split.
  - intros s w Hle mid s'.
    destruct (search_step_fields pil self img tmp ceiling s w) as (_ & _ & _ & _ & Hb).
    pose proof (midpoint_between _ _ Hle) as Hmid.
    fold mid in Hb, Hmid. fold s' in Hb.
    destruct (exceeds_target _ _); destruct Hb as [Hl Hh]; rewrite Hl, Hh; split;
      [left | | right | ]; auto; lia.
  - intros w r.
    destruct (search_loop_turns pil self img tmp ceiling 7 (search_start self) w)
      as (n & Hn & Heq & Hcond); [simpl; lia | ].
    exists n. fold r in Heq.
    split; [exact Hn | split; [exact Heq | split; [exact Hcond | split]]].
    + apply (search_loop_invariant pil self img tmp ceiling (fun _ _ => True)); auto.
    + rewrite Heq, turns_measured. reflexivity.
Qed.

Lemma search_loop_terminates_witness :
  let self := __init__ 2 false true 0 in
  let s := search_start self in
  let s' := fst (search_step linear_pil self sample_image "photo.jpg.tmp" Infinity s
                   empty_world) in
  low s <= high s /\ low s' = 10 /\ high s' = 51 /\ high s' - low s' < high s - low s.
Proof.
  intros self s s'.
  assert (H : low s <= high s) by (vm_compute; discriminate).
  split; [exact H | ].
  pose proof (proj1 (search_loop_terminates linear_pil 2 false true 0 sample_image
                       "photo.jpg.tmp" Infinity) s empty_world H) as [_ Hlt].
  split; [reflexivity | split; [reflexivity | exact Hlt]].
Defined.

(** C4: every resize the downscale loop asks for has both dimensions at or
    above the floor of 50, so the image it ends with is the one it was given
    or one at or above the floor; and when the next dimensions fall below the
    floor the loop stops there, with the image and the result it has. *)
Theorem adaptive_loop_respects_floor
    (pil : Pillow) (target : Z) (backup auto_resize : bool) (max_dimension : Z)
    (tmp : string) (ceil : fsize) (remaining : nat) (curr : image)
    (last : option (fsize * bool)) (w : world) :
  let self := __init__ target backup auto_resize max_dimension in
  let r := adaptive_loop pil self tmp ceil remaining curr last w in
  (exists evs, w_trace (snd r) = w_trace w ++ evs /\ Forall (resize_respects 50) evs) /\
  (forall img last', fst r = Ok (img, last') ->
     img = curr \/ (50 <= fst (im_size img) /\ 50 <= snd (im_size img))) /\
  (forall fs w1,
     _binary_compress pil self curr tmp ceil w = ((fs, false), w1) ->
     auto_resize = true ->
     shrink self (fst (im_size curr)) < 50 \/ shrink self (snd (im_size curr)) < 50 ->
     adaptive_loop pil self tmp ceil (S remaining) curr last w =
       (Ok (curr, Some (fs, false)),
        emit (LogMinDimension (shrink self (fst (im_size curr)),
                               shrink self (snd (im_size curr)))) w1)).
Proof.
  intros self r.
  destruct (adaptive_loop_floor pil self tmp ceil remaining curr last w) as [Hev Himg].
  split; [exact Hev | split; [exact Himg | ]].
  intros fs w1 Hbc Hauto Hsmall. simpl. rewrite Hbc. subst auto_resize. simpl.
  assert (E : (shrink self (fst (im_size curr)) <? 50)
              || (shrink self (snd (im_size curr)) <? 50) = true).
  { apply orb_true_iff. rewrite !Z.ltb_lt. exact Hsmall. }
  rewrite E. reflexivity.
Qed.

Lemma adaptive_loop_respects_floor_witness :
  let self := __init__ 1 false true 0 in
  let w1 := snd (_binary_compress (scaled_pil 400) self tiny_image "t.tmp" Infinity
                   empty_world) in
  _binary_compress (scaled_pil 400) self tiny_image "t.tmp" Infinity empty_world =
    ((Finite 4000, false), w1) /\
  (shrink self 55 < 50 \/ shrink self 40 < 50) /\
  adaptive_loop (scaled_pil 400) self "t.tmp" Infinity 5 tiny_image None empty_world =
    (Ok (tiny_image, Some (Finite 4000, false)), emit (LogMinDimension (49, 36)) w1).
Proof.
  intros self w1.
  assert (H1 : _binary_compress (scaled_pil 400) self tiny_image "t.tmp" Infinity empty_world =
               ((Finite 4000, false), w1)) by (vm_compute; reflexivity).
  assert (H2 : shrink self 55 < 50 \/ shrink self 40 < 50) by (left; vm_compute; reflexivity).
  split; [exact H1 | split; [exact H2 | ]].
  exact (proj2 (proj2 (adaptive_loop_respects_floor (scaled_pil 400) 1 false true 0 "t.tmp"
                         Infinity 4 tiny_image None empty_world))
           (Finite 4000) w1 H1 eq_refl H2).
Defined.




(** C3: a file whose name ends in .jpg or .jpeg (in any case), that decodes,
    is not over the long-edge limit and is within the target size, makes the
    job return normally with the one line "already satisfied" logged, no
    backup, encode or replace call, no removal but that of a stale scratch
    file, and the bytes of every other file, the input among them, as they
    were.  No fault is injected. *)
Theorem within_budget_jpeg_is_skipped
    (pil : Pillow) (self : t) (path : string) (w : world) (f : file) (img : image)
    (fmt : string) :
  w_faults w = [] ->
  w_fs w !! fs_key (w_os w) path = Some f ->
  pil_decode pil (f_data f) = Some (img, fmt) ->
  is_jpg path = true ->
  (max_dimension self >? 0) &&
    (Z.max (fst (im_size img)) (snd (im_size img)) >? max_dimension self) = false ->
  Z.of_nat (List.length (f_data f)) <= 1024 * target_size_kb self ->
  exists w',
    process_single_image pil self path w = (Ok tt, w') /\
    w_log w' = w_log w ++ [LogSatisfied path (Z.of_nat (List.length (f_data f)))] /\
    (forall p, p <> fs_key (w_os w) (path +:+ ".tmp") ->
       f_data <$> (w_fs w' !! p) = f_data <$> (w_fs w !! p)) /\
    exists evs : list event,
      w_trace w' = w_trace w ++ evs /\ Forall (untouching_event (path +:+ ".tmp")) evs.
Proof.
  intros Hq Hf Hdec Hjpg Hdim Hsize.
  exact (skip_check_noop pil self (path +:+ ".tmp") path w f img fmt eq_refl
           Hq Hf Hdec Hjpg Hdim Hsize).
Qed.

Lemma within_budget_jpeg_is_skipped_witness :
  let self := __init__ 2 false true 0 in
  is_jpg "small.jpg" = true /\
  exists w',
    process_single_image linear_pil self "small.jpg" small_world = (Ok tt, w') /\
    w_log w' = w_log small_world ++ [LogSatisfied "small.jpg" 1500] /\
    (forall p, p <> "small.jpg.tmp" ->
       f_data <$> (w_fs w' !! p) = f_data <$> (w_fs small_world !! p)) /\
    exists evs : list event,
      w_trace w' = w_trace small_world ++ evs /\ Forall (untouching_event "small.jpg.tmp") evs.
Proof.
  split; [reflexivity | ].
  apply (within_budget_jpeg_is_skipped linear_pil (__init__ 2 false true 0) "small.jpg" small_world
           (File (repeat Byte.x01 1500) false)
           (Image "RGB" (200, 100) false (Decoded (repeat Byte.x01 1500))) "JPEG").
  - reflexivity.
  - vm_compute. reflexivity.
  - reflexivity.
  - reflexivity.
  - reflexivity.
  - vm_compute. discriminate.
Defined.

(** C2, on the code: [photo.jpg] is larger than the target, its output path is
    its own path, and [os.replace] fails five times.  [_safe_replace] has
    removed the destination, which is the original, before the first of these
    calls: the job logs that saving failed and leaves neither the original nor
    a replacement.  Under the name [photo.png], where the output path differs,
    the same failures leave the original in place. *)
Theorem original_lost_when_replace_fails :
  let self := __init__ 2 false true 0 in
  let r := process_single_image linear_pil self "photo.jpg" replace_blocked_world in
  let r' := _safe_replace self "photo.jpg.tmp" "photo.jpg" replace_only_world in
  let r_png := process_single_image linear_pil self "photo.png" replace_blocked_png_world in
  splitext_root Posix "photo.jpg" +:+ ".jpg" = "photo.jpg" /\
  w_fs replace_blocked_world !! "photo.jpg" = Some (File photo_bytes false) /\
  fst r = Ok tt /\
  w_log (snd r) =
    [LogReplaceFailed (Fault (EvReplace "photo.jpg.tmp" "photo.jpg"));
     LogSaveFailed "photo.jpg"] /\
  w_fs (snd r) !! "photo.jpg" = None /\
  fst r' = false /\
  w_fs (snd r') !! "photo.jpg" = None /\
  w_log (snd r_png) =
    [LogReplaceFailed (Fault (EvReplace "photo.png.tmp" "photo.jpg"));
     LogSaveFailed "photo.png"] /\
  w_fs (snd r_png) !! "photo.png" = Some (File photo_bytes false).
Proof. vm_compute. repeat split. Qed.

(** C7, on the code: the permissions of [locked.jpg] cannot be changed; the
    job logs the permission error and changes no file, and the batch reports
    it among the successes. *)
Theorem permission_failure_counted_as_success :
  let core := __init__ 2 false true 0 in
  let r := ImageCompressorUI.thread_pool_run linear_pil one_job_ui locked_world in
  fst (_clear_readonly core "locked.jpg" locked_world) = false /\
  w_fs (snd r) = w_fs locked_world /\
  w_log (snd r) =
    [LogChmodFailed (Fault (EvChmod "locked.jpg")); LogPermissionError "locked.jpg";
     LogSummary 1 0] /\
  ImageCompressorUI.processed_count (fst r) = 1 /\
  ImageCompressorUI.tally (fst r) = (1, 0).
Proof. vm_compute. repeat split. Qed.

(** * Further properties *)

(** ** Colour conversion *)

Lemma image_convert_rgb_spec img w img' w' :
  image_convert img "RGB" w = (Ok img', w') ->
  im_mode img' = "RGB" /\ im_size img' = im_size img /\ w_fs w' = w_fs w /\ w_log w' = w_log w.
Proof.
  unfold image_convert, bind, call, ret. destruct (hd false (w_faults w)); intros H;
    [discriminate | ]. injection H as <- <-. repeat split.
Qed.

Lemma composite_on_white_spec img alpha w img' w' :
  composite_on_white img alpha w = (Ok img', w') ->
  im_mode img' = "RGB" /\ im_size img' = im_size img /\ w_fs w' = w_fs w /\ w_log w' = w_log w.
Proof.
  unfold composite_on_white, image_new_rgb, image_band, image_paste, bind, call, ret.
  destruct (hd false (w_faults w)); simpl; [discriminate | ].
  destruct (hd false (tail (w_faults w))); simpl; [discriminate | ].
  destruct (hd false (tail (tail (w_faults w)))); simpl; [discriminate | ].
  intros H. injection H as <- <-. repeat split.
Qed.

Lemma composite_on_white_raise img alpha w e w' :
  composite_on_white img alpha w = (Raise e, w') -> w_fs w' = w_fs w /\ w_log w' = w_log w.
Proof.
  unfold composite_on_white, image_new_rgb, image_band, image_paste, bind, call, ret.
  destruct (hd false (w_faults w)); simpl; [intros H; injection H as <- <-; auto | ].
  destruct (hd false (tail (w_faults w))); simpl; [intros H; injection H as <- <-; auto | ].
  destruct (hd false (tail (tail (w_faults w)))); simpl;
    [intros H; injection H as <- <-; auto | discriminate].
Qed.

Lemma image_convert_raise img m w e w' :
  image_convert img m w = (Raise e, w') -> w_fs w' = w_fs w /\ w_log w' = w_log w.
Proof.
  unfold image_convert, bind, call, ret. destruct (hd false (w_faults w)); intros H;
    [injection H as <- <-; auto | discriminate].
Qed.

Lemma rgb_fallback_spec img e w img' w' :
  rgb_fallback img e w = (Ok img', w') ->
  im_mode img' = "RGB" /\ im_size img' = im_size img /\ w_fs w' = w_fs w /\
  w_log w' = w_log w ++ [LogColorFailed e].
Proof.
  unfold rgb_fallback, bind, log. cbv beta iota.
  destruct (String.eqb (im_mode img) "RGB") eqn:E.
  - intros H. injection H as <- <-. apply String.eqb_eq in E. repeat split; assumption.
  - intros H. apply image_convert_rgb_spec in H. destruct H as (Hm & Hs & Hf & Hl).
    repeat split; assumption.
Qed.

(** A conversion tried first, with the fallback of lines 77-79 behind it. *)
Lemma guarded_conversion_spec (m : M image) img0 img w img' w' :
  (forall w1 i w2, m w1 = (Ok i, w2) ->
     im_mode i = "RGB" /\ im_size i = im_size img0 /\ w_fs w2 = w_fs w1 /\ w_log w2 = w_log w1) ->
  (forall w1 e w2, m w1 = (Raise e, w2) -> w_fs w2 = w_fs w1 /\ w_log w2 = w_log w1) ->
  im_size img = im_size img0 ->
  try_except m (rgb_fallback img) w = (Ok img', w') ->
  im_mode img' = "RGB" /\ im_size img' = im_size img0 /\ w_fs w' = w_fs w /\
  (w_log w' = w_log w \/ exists e, w_log w' = w_log w ++ [LogColorFailed e]).
Proof.
  intros Hok Hko Hsz. unfold try_except.
  destruct (m w) as [[i | e] w1] eqn:E.
  - intros H. injection H as <- <-. destruct (Hok _ _ _ E) as (? & ? & ? & ?). auto.
  - intros H. destruct (Hko _ _ _ E) as [Hf Hl].
    apply rgb_fallback_spec in H. destruct H as (Hm & Hs & Hf' & Hl').
    repeat split; try congruence. right. exists e. congruence.
Qed.

Lemma convert_to_rgb_result (self : t) (img : image) (w : world) (img' : image)
    (w' : world) :
  _convert_to_rgb self img w = (Ok img', w') ->
  im_mode img' = "RGB" /\ im_size img' = im_size img /\ w_fs w' = w_fs w /\
  (w_log w' = w_log w \/ exists e, w_log w' = w_log w ++ [LogColorFailed e]).
Proof.
  unfold _convert_to_rgb.
  destruct (String.eqb (im_mode img) "RGBA").
  { apply guarded_conversion_spec; [ | | reflexivity].
    - intros; eapply composite_on_white_spec; eassumption.
    - intros; eapply composite_on_white_raise; eassumption. }
  destruct (String.eqb (im_mode img) "LA").
  { apply guarded_conversion_spec; [ | | reflexivity].
    - intros; eapply composite_on_white_spec; eassumption.
    - intros; eapply composite_on_white_raise; eassumption. }
  destruct (String.eqb (im_mode img) "P").
  { destruct (im_transparency img).
    - destruct (image_convert img "RGBA" w) as [[img1 | e] w1] eqn:E.
      + assert (Hc : im_size img1 = im_size img /\ w_fs w1 = w_fs w /\ w_log w1 = w_log w).
        { revert E. unfold image_convert, bind, call, ret.
          destruct (hd false (w_faults w)); intros H; [discriminate | ].
          injection H as <- <-. repeat split. }
        destruct Hc as (Hs1 & Hf1 & Hl1). intros H.
        apply (guarded_conversion_spec _ img1) in H; [ | | | reflexivity].
        * destruct H as (Hm & Hs & Hf & Hl). rewrite Hl1 in Hl.
          repeat split; try congruence.
        * intros; eapply composite_on_white_spec; eassumption.
        * intros; eapply composite_on_white_raise; eassumption.
      + destruct (image_convert_raise _ _ _ _ _ E) as [Hf Hl]. intros H.
        apply rgb_fallback_spec in H. destruct H as (Hm & Hs & Hf' & Hl').
        repeat split; try congruence. right. exists e. congruence.
    - apply guarded_conversion_spec; [ | | reflexivity].
      + intros; eapply image_convert_rgb_spec; eassumption.
      + intros; eapply image_convert_raise; eassumption. }
  destruct (String.eqb (im_mode img) "L" || String.eqb (im_mode img) "1"
            || String.eqb (im_mode img) "PA").
  { apply guarded_conversion_spec; [ | | reflexivity].
    - intros; eapply image_convert_rgb_spec; eassumption.
    - intros; eapply image_convert_raise; eassumption. }
  destruct (String.eqb (im_mode img) "RGB") eqn:E; simpl.
  - intros H. injection H as <- <-. apply String.eqb_eq in E. auto.
  - apply guarded_conversion_spec; [ | | reflexivity].
    + intros; eapply image_convert_rgb_spec; eassumption.
    + intros; eapply image_convert_raise; eassumption.
Qed.

(** X1: whenever [_convert_to_rgb] returns an image, that image has mode RGB
    and the size of the image it was given, no file has changed, and the log
    has gained nothing or one line, the report of a failed conversion. *)
Theorem convert_to_rgb_gives_rgb (self : t) (img : image) (w : world) (img' : image)
    (w' : world) :
  _convert_to_rgb self img w = (Ok img', w') ->
  im_mode img' = "RGB" /\ im_size img' = im_size img /\ w_fs w' = w_fs w /\
  (w_log w' = w_log w \/ exists e, w_log w' = w_log w ++ [LogColorFailed e]).
Proof. exact (convert_to_rgb_result self img w img' w'). Qed.

Lemma convert_to_rgb_gives_rgb_witness :
  _convert_to_rgb (__init__ 100 false true 0) rgba_image empty_world =
    (Ok (Image "RGB" (64, 48) false
           (Pasted (Blank (64, 48)) (Decoded [Byte.x03]) (Band 3 (Decoded [Byte.x03])))),
     World Posix ∅ [] [EvNew (64, 48); EvSplit; EvPaste] []) /\
  im_mode (Image "RGB" (64, 48) false
             (Pasted (Blank (64, 48)) (Decoded [Byte.x03]) (Band 3 (Decoded [Byte.x03]))))
    = "RGB".
Proof.
  assert (H : _convert_to_rgb (__init__ 100 false true 0) rgba_image empty_world =
              (Ok (Image "RGB" (64, 48) false
                     (Pasted (Blank (64, 48)) (Decoded [Byte.x03])
                             (Band 3 (Decoded [Byte.x03])))),
               World Posix ∅ [] [EvNew (64, 48); EvSplit; EvPaste] [])) by reflexivity.
  split; [exact H | ].
  exact (proj1 (convert_to_rgb_gives_rgb (__init__ 100 false true 0) rgba_image empty_world
                  _ _ H)).
Defined.

(** ** Permission check and backup *)

(** X2: [_clear_readonly] changes neither the platform, nor the contents of
    any file, nor any file but [path].  When it answers [True] it logs
    nothing and [path], if it exists, is writable afterwards; when it answers
    [False] the files are as before and one line, the failure of [os.chmod],
    is logged. *)
Theorem clear_readonly_effect (self : t) (path : string) (w : world) :
  let r := _clear_readonly self path w in
  w_os (snd r) = w_os w /\
  (forall p, f_data <$> (w_fs (snd r) !! p) = f_data <$> (w_fs w !! p)) /\
  (forall p, p <> fs_key (w_os w) path -> w_fs (snd r) !! p = w_fs w !! p) /\
  (fst r = true ->
     w_log (snd r) = w_log w /\
     (os_path_exists path (snd r) = true -> os_access_w path (snd r) = true)) /\
  (fst r = false ->
     w_fs (snd r) = w_fs w /\ exists e, w_log (snd r) = w_log w ++ [LogChmodFailed e]).
Proof.
  unfold _clear_readonly.
  destruct (os_path_exists path w && negb (os_access_w path w)) eqn:E.
  - unfold os_chmod_writable, bind, call.
    destruct (hd false (w_faults w)); simpl.
    { repeat split; auto; try discriminate. eauto. }
    destruct (w_fs w !! fs_key (w_os w) path) as [f | ] eqn:Ef; simpl.
    + repeat split; auto; try discriminate.
      * intros p. destruct (decide (fs_key (w_os w) path = p)) as [<- | Hne].
        -- rewrite lookup_insert_eq, Ef. reflexivity.
        -- rewrite lookup_insert_ne by assumption. reflexivity.
      * intros p Hp. rewrite lookup_insert_ne by congruence. reflexivity.
      * intros _. unfold os_access_w. simpl. rewrite lookup_insert_eq. reflexivity.
    + repeat split; auto; try discriminate. eauto.
  - simpl. repeat split; auto; try discriminate.
    intros Hex. rewrite Hex in E. simpl in E. apply negb_false_iff in E. exact E.
Qed.

Lemma clear_readonly_effect_witness :
  let self := __init__ 2 false true 0 in
  let r := _clear_readonly self "out.jpg" readonly_dst_world in
  fst r = true /\
  os_path_exists "out.jpg" (snd r) = true /\ os_access_w "out.jpg" (snd r) = true.
Proof.
  intros self r.
  assert (H1 : fst r = true) by reflexivity.
  assert (H2 : os_path_exists "out.jpg" (snd r) = true) by (vm_compute; reflexivity).
  split; [exact H1 | split; [exact H2 | ]].
  destruct (clear_readonly_effect self "out.jpg" readonly_dst_world) as (_ & _ & _ & Hok & _).
  exact (proj2 (Hok H1) H2).
Defined.

Lemma os_path_exists_lookup p w :
  os_path_exists p w = true <-> is_Some (w_fs w !! fs_key (w_os w) p).
Proof. unfold os_path_exists. apply bool_decide_eq_true. Qed.

Lemma make_backup_spec (self : t) (path : string) (w : world) :
  let bak := path +:+ ".bak" in
  let r := make_backup self path w in
  fst r = Ok tt /\
  only_touches [bak] w (snd r) /\
  (is_Some (w_fs w !! fs_key (w_os w) bak) \/ backup self = false -> snd r = w) /\
  (forall f, backup self = true -> w_fs w !! fs_key (w_os w) bak = None -> w_faults w = [] ->
     w_fs w !! fs_key (w_os w) path = Some f ->
     w_fs (snd r) !! fs_key (w_os w) bak = Some f /\ w_log (snd r) = w_log w).
Proof.
  intros bak r. subst r bak. unfold make_backup, bind, path_exists. cbv beta iota.
  set (bak := path +:+ ".bak") in *. clearbody bak.
  destruct (os_path_exists bak w) eqn:Ex.
  - rewrite andb_false_r. simpl.
    split; [reflexivity | split; [split; auto | split; [reflexivity | ]]].
    intros f _ Hn. apply os_path_exists_lookup in Ex. rewrite Hn in Ex.
    destruct Ex as [? Ex]; discriminate.
  - assert (Hnone : w_fs w !! fs_key (w_os w) bak = None).
    { destruct (w_fs w !! fs_key (w_os w) bak) eqn:E; [ | reflexivity].
      assert (os_path_exists bak w = true) by (apply os_path_exists_lookup; rewrite E; eauto).
      congruence. }
    destruct (backup self); simpl.
    2:{ split; [reflexivity | split; [split; auto | split; [reflexivity | ]]].
        intros; discriminate. }
    unfold try_except, shutil_copy2, bind, call, log.
    destruct (w_faults w) as [ | b faults] eqn:Eq; simpl.
    + destruct (w_fs w !! fs_key (w_os w) path) as [f | ] eqn:Ef; simpl.
      * unfold os_access_w, os_path_exists. simpl. rewrite Hnone. simpl.
        split; [reflexivity | split; [ | split]].
        -- split; [reflexivity | ]. intros p Hp. simpl.
           rewrite lookup_insert_ne; [reflexivity | ]. intros He. apply Hp. left. exact He.
        -- intros [[? H] | H]; try rewrite Hnone in H; discriminate.
        -- intros f' _ _ _ Hf. injection Hf as <-. simpl. rewrite lookup_insert_eq. auto.
      * split; [reflexivity | split; [split; auto | split]].
        -- intros [[? H] | H]; try rewrite Hnone in H; discriminate.
        -- intros; discriminate.
    + destruct b; simpl.
      * split; [reflexivity | split; [split; auto | split]].
        -- intros [[? H] | H]; try rewrite Hnone in H; discriminate.
        -- intros; discriminate.
      * destruct (w_fs w !! fs_key (w_os w) path) as [f | ] eqn:Ef; simpl.
        -- unfold os_access_w, os_path_exists. simpl. rewrite Hnone. simpl.
           split; [reflexivity | split; [ | split]].
           ++ split; [reflexivity | ]. intros p Hp. simpl.
              rewrite lookup_insert_ne; [reflexivity | ]. intros He. apply Hp. left. exact He.
           ++ intros [[? H] | H]; try rewrite Hnone in H; discriminate.
           ++ intros; discriminate.
        -- split; [reflexivity | split; [split; auto | split]].
           ++ intros [[? H] | H]; try rewrite Hnone in H; discriminate.
           ++ intros; discriminate.
Qed.

(** X3: the backup step never raises and touches no file but [path.bak]; it
    does nothing at all when a backup exists already or backups are off; and
    when backups are on, none exists, the original is there and no call
    fails, [path.bak] afterwards holds the original, with nothing logged. *)
Theorem make_backup_effect (self : t) (path : string) (w : world) :
  let bak := path +:+ ".bak" in
  let r := make_backup self path w in
  fst r = Ok tt /\
  only_touches [bak] w (snd r) /\
  (is_Some (w_fs w !! fs_key (w_os w) bak) \/ backup self = false -> snd r = w) /\
  (forall f, backup self = true -> w_fs w !! fs_key (w_os w) bak = None -> w_faults w = [] ->
     w_fs w !! fs_key (w_os w) path = Some f ->
     w_fs (snd r) !! fs_key (w_os w) bak = Some f /\ w_log (snd r) = w_log w).
Proof. exact (make_backup_spec self path w). Qed.

Lemma make_backup_effect_witness :
  w_fs (snd (make_backup (__init__ 2 true true 0) "photo.png" png_world)) !! "photo.png.bak"
    = Some (File photo_bytes false) /\
  w_log (snd (make_backup (__init__ 2 true true 0) "photo.png" png_world)) = [].
Proof.
  exact (proj2 (proj2 (proj2 (make_backup_effect (__init__ 2 true true 0) "photo.png" png_world)))
           (File photo_bytes false) eq_refl eq_refl eq_refl eq_refl).
Defined.

(** ** What a job leaves alone *)

Lemma only_touches_refl S w : only_touches S w w.
Proof. split; auto. Qed.

Lemma only_touches_trans S w1 w2 w3 :
  only_touches S w1 w2 -> only_touches S w2 w3 -> only_touches S w1 w3.
Proof.
  intros [Ho Hf] [Ho' Hf']. split; [congruence | ].
  intros p Hp. rewrite Hf', Hf; [reflexivity | exact Hp | rewrite Ho; exact Hp].
Qed.

Lemma only_touches_mono S S' w w' :
  (forall p, In p S -> In p S') -> only_touches S w w' -> only_touches S' w w'.
Proof.
  intros Hsub [Ho Hf]. split; [assumption | ]. intros p Hp. apply Hf.
  intros Hin. apply Hp. apply in_map_iff in Hin. destruct Hin as (q & <- & Hq).
  apply in_map, Hsub, Hq.
Qed.

Lemma only_touches_emit S l w : only_touches S w (emit l w).
Proof. split; auto. Qed.

Lemma confined_bind {A B} S (m : M A) (k : A -> M B) :
  confined S m -> (forall a, confined S (k a)) -> confined S (bind m k).
Proof.
  intros Hm Hk w. unfold bind. specialize (Hm w).
  destruct (m w) as [[a | e] w1]; simpl in Hm; [ | exact Hm].
  eapply only_touches_trans; [exact Hm | apply Hk].
Qed.

Lemma confined_try {A} S (m : M A) (h : exn -> M A) :
  confined S m -> (forall e, confined S (h e)) -> confined S (try_except m h).
Proof.
  intros Hm Hh w. unfold try_except. specialize (Hm w).
  destruct (m w) as [[a | e] w1]; simpl in Hm; [exact Hm | ].
  eapply only_touches_trans; [exact Hm | apply Hh].
Qed.

Lemma confined_ret {A} S (a : A) : confined S (ret a).
Proof. intros w. apply only_touches_refl. Qed.

Lemma confined_raise {A} S e : confined S (@raise A e).
Proof. intros w. apply only_touches_refl. Qed.

Lemma confined_log S l : confined S (log l).
Proof. intros w. apply only_touches_emit. Qed.

Lemma confined_call S ev : confined S (call ev).
Proof. intros w. unfold call. destruct (hd false (w_faults w)); split; auto. Qed.

Lemma confined_mono {A} S S' (m : M A) :
  (forall p, In p S -> In p S') -> confined S m -> confined S' m.
Proof. intros Hsub Hm w. eapply only_touches_mono; [exact Hsub | apply Hm]. Qed.

Lemma confined_sleep S ms : confined S (time_sleep ms).
Proof. intros w. split; auto. Qed.

Lemma confined_path_exists S p : confined S (path_exists p).
Proof. intros w. apply only_touches_refl. Qed.

Lemma only_touches_insert p f w :
  only_touches [p] w (set_fs (insert (fs_key (w_os w) p) f) w).
Proof.
  split; [reflexivity | ]. intros q Hq. simpl.
  apply lookup_insert_ne. intros He. apply Hq. left. exact He.
Qed.

Lemma only_touches_delete p w :
  only_touches [p] w (set_fs (delete (fs_key (w_os w) p)) w).
Proof.
  split; [reflexivity | ]. intros q Hq. simpl.
  apply lookup_delete_ne. intros He. apply Hq. left. exact He.
Qed.

Lemma confined_getsize S p : confined S (os_path_getsize p).
Proof.
  apply confined_bind; [apply confined_call | ]. intros _ w.
  destruct (w_fs w !! fs_key (w_os w) p); apply only_touches_refl.
Qed.

Lemma confined_remove p : confined [p] (os_remove p).
Proof.
  apply confined_bind; [apply confined_call | ]. intros _ w.
  destruct (w_fs w !! fs_key (w_os w) p); [ | apply only_touches_refl].
  destruct (locked_by_attribute p w); [apply only_touches_refl | apply only_touches_delete].
Qed.

Lemma confined_replace src dst : confined [src; dst] (os_replace src dst).
Proof.
  apply confined_bind; [apply confined_call | ]. intros _ w.
  destruct (w_fs w !! fs_key (w_os w) src); [ | apply only_touches_refl].
  destruct (locked_by_attribute dst w); [apply only_touches_refl | ].
  split; [reflexivity | ]. intros q Hq. simpl.
  rewrite lookup_insert_ne by (intros He; apply Hq; right; left; exact He).
  apply lookup_delete_ne. intros He. apply Hq. left. exact He.
Qed.

Lemma confined_copy2 src dst : confined [dst] (shutil_copy2 src dst).
Proof.
  apply confined_bind; [apply confined_call | ]. intros _ w.
  destruct (w_fs w !! fs_key (w_os w) src); [ | apply only_touches_refl].
  destruct (_ && _); [apply only_touches_refl | apply only_touches_insert].
Qed.

Section Confined.
Variable pil : Pillow.
Variable self : t.

Lemma confined_save img p q : confined [p] (image_save pil img p q).
Proof.
  apply confined_bind; [apply confined_call | ]. intros _ w.
  destruct (pil_encode pil img q); [ | apply only_touches_refl].
  destruct (_ && _); [apply only_touches_refl | apply only_touches_insert].
Qed.

Lemma confined_image_open S path : confined S (image_open pil path).
Proof.
  apply confined_bind; [apply confined_call | ]. intros _.
  apply confined_bind.
  - intros w. destruct (w_fs w !! fs_key (w_os w) path); apply only_touches_refl.
  - intros data. apply confined_bind; [apply confined_call | ]. intros _.
    destruct (pil_decode pil data); [apply confined_ret | apply confined_raise].
Qed.

Lemma confined_convert S img m : confined S (image_convert img m).
Proof. apply confined_bind; [apply confined_call | intros; apply confined_ret]. Qed.

Lemma confined_resize S img sz : confined S (image_resize img sz).
Proof.
  apply confined_bind; [apply confined_call | intros _].
  destruct (bool_decide _); [apply confined_ret | ].
  destruct (_ || _); [apply confined_raise | apply confined_ret].
Qed.

Lemma confined_composite S img a : confined S (composite_on_white img a).
Proof.
  unfold composite_on_white, image_new_rgb, image_band, image_paste.
  repeat (apply confined_bind; [ | intros ]);
    first [apply confined_call | apply confined_ret].
Qed.

Lemma confined_fallback S img e : confined S (rgb_fallback img e).
Proof.
  unfold rgb_fallback. apply confined_bind; [apply confined_log | intros _].
  destruct (String.eqb _ _); [apply confined_ret | apply confined_convert].
Qed.

Lemma confined_convert_to_rgb S img : confined S (_convert_to_rgb self img).
Proof.
  unfold _convert_to_rgb.
  repeat match goal with
         | |- confined _ (if ?b then _ else _) => destruct b
         end;
    try (apply confined_try; [ | intros; apply confined_fallback ];
         first [apply confined_composite | apply confined_convert]);
    try apply confined_ret.
  intros w. pose proof (confined_convert S img "RGBA" w) as H.
  destruct (image_convert img "RGBA" w) as [[img1 | e] w1]; simpl in H.
  - eapply only_touches_trans; [exact H | ].
    apply confined_try; [apply confined_composite | intros; apply confined_fallback].
  - eapply only_touches_trans; [exact H | apply confined_fallback].
Qed.

Lemma confined_limit S img : confined S (limit_long_edge self img).
Proof.
  unfold limit_long_edge. destruct (im_size img) as [w_ h_].
  destruct (_ && _); [ | apply confined_ret].
  apply confined_bind; [apply confined_resize | intros ].
  apply confined_bind; [apply confined_log | intros; apply confined_ret].
Qed.

Lemma confined_backup path : confined [path +:+ ".bak"] (make_backup self path).
Proof.
  unfold make_backup. apply confined_bind; [apply confined_path_exists | intros there].
  destruct (_ && _); [ | apply confined_ret].
  apply confined_try; [apply confined_copy2 | intros; apply confined_log].
Qed.

Lemma measure_touches img tmp q w : only_touches [tmp] w (snd (measure pil img tmp q w)).
Proof.
  unfold measure.
  assert (H : confined [tmp] (image_save pil img tmp q ;; os_path_getsize tmp))
    by (apply confined_bind; [apply confined_save | intros; apply confined_getsize]).
  specialize (H w).
  destruct ((image_save pil img tmp q;; os_path_getsize tmp) w) as [[n | e] w1]; simpl in *;
    [exact H | eapply only_touches_trans; [exact H | apply only_touches_emit]].
Qed.

Lemma search_loop_touches img tmp c s w :
  only_touches [tmp] w (snd (search_loop pil self img tmp c s w)).
Proof.
  apply (search_loop_invariant pil self img tmp c (fun _ w' => only_touches [tmp] w w'));
    [ | apply only_touches_refl].
  clear s. intros s w1 H _.
  destruct (search_step_fields pil self img tmp c s w1) as (-> & _).
  eapply only_touches_trans; [exact H | apply measure_touches].
Qed.

Lemma binary_compress_touches img tmp c w :
  only_touches [tmp] w (snd (_binary_compress pil self img tmp c w)).
Proof.
  unfold _binary_compress.
  pose proof (search_loop_touches img tmp c (Search (MIN_Q self) 95 95 Infinity []) w) as H.
  destruct (search_loop pil self img tmp c _ w) as [s w1]. simpl in H.
  assert (H2 : confined [tmp] (image_save pil img tmp (Z.max (MIN_Q self) (high s)) ;;
                               os_path_getsize tmp))
    by (apply confined_bind; [apply confined_save | intros; apply confined_getsize]).
  specialize (H2 w1).
  destruct ((image_save pil img tmp _;; os_path_getsize tmp) w1) as [[n | e] w2];
    [destruct (float_overflows _) | ]; simpl in *;
    (eapply only_touches_trans; [exact H | ]);
    first [exact H2 | eapply only_touches_trans; [exact H2 | apply only_touches_emit]].
Qed.

Lemma confined_adaptive_loop tmp c : forall remaining curr last,
  confined [tmp] (adaptive_loop pil self tmp c remaining curr last).
Proof.
  induction remaining as [ | n IH]; intros curr last; [apply confined_ret | ].
  intros w. simpl.
  pose proof (binary_compress_touches curr tmp c w) as H.
  destruct (_binary_compress pil self curr tmp c w) as [[fs ok] w1]. simpl in H.
  destruct ok; [exact H | ].
  destruct (negb (auto_resize self)); [exact H | ].
  destruct (_ || _); simpl;
    [eapply only_touches_trans; [exact H | apply only_touches_emit] | ].
  eapply only_touches_trans; [exact H | ].
  apply confined_bind; [apply confined_resize | intros resized].
  apply confined_bind; [apply confined_log | intros _; apply IH].
Qed.

Lemma safe_replace_from_touches src dst : forall attempts w,
  only_touches [src; dst] w (snd (safe_replace_from attempts src dst w)).
Proof.
  induction attempts as [ | a rest IH]; intros w; simpl; [apply only_touches_refl | ].
  assert (H : confined [src; dst] (replace_attempt src dst)).
  { unfold replace_attempt. apply confined_bind; [apply confined_path_exists | intros there].
    apply confined_bind; [ | intros; apply confined_replace].
    destruct there; [ | apply confined_ret].
    eapply confined_mono; [ | apply confined_remove]. simpl. tauto. }
  specialize (H w).
  destruct (replace_attempt src dst w) as [[[] | e] w1]; simpl in H; [exact H | ].
  eapply only_touches_trans; [exact H | ].
  eapply only_touches_trans; [ | apply IH].
  destruct (a <? 4); split; auto.
Qed.

Lemma delete_original_touches path : forall attempts w,
  only_touches [path] w (delete_original attempts path w).
Proof.
  induction attempts as [ | a rest IH]; intros w; simpl; [apply only_touches_refl | ].
  destruct (os_path_exists path w); [ | apply IH].
  pose proof (confined_remove path w) as H.
  destruct (os_remove path w) as [[[] | e] w1]; simpl in H.
  - eapply only_touches_trans; [exact H | apply only_touches_emit].
  - eapply only_touches_trans; [exact H | ].
    eapply only_touches_trans; [ | apply IH].
    destruct (a <? 2); split; auto.
Qed.

Lemma remove_tmp_touches tmp : forall attempts w,
  only_touches [tmp] w (remove_tmp attempts tmp w).
Proof.
  induction attempts as [ | a rest IH]; intros w; simpl; [apply only_touches_refl | ].
  destruct (os_path_exists tmp w); [ | apply IH].
  pose proof (confined_remove tmp w) as H.
  destruct (os_remove tmp w) as [[[] | e] w1]; simpl in H; [exact H | ].
  eapply only_touches_trans; [exact H | ].
  eapply only_touches_trans; [ | apply IH]. split; auto.
Qed.

End Confined.

(** ** The files of a job *)

Section JobFrame.
Variable pil : Pillow.
Variable self : t.

Lemma confined_on_bind {A B} os S (m : M A) (k : A -> M B) :
  confined_on os S m -> (forall a, confined_on os S (k a)) -> confined_on os S (bind m k).
Proof.
  intros Hm Hk w Hos. unfold bind. specialize (Hm w Hos).
  destruct (m w) as [[a | e] w1]; simpl in Hm; [ | exact Hm].
  eapply only_touches_trans; [exact Hm | apply Hk]. destruct Hm as [-> _]. exact Hos.
Qed.

Lemma confined_on_of {A} os S S' (m : M A) :
  (forall p, In p S -> In p S') -> confined S m -> confined_on os S' m.
Proof. intros Hsub Hm w _. eapply only_touches_mono; [exact Hsub | apply Hm]. Qed.

Lemma compress_and_install_touches os path init_bytes img :
  confined_on os (job_paths os path)
    (compress_and_install pil self path (path +:+ ".tmp") init_bytes img).
Proof.
  unfold compress_and_install, compress_to_budget, install_output, job_paths.
  apply confined_on_bind;
    [eapply confined_on_of; [ | apply (confined_convert_to_rgb self [])]; simpl; tauto | ].
  intros img1.
  apply confined_on_bind;
    [eapply confined_on_of; [ | apply (confined_limit self [])]; simpl; tauto | ].
  intros [img2 is_resized].
  destruct (_ && _);
    [eapply confined_on_of; [ | apply (confined_log [])]; simpl; tauto | ].
  apply confined_on_bind;
    [eapply confined_on_of; [ | apply (confined_backup self path)]; simpl; tauto | ].
  intros _.
  apply confined_on_bind;
    [eapply confined_on_of; [ | apply (confined_bind [] _ _ (confined_call [] EvCopyImage)
                                         (fun _ => confined_ret [] img2))]; simpl; tauto | ].
  intros curr.
  apply confined_on_bind;
    [eapply confined_on_of; [ | apply (confined_adaptive_loop pil self)]; simpl; tauto | ].
  intros _.
  intros w Hos. unfold bind at 1. rewrite Hos.
  set (out := splitext_root os path +:+ ".jpg").
  unfold bind at 1.
  pose proof (safe_replace_from_touches (path +:+ ".tmp") out (range 5) w) as Hr.
  unfold _safe_replace.
  destruct (safe_replace_from (range 5) (path +:+ ".tmp") out w) as [b w1]. simpl in Hr.
  assert (Hr' : only_touches [path; path +:+ ".bak"; path +:+ ".tmp"; out] w w1)
    by (eapply only_touches_mono; [ | exact Hr]; simpl; tauto).
  eapply only_touches_trans; [exact Hr' | ].
  destruct b; [ | apply only_touches_emit].
  assert (Hc : confined [path; path +:+ ".bak"; path +:+ ".tmp"; out]
                 (let* final_bytes := os_path_getsize out in
                  log (LogDone out final_bytes init_bytes) ;;
                  if negb (String.eqb path out)
                  then fun w => (Ok tt, delete_original (range 3) path w)
                  else ret tt)).
  { apply confined_bind; [apply confined_getsize | intros n].
    apply confined_bind; [apply confined_log | intros _].
    destruct (negb _); [ | apply confined_ret].
    intros w2. cbv beta iota delta [snd].
    eapply only_touches_mono; [ | apply delete_original_touches].
    simpl. tauto. }
  apply Hc.
Qed.

Lemma try_block_touches path w :
  only_touches (job_paths (w_os w) path) w
    (snd (try_block pil self path (path +:+ ".tmp") w)).
Proof.
  unfold try_block.
  assert (H1 : only_touches (job_paths (w_os w) path) w (snd (_clear_readonly self path w))).
  { unfold _clear_readonly.
    assert (Hc : confined [path] (if os_path_exists path w && negb (os_access_w path w)
                                   then os_chmod_writable path else ret tt)).
    { destruct (_ && _); [ | apply confined_ret].
      apply confined_bind; [apply confined_call | intros _ w0].
      destruct (w_fs w0 !! fs_key (w_os w0) path);
        [apply only_touches_insert | apply only_touches_refl]. }
    specialize (Hc w).
    destruct ((if os_path_exists path w && negb (os_access_w path w)
               then os_chmod_writable path else ret tt) w) as [[[] | e] w1]; simpl in *;
      (eapply only_touches_mono; [ | exact Hc]; unfold job_paths; simpl; tauto). }
  destruct (_clear_readonly self path w) as [[] w1]; simpl in H1; [ | exact H1].
  eapply only_touches_trans; [exact H1 | ].
  assert (Hos1 : w_os w1 = w_os w) by apply H1. rewrite <- Hos1. clear H1.
  pose proof (confined_getsize (job_paths (w_os w1) path) path w1) as H2.
  destruct (os_path_getsize path w1) as [[n | e] w2]; simpl in H2; [ | exact H2].
  eapply only_touches_trans; [exact H2 | ].
  assert (Hos2 : w_os w2 = w_os w1) by apply H2. rewrite <- Hos2. clear H2.
  pose proof (confined_image_open pil (job_paths (w_os w2) path) path w2) as H3.
  destruct (image_open pil path w2) as [[[img fmt] | e] w3]; simpl in H3; [ | exact H3].
  eapply only_touches_trans; [exact H3 | ].
  assert (Hos3 : w_os w3 = w_os w2) by apply H3. rewrite <- Hos3. clear H3.
  pose proof (confined_call (job_paths (w_os w3) path) (EvLoad path) w3) as H4.
  destruct (call (EvLoad path) w3) as [[[] | e] w4]; simpl in H4; [ | exact H4].
  eapply only_touches_trans; [exact H4 | ].
  assert (Hos4 : w_os w4 = w_os w3) by apply H4. rewrite <- Hos4. clear H4.
  pose proof (compress_and_install_touches (w_os w4) path n img w4 eq_refl) as H5.
  destruct (compress_and_install pil self path (path +:+ ".tmp") n img w4) as [[[] | e] w5];
    exact H5.
Qed.

(** X9: whatever fails, a job changes no file but the one it is given, its
    backup [path.bak], its scratch file [path.tmp] and the output
    [root.jpg]; every other file of the folder, and the platform, are as
    before. *)
Theorem job_touches_only_its_paths (path : string) (w : world) :
  let tmp_file := path +:+ ".tmp" in
  let out_path := out_path_of w path in
  only_touches [path; path +:+ ".bak"; tmp_file; out_path] w
    (snd (process_single_image pil self path w)).
Proof.
  intros tmp_file out_path. unfold process_single_image.
  pose proof (try_block_touches path w) as H. fold tmp_file in H |- *.
  destruct (try_block pil self path tmp_file w) as [img w1]. simpl in H.
  eapply only_touches_trans; [exact H | ].
  assert (Hos : w_os w1 = w_os w) by apply H.
  unfold bind.
  pose proof (confined_call (job_paths (w_os w) path) EvClose w1) as Hc.
  assert (Hrm : forall w2, only_touches (job_paths (w_os w) path) w2
                             (remove_tmp (range 3) tmp_file w2)).
  { intros w2. eapply only_touches_mono; [ | apply remove_tmp_touches].
    unfold job_paths. simpl. tauto. }
  destruct img as [img | ].
  - destruct (call EvClose w1) as [[[] | e] w2]; simpl in Hc; [ | exact Hc].
    cbv beta iota delta [snd]. eapply only_touches_trans; [exact Hc | apply Hrm].
  - cbv beta iota delta [snd ret]. apply Hrm.
Qed.

(** The [try] block leaves an image in [img] exactly when the permission
    check, the size query and [Image.open] went through. *)
Lemma try_block_binds_image (path : string) (w : world) :
  is_Some (fst (try_block pil self path (path +:+ ".tmp") w)) <->
  exists w1 init_bytes w2 r w3,
    _clear_readonly self path w = (true, w1) /\
    os_path_getsize path w1 = (Ok init_bytes, w2) /\
    image_open pil path w2 = (Ok r, w3).
Proof.
  unfold try_block.
  destruct (_clear_readonly self path w) as [[] w1] eqn:E1.
  2: { split; [intros [x H]; discriminate | intros (? & ? & ? & ? & ? & H & _); discriminate]. }
  destruct (os_path_getsize path w1) as [[init_bytes | e] w2] eqn:E2.
  2: { split; [intros [x H]; discriminate | ].
       intros (? & ? & ? & ? & ? & H1 & H2 & _). injection H1 as <-.
       rewrite E2 in H2. discriminate. }
  destruct (image_open pil path w2) as [[[img fmt] | e] w3] eqn:E3.
  2: { split; [intros [x H]; discriminate | ].
       intros (? & ? & ? & ? & ? & H1 & H2 & H3). injection H1 as <-.
       rewrite E2 in H2. injection H2 as <- <-. rewrite E3 in H3. discriminate. }
  split; [intros _; exists w1, init_bytes, w2, (img, fmt), w3; auto | ].
  intros _. destruct (call (EvLoad path) w3) as [[[] | e] w4]; [ | eexists; reflexivity].
  destruct (compress_and_install pil self path _ init_bytes img w4) as [[[] | e] w5];
    eexists; reflexivity.
Qed.

(** X10: [process_single_image] raises exactly when its [try] block has left
    an image in [img] and the call [img.close()] of the [finally] block
    fails.  The exception is then the one of that call, which is the last
    call of the job: the cleanup of the scratch file (lines 227-233) is not
    reached, no file changes any more and the method logs nothing about it.
    In every other case the method returns normally, whichever calls
    failed.  An image is left in [img] exactly when the permission check, the
    size query and [Image.open] went through. *)
Theorem job_raises_only_on_close (path : string) (w : world) :
  let b := try_block pil self path (path +:+ ".tmp") w in
  let r := process_single_image pil self path w in
  (is_Some (fst b) <->
   exists w1 init_bytes w2 img w3,
     _clear_readonly self path w = (true, w1) /\
     os_path_getsize path w1 = (Ok init_bytes, w2) /\
     image_open pil path w2 = (Ok img, w3)) /\
  (is_Some (fst b) /\ hd false (w_faults (snd b)) = true ->
     r = (Raise (Fault EvClose), snd (call EvClose (snd b)))) /\
  (fst b = None \/ hd false (w_faults (snd b)) = false ->
     r = (Ok tt,
          remove_tmp (range 3) (path +:+ ".tmp")
            (match fst b with Some _ => snd (call EvClose (snd b)) | None => snd b end))) /\
  forall e : exn, fst r = Raise e ->
    e = Fault EvClose /\ is_Some (fst b) /\ hd false (w_faults (snd b)) = true /\
    w_fs (snd r) = w_fs (snd b) /\ w_log (snd r) = w_log (snd b) /\
    w_trace (snd r) = w_trace (snd b) ++ [EvClose].
Proof.
  intros b r. split; [apply try_block_binds_image | ]. subst b r.
  unfold process_single_image.
  destruct (try_block pil self path (path +:+ ".tmp") w) as [img w1].
  cbn [fst snd]. unfold bind, call, ret.
  destruct img as [img | ]; [destruct (hd false (w_faults w1)) eqn:Hh | ]; cbn [fst snd].
  - split; [reflexivity | ]. split; [intros [H | H]; discriminate | ].
    intros e He. injection He as <-. repeat split; eauto.
  - split; [intros [_ H]; discriminate | ]. split; [reflexivity | discriminate].
  - split; [intros [[x H] _]; discriminate | ]. split; [reflexivity | discriminate].
Qed.

End JobFrame.

(** ** The search without faults *)

Section QuietSearch.
Variable pil : Pillow.

Lemma writable_after_insert p d w :
  writable_or_absent p (set_fs (insert (fs_key (w_os w) p) (File d false)) w).
Proof.
  unfold writable_or_absent, os_access_w. simpl. rewrite lookup_insert_eq. simpl.
  apply andb_false_r.
Qed.

(** An encode that goes through: what [measure] and the final encode do. *)
Lemma save_getsize_quiet img tmp q w data :
  w_faults w = [] -> writable_or_absent tmp w -> pil_encode pil img q = Some data ->
  (image_save pil img tmp q ;; os_path_getsize tmp) w =
    (Ok (Z.of_nat (List.length data)),
     World (w_os w) (<[fs_key (w_os w) tmp := File data false]> (w_fs w)) []
           (w_trace w ++ [EvSave tmp q; EvGetsize tmp]) (w_log w)).
Proof.
  intros Hq Hw Hd. unfold writable_or_absent in Hw.
  unfold bind, image_save, os_path_getsize, bind, call. rewrite Hq. simpl.
  rewrite Hd.
  replace (os_path_exists tmp _ && negb (os_access_w tmp _)) with false
    by (symmetry; exact Hw).
  simpl. rewrite lookup_insert_eq, <- app_assoc. reflexivity.
Qed.

Lemma measure_quiet img tmp q w data :
  w_faults w = [] -> writable_or_absent tmp w -> pil_encode pil img q = Some data ->
  measure pil img tmp q w =
    (Finite (Z.of_nat (List.length data)),
     World (w_os w) (<[fs_key (w_os w) tmp := File data false]> (w_fs w)) []
           (w_trace w ++ [EvSave tmp q; EvGetsize tmp]) (w_log w)).
Proof.
  intros Hq Hw Hd. unfold measure. rewrite (save_getsize_quiet img tmp q w data Hq Hw Hd).
  reflexivity.
Qed.

Lemma quiet_search_step tmp w0 w d tr :
  quiet_search tmp w0 w ->
  quiet_search tmp w0
    (World (w_os w) (<[fs_key (w_os w) tmp := File d false]> (w_fs w)) [] tr (w_log w)).
Proof.
  intros (Hq & Ho & Hl & Hw & Hf).
  split; [reflexivity | split; [exact Ho | split; [exact Hl | split]]].
  - unfold writable_or_absent, os_access_w. simpl. rewrite lookup_insert_eq. simpl.
    apply andb_false_r.
  - right. exists d. simpl. rewrite Ho. destruct Hf as [-> | [d' ->]]; [reflexivity | ].
    apply insert_insert_eq.
Qed.


(** X7: when no call fails, the target has a finite binary64 value, the
    scratch file is writable or absent, and the encoder's sizes grow with the
    quality, [_binary_compress] ends on a quality of 10..95 with the scratch
    file holding the encoding at that quality, reports its size and whether
    it is within 5% of the target, and every quality whose encoding fits the
    target is at most the one chosen, which then fits too: the search finds
    the largest quality that fits. *)
Theorem binary_search_finds_largest_fitting
    (target : Z) (backup auto_resize : bool) (max_dimension : Z)
    (img : image) (tmp : string) (ceiling : fsize) (w : world) (sz : Z -> Z) :
  let self := __init__ target backup auto_resize max_dimension in
  w_faults w = [] ->
  float_overflows target = false ->
  writable_or_absent tmp w ->
  (forall q, 10 <= q <= 95 ->
     exists data, pil_encode pil img q = Some data /\ Z.of_nat (List.length data) = sz q) ->
  (forall q1 q2, 10 <= q1 <= q2 -> q2 <= 95 -> sz q1 <= sz q2) ->
  let s := fst (search_loop pil self img tmp ceiling (search_start self) w) in
  let q := Z.max (MIN_Q self) (high s) in
  10 <= q <= 95 /\
  fst (_binary_compress pil self img tmp ceiling w) =
    (Finite (sz q), within_tolerance (sz q) target) /\
  (exists data, pil_encode pil img q = Some data /\
     w_fs (snd (_binary_compress pil self img tmp ceiling w)) !! fs_key (w_os w) tmp =
       Some (File data false)) /\
  (forall q', 10 <= q' <= 95 -> sz q' <= 1024 * target ->
     q' <= q /\ sz q <= 1024 * target).
Proof.
  intros self Hq Hfin Hw Henc Hmono.
  pose (I := fun (s : search) (w' : world) =>
    quiet_search tmp w w' /\ 10 <= low s /\ high s <= 95 /\ low s <= high s + 1 /\
    (forall q', 10 <= q' < low s -> sz q' <= 1024 * target) /\
    (forall q', high s < q' <= 95 -> sz q' > 1024 * target)).
  assert (Hinv : I (fst (search_loop pil self img tmp ceiling (search_start self) w))
                   (snd (search_loop pil self img tmp ceiling (search_start self) w)) /\
                 high (fst (search_loop pil self img tmp ceiling (search_start self) w)) <
                 low (fst (search_loop pil self img tmp ceiling (search_start self) w))).
  { apply (search_loop_invariant pil self img tmp ceiling I).
    - intros s w1 (Hqs & Hlo & Hhi & Hlh & Hbelow & Habove) Hle.
      pose proof (midpoint_between _ _ Hle) as Hmid.
      destruct (Henc ((low s + high s) / 2) ltac:(lia)) as (data & Hd & Hlen).
      destruct (search_step_fields pil self img tmp ceiling s w1) as (Hw1 & _ & _ & _ & Hb).
      destruct Hqs as (Hq1 & Ho1 & Hl1 & Hw1' & Hf1).
      rewrite (measure_quiet img tmp _ w1 data Hq1 Hw1' Hd) in Hw1, Hb.
      simpl in Hw1, Hb. rewrite Hw1, Hlen in *.
      assert (Hqs' : quiet_search tmp w
                (World (w_os w1) (<[fs_key (w_os w1) tmp := File data false]> (w_fs w1)) []
                   (w_trace w1 ++ [EvSave tmp ((low s + high s) / 2); EvGetsize tmp])
                   (w_log w1)))
        by (apply quiet_search_step; repeat split; assumption).
      unfold I. split; [exact Hqs' | ].
      destruct (sz ((low s + high s) / 2) >? 1024 * target) eqn:E; destruct Hb as [-> ->].
      + apply Z.gtb_lt in E. repeat split; try lia; [exact Hbelow | ].
        intros q' Hq'. pose proof (Hmono ((low s + high s) / 2) q' ltac:(lia) ltac:(lia)). lia.
      + rewrite Z.gtb_ltb in E. apply Z.ltb_ge in E. repeat split; try lia; [ | exact Habove].
        intros q' Hq'. pose proof (Hmono q' ((low s + high s) / 2) ltac:(lia) ltac:(lia)). lia.
    - unfold I, search_start. simpl. repeat split; auto; try lia. }
  cbv zeta.
  unfold _binary_compress. fold (search_start self).
  destruct (search_loop pil self img tmp ceiling (search_start self) w) as [s1 w1].
  simpl fst in *. simpl snd in *.
  destruct Hinv as [(Hqs & Hlo & Hhi & Hlh & Hbelow & Habove) Hexit].
  change (MIN_Q self) with 10.
  assert (Hrange : 10 <= Z.max 10 (high s1) <= 95) by lia.
  destruct (Henc _ Hrange) as (data & Hd & Hlen).
  destruct Hqs as (Hq1 & Ho1 & Hl1 & Hw1 & Hf1).
  rewrite (save_getsize_quiet img tmp _ w1 data Hq1 Hw1 Hd).
  change (target_size_kb self) with target. rewrite Hfin. simpl. rewrite Hlen.
  split; [exact Hrange | split; [reflexivity | split]].
  - exists data. split; [exact Hd | rewrite Ho1; apply lookup_insert_eq].
  - intros q' Hq' Hfit.
    destruct (Z_lt_le_dec (high s1) q') as [Hgt | Hle].
    + pose proof (Habove q' ltac:(lia)). lia.
    + split; [lia | ]. replace (Z.max 10 (high s1)) with (high s1) by lia.
      apply Hbelow. lia.
Qed.

End QuietSearch.

Lemma binary_search_finds_largest_fitting_witness :
  let self := __init__ 2 false true 0 in
  let q := Z.max (MIN_Q self)
             (high (fst (search_loop linear_pil self sample_image "photo.jpg.tmp" Infinity
                           (search_start self) empty_world))) in
  q = 51 /\ 40 * 51 <= 1024 * 2 /\
  fst (_binary_compress linear_pil self sample_image "photo.jpg.tmp" Infinity empty_world) =
    (Finite (40 * q), within_tolerance (40 * q) 2).
Proof.
  intros self q.
  split; [reflexivity | split; [lia | ]].
  refine (proj1 (proj2 (binary_search_finds_largest_fitting linear_pil 2 false true 0 sample_image
                          "photo.jpg.tmp" Infinity empty_world (fun q => 40 * q)
                          eq_refl eq_refl eq_refl _ _))).
  - intros q0 Hq0. eexists. split; [reflexivity | ].
    rewrite repeat_length. lia.
  - intros q1 q2 H1 H2. lia.
Defined.

(** ** Calls made by the search and the downscale loop *)

Section Effort.
Variable pil : Pillow.

Lemma search_loop_saves self img tmp c s w :
  exists evs : list event,
    w_trace (snd (search_loop pil self img tmp c s w)) = w_trace w ++ evs /\
    (count is_save evs + List.length (measured s) =
     List.length (measured (fst (search_loop pil self img tmp c s w))))%nat /\
    count is_resize evs = O.
Proof.
  apply (search_loop_invariant pil self img tmp c
           (fun s' w' => exists evs : list event, w_trace w' = w_trace w ++ evs /\
              (count is_save evs + List.length (measured s) = List.length (measured s'))%nat /\
              count is_resize evs = O)).
  - clear. intros s' w1 (evs & Ht & Hc & Hr) _.
    destruct (search_step_fields pil self img tmp c s' w1) as (-> & -> & _).
    destruct (measure_trace pil img tmp ((low s' + high s') / 2) w1) as (rest & -> & Hrest).
    exists (evs ++ EvSave tmp ((low s' + high s') / 2) :: rest).
    rewrite Ht, <- app_assoc, !count_app, length_app.
    split; [reflexivity | ].
    destruct Hrest as [-> | ->]; unfold count in *; simpl; lia.
  - exists []. rewrite app_nil_r. repeat split.
Qed.

Lemma binary_compress_saves target backup auto_resize max_dimension img tmp c w :
  let core := __init__ target backup auto_resize max_dimension in
  exists evs : list event,
    w_trace (snd (_binary_compress pil core img tmp c w)) = w_trace w ++ evs /\
    (1 <= count is_save evs <= 8)%nat /\ count is_resize evs = O.
Proof.
  intros core. unfold _binary_compress. fold (search_start core).
  destruct (search_loop_turns pil core img tmp c 7 (search_start core) w)
    as (n & Hn & Heq & _); [simpl; lia | ].
  pose proof (turns_measured pil core img tmp c n (search_start core, w)) as Hlen.
  rewrite <- Heq in Hlen. simpl in Hlen.
  destruct (search_loop_saves core img tmp c (search_start core) w) as (evs & Ht & Hc & Hr).
  simpl in Hc.
  destruct (search_loop pil core img tmp c (search_start core) w) as [s1 w1].
  simpl in Ht, Hc, Hlen.
  destruct (save_getsize_trace pil img tmp (Z.max (MIN_Q core) (high s1)) w1)
    as (rest & Ht2 & Hrest).
  exists (evs ++ EvSave tmp (Z.max (MIN_Q core) (high s1)) :: rest).
  split.
  - destruct ((image_save pil img tmp _;; os_path_getsize tmp) w1) as [[m | e] w2];
      [destruct (float_overflows _) | ];
      simpl in *; rewrite Ht2, Ht, <- app_assoc; reflexivity.
  - rewrite !count_app. destruct Hrest as [-> | ->]; unfold count in *; simpl; lia.
Qed.

(** X8: whatever fails, a downscale loop with [remaining] turns left encodes
    the image at most [8 * remaining] times and resizes it at most
    [remaining] times. *)
Theorem adaptive_loop_effort
    (target : Z) (backup auto_resize : bool) (max_dimension : Z)
    (tmp : string) (ceil : fsize) (remaining : nat) (curr : image)
    (last : option (fsize * bool)) (w : world) :
  let core := __init__ target backup auto_resize max_dimension in
  exists evs : list event,
    w_trace (snd (adaptive_loop pil core tmp ceil remaining curr last w)) = w_trace w ++ evs /\
    (count is_save evs <= 8 * remaining)%nat /\
    (count is_resize evs <= remaining)%nat.
Proof.
  intros core. revert curr last w.
  induction remaining as [ | n IH]; intros curr last w.
  - exists []. simpl. rewrite app_nil_r. repeat split; unfold count; simpl; lia.
  - simpl.
    destruct (binary_compress_saves target backup auto_resize max_dimension curr tmp ceil w)
      as (evs & Ht & Hs & Hr).
    fold core in Ht.
    destruct (_binary_compress pil core curr tmp ceil w) as [[fs ok] w1]. simpl in Ht.
    destruct ok; [exists evs; simpl; repeat split; [assumption | lia | lia] | ].
    destruct (negb auto_resize); [exists evs; simpl; repeat split; [assumption | lia | lia] | ].
    destruct (_ || _); [exists evs; simpl; repeat split; [assumption | lia | lia] | ].
    unfold bind, log.
    match goal with |- context [image_resize curr ?sz w1] =>
      pose proof (image_resize_cases curr sz w1) as Hrs end.
    cbv zeta in Hrs. destruct Hrs as [[e Hrs] | (resized & Hrs & _)]; rewrite Hrs.
    + eexists (evs ++ [EvResize _]). simpl. rewrite Ht, <- app_assoc.
      split; [reflexivity | ]. rewrite !count_app. unfold count at 2 4. simpl. lia.
    + cbv beta iota.
      match goal with |- context [adaptive_loop pil core tmp ceil n ?i ?l ?w'] =>
        destruct (IH i l w') as (evs' & Ht' & Hs' & Hr') end.
      simpl in Ht'.
      eexists (evs ++ EvResize _ :: evs'). rewrite Ht', Ht, <- !app_assoc.
      split; [reflexivity | ].
      rewrite !count_app. unfold count at 2 4. simpl. fold (count is_save evs').
      fold (count is_resize evs'). lia.
Qed.
End Effort.

(** ** Paths of a job *)

Lemma append_suffix_differs (s t : string) :
  String.length s = String.length t -> s <> t ->
  forall a b, a +:+ s <> b +:+ t.
Proof.
  intros Hlen Hne. induction a as [ | c a IH]; intros b H.
  - destruct b as [ | c' b]; [exact (Hne H) | ].
    apply (f_equal String.length) in H.
    change (String c' b +:+ t) with (String c' (b +:+ t)) in H.
    cbn [String.length String.append] in H. rewrite !string_length_append in H. simpl in H. lia.
  - destruct b as [ | c' b].
    + apply (f_equal String.length) in H.
      change (String c a +:+ s) with (String c (a +:+ s)) in H.
      cbn [String.length String.append] in H. rewrite !string_length_append in H.
      simpl in H. lia.
    + change (String c (a +:+ s) = String c' (b +:+ t)) in H.
      injection H as _ H. exact (IH b H).
Qed.

Lemma bak_file_fresh (path : string) : path <> path +:+ ".bak".
Proof.
  intros H. apply (f_equal String.length) in H.
  rewrite string_length_append in H. simpl in H. lia.
Qed.

Lemma job_paths_distinct (os : platform) (path : string) :
  let tmp := path +:+ ".tmp" in
  let bak := path +:+ ".bak" in
  let out := splitext_root os path +:+ ".jpg" in
  tmp <> path /\ bak <> path /\ tmp <> bak /\ out <> tmp /\ out <> bak.
Proof.
  intros tmp bak out. subst tmp bak out.
  split; [intros H; symmetry in H; revert H; apply tmp_file_fresh | ].
  split; [intros H; symmetry in H; revert H; apply bak_file_fresh | ].
  split; [apply append_suffix_differs; [reflexivity | discriminate] | ].
  split; apply append_suffix_differs; (reflexivity || discriminate).
Qed.

(** ** File operations without faults *)

Lemma writable_or_absent_same p w w' :
  w_os w' = w_os w -> w_fs w' !! fs_key (w_os w) p = w_fs w !! fs_key (w_os w) p ->
  writable_or_absent p w -> writable_or_absent p w'.
Proof.
  unfold writable_or_absent, os_path_exists, os_access_w. intros -> ->. auto.
Qed.

Lemma locked_by_attribute_same p w w' :
  w_os w' = w_os w -> w_fs w' !! fs_key (w_os w) p = w_fs w !! fs_key (w_os w) p ->
  locked_by_attribute p w' = locked_by_attribute p w.
Proof. unfold locked_by_attribute. intros -> ->. reflexivity. Qed.

Lemma not_locked_when_writable p w f :
  w_fs w !! fs_key (w_os w) p = Some f -> f_readonly f = false ->
  locked_by_attribute p w = false.
Proof. unfold locked_by_attribute. intros -> ->. destruct (w_os w); reflexivity. Qed.

Lemma locked_by_attribute_record p w fa tr lg :
  locked_by_attribute p (World (w_os w) (w_fs w) fa tr lg) = locked_by_attribute p w.
Proof. reflexivity. Qed.

Lemma os_remove_quiet p w f :
  w_faults w = [] -> w_fs w !! fs_key (w_os w) p = Some f ->
  locked_by_attribute p w = false ->
  os_remove p w =
    (Ok tt, World (w_os w) (delete (fs_key (w_os w) p) (w_fs w)) []
                  (w_trace w ++ [EvRemove p]) (w_log w)).
Proof.
  intros Hq Hf Hlock. unfold os_remove, bind, call. rewrite Hq. simpl.
  rewrite Hf, locked_by_attribute_record, Hlock. reflexivity.
Qed.

Lemma os_replace_quiet src dst w f :
  w_faults w = [] -> w_fs w !! fs_key (w_os w) src = Some f ->
  locked_by_attribute dst w = false ->
  os_replace src dst w =
    (Ok tt, World (w_os w)
                  (<[fs_key (w_os w) dst := f]> (delete (fs_key (w_os w) src) (w_fs w))) []
                  (w_trace w ++ [EvReplace src dst]) (w_log w)).
Proof.
  intros Hq Hf Hlock. unfold os_replace, bind, call. rewrite Hq. simpl.
  rewrite Hf, locked_by_attribute_record, Hlock. reflexivity.
Qed.

Lemma not_locked_when_absent p w :
  w_fs w !! fs_key (w_os w) p = None -> locked_by_attribute p w = false.
Proof. unfold locked_by_attribute. intros ->. destruct (w_os w); reflexivity. Qed.

Lemma safe_replace_quiet self src dst w f :
  w_faults w = [] -> w_fs w !! fs_key (w_os w) src = Some f ->
  fs_key (w_os w) src <> fs_key (w_os w) dst ->
  locked_by_attribute dst w = false ->
  exists w',
    _safe_replace self src dst w = (true, w') /\
    w_faults w' = [] /\ w_os w' = w_os w /\ w_log w' = w_log w /\
    w_fs w' = <[fs_key (w_os w) dst := f]>
                (delete (fs_key (w_os w) src) (delete (fs_key (w_os w) dst) (w_fs w))) /\
    count is_sleep (drop (List.length (w_trace w)) (w_trace w')) = O.
Proof.
  intros Hq Hs Hne Hlock.
  unfold _safe_replace. change (range 5) with (0 :: map Z.of_nat (seq 1 4)).
  cbn [safe_replace_from].
  unfold replace_attempt, bind at 1, path_exists.
  destruct (os_path_exists dst w) eqn:Ex.
  - apply os_path_exists_lookup in Ex. destruct Ex as [fd Ed].
    unfold bind. rewrite (os_remove_quiet dst w fd Hq Ed Hlock).
    rewrite (os_replace_quiet src dst _ f); simpl;
      [ | reflexivity | rewrite lookup_delete_ne by congruence; exact Hs
        | apply not_locked_when_absent; simpl; apply lookup_delete_eq ].
    eexists. split; [reflexivity | ]. simpl.
    repeat split.
    rewrite <- app_assoc, drop_app_length. reflexivity.
  - assert (Ed : w_fs w !! fs_key (w_os w) dst = None).
    { destruct (w_fs w !! fs_key (w_os w) dst) eqn:E; [ | reflexivity].
      assert (os_path_exists dst w = true) by (apply os_path_exists_lookup; rewrite E; eauto).
      congruence. }
    unfold bind, ret. rewrite (os_replace_quiet src dst w f Hq Hs Hlock).
    eexists. split; [reflexivity | ]. simpl.
    repeat split.
    + rewrite (delete_id (w_fs w) _ Ed). reflexivity.
    + rewrite drop_app_length. reflexivity.
Qed.

Lemma delete_original_quiet a rest path w f :
  w_faults w = [] -> w_fs w !! fs_key (w_os w) path = Some f ->
  locked_by_attribute path w = false ->
  delete_original (a :: rest) path w =
    World (w_os w) (delete (fs_key (w_os w) path) (w_fs w)) []
          (w_trace w ++ [EvRemove path]) (w_log w ++ [LogDeleted path]).
Proof.
  intros Hq Hf Hlock. cbn [delete_original].
  assert (Ex : os_path_exists path w = true) by (apply os_path_exists_lookup; rewrite Hf; eauto).
  rewrite Ex, (os_remove_quiet path w f Hq Hf Hlock). reflexivity.
Qed.

Lemma remove_tmp_absent tmp : forall attempts w,
  w_fs w !! fs_key (w_os w) tmp = None -> remove_tmp attempts tmp w = w.
Proof.
  induction attempts as [ | a rest IH]; intros w Hn; [reflexivity | ].
  cbn [remove_tmp].
  assert (Ex : os_path_exists tmp w = false).
  { destruct (os_path_exists tmp w) eqn:E; [ | reflexivity].
    apply os_path_exists_lookup in E. rewrite Hn in E. destruct E; discriminate. }
  rewrite Ex. apply IH, Hn.
Qed.

(** X4: when no call fails, the source exists, is not the same file as the
    destination, and no read-only attribute locks the destination,
    [_safe_replace] answers [True] at its first attempt: the destination
    holds the file of the source, the source is gone, nothing is logged and
    no pause is taken. *)
Theorem safe_replace_installs_at_once (self : t) (src dst : string) (w : world) (f : file) :
  w_faults w = [] -> w_fs w !! fs_key (w_os w) src = Some f ->
  fs_key (w_os w) src <> fs_key (w_os w) dst ->
  locked_by_attribute dst w = false ->
  exists w',
    _safe_replace self src dst w = (true, w') /\
    w_os w' = w_os w /\ w_log w' = w_log w /\
    w_fs w' = <[fs_key (w_os w) dst := f]> (delete (fs_key (w_os w) src) (w_fs w)) /\
    count is_sleep (drop (List.length (w_trace w)) (w_trace w')) = O.
Proof.
  intros Hq Hs Hne Hlock.
  destruct (safe_replace_quiet self src dst w f Hq Hs Hne Hlock)
    as (w' & Hrun & _ & Hos & Hlog & Hfs & Hsl).
  exists w'. repeat split; try assumption.
  rewrite Hfs, delete_delete, insert_delete_eq. reflexivity.
Qed.

Lemma safe_replace_installs_at_once_witness :
  exists w',
    _safe_replace (__init__ 2 false true 0) "photo.jpg.tmp" "photo.jpg" scratch_ready_world
      = (true, w') /\
    w_fs w' !! "photo.jpg" = Some (File [Byte.x02; Byte.x02] false) /\
    w_fs w' !! "photo.jpg.tmp" = None.
Proof.
  destruct (safe_replace_installs_at_once (__init__ 2 false true 0) "photo.jpg.tmp" "photo.jpg"
              scratch_ready_world (File [Byte.x02; Byte.x02] false))
    as (w' & Hrun & _ & _ & Hfs & _);
    [reflexivity | reflexivity | discriminate | reflexivity | ].
  exists w'. split; [exact Hrun | ].
  rewrite Hfs. split.
  - apply lookup_insert_eq.
  - rewrite lookup_insert_ne by discriminate. apply lookup_delete_eq.
Defined.

(** ** Removal of the original and of the scratch file *)

Lemma os_remove_cases (p : string) (w : world) :
  exists w1, w_os w1 = w_os w /\ w_trace w1 = w_trace w ++ [EvRemove p] /\
             w_log w1 = w_log w /\
    ((w_fs w1 = delete (fs_key (w_os w) p) (w_fs w) /\ os_remove p w = (Ok tt, w1)) \/
     (w_fs w1 = w_fs w /\ exists e, os_remove p w = (Raise e, w1))).
Proof.
  unfold os_remove, bind, call.
  set (w0 := World (w_os w) (w_fs w) (tl (w_faults w)) (w_trace w ++ [EvRemove p]) (w_log w)).
  destruct (hd false (w_faults w)); cbv beta iota.
  { exists w0. repeat split. right. split; [reflexivity | eexists; reflexivity]. }
  change (w_fs w0) with (w_fs w). change (w_os w0) with (w_os w).
  destruct (w_fs w !! fs_key (w_os w) p) as [f | ] eqn:E.
  2:{ exists w0. repeat split. right. split; [reflexivity | eexists; reflexivity]. }
  destruct (locked_by_attribute p w0).
  { exists w0. repeat split. right. split; [reflexivity | eexists; reflexivity]. }
  exists (set_fs (delete (fs_key (w_os w) p)) w0). repeat split. left. split; reflexivity.
Qed.

Lemma os_path_exists_same p w w' :
  w_os w' = w_os w -> w_fs w' = w_fs w -> os_path_exists p w' = os_path_exists p w.
Proof. unfold os_path_exists. intros -> ->. reflexivity. Qed.

Lemma os_path_exists_false p w :
  os_path_exists p w = false -> w_fs w !! fs_key (w_os w) p = None.
Proof.
  unfold os_path_exists. intros H. apply bool_decide_eq_false in H.
  destruct (w_fs w !! fs_key (w_os w) p); [exfalso; apply H; eauto | reflexivity].
Qed.

Lemma os_path_exists_true p w :
  os_path_exists p w = true -> is_Some (w_fs w !! fs_key (w_os w) p).
Proof. unfold os_path_exists. intros H. apply bool_decide_eq_true in H. exact H. Qed.

Lemma delete_original_absent path : forall attempts w,
  os_path_exists path w = false -> delete_original attempts path w = w.
Proof.
  induction attempts as [ | a rest IH]; intros w H; [reflexivity | ].
  cbn [delete_original]. rewrite H. apply IH. exact H.
Qed.

Lemma delete_original_step a rest path w :
  os_path_exists path w = true ->
  exists w1, w_os w1 = w_os w /\ w_trace w1 = w_trace w ++ [EvRemove path] /\
             w_log w1 = w_log w /\
    ((w_fs w1 = delete (fs_key (w_os w) path) (w_fs w) /\
      delete_original (a :: rest) path w = emit (LogDeleted path) w1) \/
     (w_fs w1 = w_fs w /\ exists e,
      delete_original (a :: rest) path w =
      delete_original rest path
        (if a <? 2 then snd (time_sleep 100 w1) else emit (LogDeleteFailed e) w1))).
Proof.
  intros Ex. cbn [delete_original]. rewrite Ex.
  destruct (os_remove_cases path w) as (w1 & Ho & Ht & Hl & [[Hf ->] | [Hf [e ->]]]);
    exists w1; repeat split; auto.
  right. split; [exact Hf | ]. exists e. reflexivity.
Qed.

Lemma remove_tmp_step a rest tmp w :
  os_path_exists tmp w = true ->
  exists w1, w_os w1 = w_os w /\ w_trace w1 = w_trace w ++ [EvRemove tmp] /\
             w_log w1 = w_log w /\
    ((w_fs w1 = delete (fs_key (w_os w) tmp) (w_fs w) /\
      remove_tmp (a :: rest) tmp w = w1) \/
     (w_fs w1 = w_fs w /\
      remove_tmp (a :: rest) tmp w = remove_tmp rest tmp (snd (time_sleep 100 w1)))).
Proof.
  intros Ex. cbn [remove_tmp]. rewrite Ex.
  destruct (os_remove_cases tmp w) as (w1 & Ho & Ht & Hl & [[Hf ->] | [Hf [e ->]]]);
    exists w1; repeat split; auto.
Qed.

(** X5: the removal of the original either finds no file and does nothing;
    or removes it within three calls of [os.remove], pausing between them,
    and logs the removal; or fails three times with two pauses, leaves the
    file, and logs the last failure. *)
Theorem delete_original_outcome path w :
  let w' := delete_original (range 3) path w in
  (w_fs w !! fs_key (w_os w) path = None /\ w' = w) \/
  (is_Some (w_fs w !! fs_key (w_os w) path) /\ w_os w' = w_os w /\
   ((w_fs w' = delete (fs_key (w_os w) path) (w_fs w) /\
     w_log w' = w_log w ++ [LogDeleted path] /\
     exists evs, w_trace w' = w_trace w ++ evs /\
                 (1 <= count is_remove evs <= 3)%nat /\
                 count is_sleep evs = (count is_remove evs - 1)%nat) \/
    (w_fs w' = w_fs w /\ (exists e, w_log w' = w_log w ++ [LogDeleteFailed e]) /\
     w_trace w' =
     w_trace w ++ [EvRemove path; EvSleep 100; EvRemove path; EvSleep 100; EvRemove path]))).
Proof.
  cbv zeta. change (range 3) with [0; 1; 2].
  destruct (os_path_exists path w) eqn:Ex.
  2:{ left. split; [apply os_path_exists_false; exact Ex | ].
      apply delete_original_absent. exact Ex. }
  right. split; [apply os_path_exists_true; exact Ex | ].
  destruct (delete_original_step 0 [1; 2] path w Ex)
    as (w1 & Ho1 & Ht1 & Hl1 & [[Hf1 ->] | [Hf1 [e1 ->]]]).
  { split; [exact Ho1 | ]. left. simpl. rewrite Hl1. repeat split; [exact Hf1 | ].
    exists [EvRemove path]. split; [exact Ht1 | ]. unfold count. simpl. lia. }
  change (0 <? 2) with true. cbv iota.
  assert (Ex1 : os_path_exists path (snd (time_sleep 100 w1)) = true).
  { rewrite <- Ex. apply os_path_exists_same; [exact Ho1 | exact Hf1]. }
  destruct (delete_original_step 1 [2] path _ Ex1)
    as (w2 & Ho2 & Ht2 & Hl2 & [[Hf2 ->] | [Hf2 [e2 ->]]]); simpl in Ho2, Ht2, Hl2, Hf2;
    rewrite ?Ho1 in Hf2.
  { split; [simpl; congruence | ]. left. simpl. rewrite Hl2, Hl1, Hf2, Hf1. repeat split.
    exists [EvRemove path; EvSleep 100; EvRemove path]. rewrite Ht2, Ht1, <- !app_assoc.
    split; [reflexivity | ]. unfold count. simpl. lia. }
  change (1 <? 2) with true. cbv iota.
  assert (Ex2 : os_path_exists path (snd (time_sleep 100 w2)) = true).
  { rewrite <- Ex. apply os_path_exists_same; simpl; congruence. }
  destruct (delete_original_step 2 [] path _ Ex2)
    as (w3 & Ho3 & Ht3 & Hl3 & [[Hf3 ->] | [Hf3 [e3 ->]]]); simpl in Ho3, Ht3, Hl3, Hf3;
    rewrite ?Ho2, ?Ho1 in Hf3.
  { split; [simpl; congruence | ]. left. simpl. rewrite Hl3, Hl2, Hl1, Hf3, Hf2, Hf1. repeat split.
    exists [EvRemove path; EvSleep 100; EvRemove path; EvSleep 100; EvRemove path].
    rewrite Ht3, Ht2, Ht1, <- !app_assoc.
    split; [reflexivity | ]. unfold count. simpl. lia. }
  change (2 <? 2) with false. cbv iota. simpl.
  split; [simpl; congruence | ]. right. rewrite Hl3, Hl2, Hl1, Hf3, Hf2, Hf1, Ht3, Ht2, Ht1.
  repeat split; [eauto | ]. rewrite <- !app_assoc. reflexivity.
Qed.

(** X6: the cleanup of the scratch file never logs: it finds no file and
    does nothing; or removes it within three calls of [os.remove]; or fails
    three times, pausing after each failure, the last included, and leaves
    the scratch file behind in silence. *)
Theorem remove_tmp_outcome tmp w :
  let w' := remove_tmp (range 3) tmp w in
  w_os w' = w_os w /\ w_log w' = w_log w /\
  ((w_fs w !! fs_key (w_os w) tmp = None /\ w' = w) \/
   (is_Some (w_fs w !! fs_key (w_os w) tmp) /\
    ((w_fs w' = delete (fs_key (w_os w) tmp) (w_fs w) /\
      exists evs, w_trace w' = w_trace w ++ evs /\
                  (1 <= count is_remove evs <= 3)%nat /\
                  count is_sleep evs = (count is_remove evs - 1)%nat) \/
     (w_fs w' = w_fs w /\
      w_trace w' =
      w_trace w ++ [EvRemove tmp; EvSleep 100; EvRemove tmp; EvSleep 100;
                    EvRemove tmp; EvSleep 100])))).
Proof.
  cbv zeta. change (range 3) with [0; 1; 2].
  destruct (os_path_exists tmp w) eqn:Ex.
  2:{ rewrite (remove_tmp_absent tmp _ w (os_path_exists_false tmp w Ex)). repeat split.
      left. split; [apply os_path_exists_false; exact Ex | reflexivity]. }
  pose proof (os_path_exists_true tmp w Ex) as Hs.
  destruct (remove_tmp_step 0 [1; 2] tmp w Ex)
    as (w1 & Ho1 & Ht1 & Hl1 & [[Hf1 ->] | [Hf1 ->]]).
  { repeat split; [exact Ho1 | exact Hl1 | ]. right. split; [exact Hs | ]. left.
    split; [exact Hf1 | ].
    exists [EvRemove tmp]. split; [exact Ht1 | ]. unfold count. simpl. lia. }
  assert (Ex1 : os_path_exists tmp (snd (time_sleep 100 w1)) = true).
  { rewrite <- Ex. apply os_path_exists_same; [exact Ho1 | exact Hf1]. }
  destruct (remove_tmp_step 1 [2] tmp _ Ex1)
    as (w2 & Ho2 & Ht2 & Hl2 & [[Hf2 ->] | [Hf2 ->]]); simpl in Ho2, Ht2, Hl2, Hf2;
    rewrite ?Ho1 in Hf2.
  { repeat split; [congruence | congruence | ]. right. split; [exact Hs | ]. left.
    split; [congruence | ].
    exists [EvRemove tmp; EvSleep 100; EvRemove tmp]. rewrite Ht2, Ht1, <- !app_assoc.
    split; [reflexivity | ]. unfold count. simpl. lia. }
  assert (Ex2 : os_path_exists tmp (snd (time_sleep 100 w2)) = true).
  { rewrite <- Ex. apply os_path_exists_same; simpl; congruence. }
  destruct (remove_tmp_step 2 [] tmp _ Ex2)
    as (w3 & Ho3 & Ht3 & Hl3 & [[Hf3 ->] | [Hf3 ->]]); simpl in Ho3, Ht3, Hl3, Hf3;
    rewrite ?Ho2, ?Ho1 in Hf3.
  { repeat split; [congruence | congruence | ]. right. split; [exact Hs | ]. left.
    split; [congruence | ].
    exists [EvRemove tmp; EvSleep 100; EvRemove tmp; EvSleep 100; EvRemove tmp].
    rewrite Ht3, Ht2, Ht1, <- !app_assoc.
    split; [reflexivity | ]. unfold count. simpl. lia. }
  simpl. repeat split; [congruence | congruence | ]. right. split; [exact Hs | ]. right.
  split; [congruence | ]. rewrite Ht3, Ht2, Ht1, <- !app_assoc. reflexivity.
Qed.

(** ** The JPEG test of a job (C9) *)













Section Grows.
Variable pil : Pillow.
Variable self : t.








End Grows.






(** ** The images of a job *)

Lemma resized_size img size : im_size (resized img size) = size.
Proof. unfold resized. case_bool_decide; [assumption | reflexivity]. Qed.

Lemma resized_mode img size : im_mode (resized img size) = im_mode img.
Proof. unfold resized. case_bool_decide; reflexivity. Qed.

Lemma candidate_mode self : forall k img, im_mode (candidate self img k) = im_mode img.
Proof.
  induction k as [ | k IH]; intros img; [reflexivity | ].
  cbn [candidate]. rewrite IH. apply resized_mode.
Qed.

Lemma rgb_of_mode img : im_mode (rgb_of img) = "RGB".
Proof.
  unfold rgb_of.
  destruct (String.eqb (im_mode img) "RGBA"); [reflexivity | ].
  destruct (String.eqb (im_mode img) "LA"); [reflexivity | ].
  destruct (String.eqb (im_mode img) "P"); [destruct (im_transparency img); reflexivity | ].
  destruct (String.eqb (im_mode img) "RGB") eqn:E; [ | reflexivity].
  apply String.eqb_eq in E. exact E.
Qed.

Lemma rgb_of_size img : im_size (rgb_of img) = im_size img.
Proof.
  unfold rgb_of.
  destruct (String.eqb (im_mode img) "RGBA"); [reflexivity | ].
  destruct (String.eqb (im_mode img) "LA"); [reflexivity | ].
  destruct (String.eqb (im_mode img) "P"); [destruct (im_transparency img); reflexivity | ].
  destruct (String.eqb (im_mode img) "RGB"); reflexivity.
Qed.

Lemma limited_mode self img : im_mode (limited self img) = im_mode img.
Proof. unfold limited. destruct (over_limit self img); [apply resized_mode | reflexivity]. Qed.

Lemma calm_trans w1 w2 w3 : calm w1 w2 -> calm w2 w3 -> calm w1 w3.
Proof. intros (? & ? & ?) (? & ? & ?). repeat split; congruence. Qed.

(** ** Keys of the paths of a job *)

Lemma lower_append a b : lower (a +:+ b) = lower a +:+ lower b.
Proof.
  induction a as [ | c a IH]; [reflexivity | ].
  change (String c a +:+ b) with (String c (a +:+ b)).
  cbn [lower]. rewrite IH. reflexivity.
Qed.

Lemma fs_key_append os a b : fs_key os (a +:+ b) = fs_key os a +:+ fs_key os b.
Proof. destruct os; [reflexivity | apply lower_append]. Qed.

Lemma job_keys_distinct (os : platform) (path : string) :
  let tmp := path +:+ ".tmp" in
  let bak := path +:+ ".bak" in
  let out := splitext_root os path +:+ ".jpg" in
  fs_key os tmp <> fs_key os path /\ fs_key os bak <> fs_key os path /\
  fs_key os tmp <> fs_key os bak /\ fs_key os out <> fs_key os tmp /\
  fs_key os out <> fs_key os bak.
Proof.
  intros tmp bak out. subst tmp bak out. rewrite !fs_key_append.
  assert (Ht : fs_key os ".tmp" = ".tmp") by (destruct os; reflexivity).
  assert (Hb : fs_key os ".bak" = ".bak") by (destruct os; reflexivity).
  assert (Hj : fs_key os ".jpg" = ".jpg") by (destruct os; reflexivity).
  rewrite Ht, Hb, Hj.
  split; [intros H; symmetry in H; revert H; apply tmp_file_fresh | ].
  split; [intros H; symmetry in H; revert H; apply bak_file_fresh | ].
  split; [apply append_suffix_differs; [reflexivity | discriminate] | ].
  split; apply append_suffix_differs; (reflexivity || discriminate).
Qed.

(** ** The stages of a job without faults *)

Section QuietStages.
Variable pil : Pillow.
Variable self : t.

Lemma clear_readonly_calm path w f :
  w_faults w = [] -> w_fs w !! fs_key (w_os w) path = Some f ->
  exists w1 f1,
    _clear_readonly self path w = (true, w1) /\
    w_faults w1 = [] /\ w_os w1 = w_os w /\
    w_fs w1 !! fs_key (w_os w) path = Some f1 /\ f_data f1 = f_data f /\
    f_readonly f1 = false /\
    (forall p, p <> fs_key (w_os w) path -> w_fs w1 !! p = w_fs w !! p).
Proof.
  intros Hq Hf. unfold _clear_readonly, os_path_exists, os_access_w. rewrite Hf.
  assert (Hs : bool_decide (is_Some (Some f)) = true) by (apply bool_decide_eq_true; eauto).
  rewrite Hs. simpl. destruct (f_readonly f) eqn:Er; simpl.
  - unfold os_chmod_writable, bind, call. rewrite Hq. simpl. rewrite Hf.
    eexists. exists (File (f_data f) false). split; [reflexivity | ]. simpl.
    repeat split; auto.
    + apply lookup_insert_eq.
    + intros p Hp. apply lookup_insert_ne. congruence.
  - exists w, f. repeat split; auto.
Qed.

Lemma getsize_calm p w f :
  w_faults w = [] -> w_fs w !! fs_key (w_os w) p = Some f ->
  exists w1, os_path_getsize p w = (Ok (Z.of_nat (List.length (f_data f))), w1) /\ calm w w1 /\
             w_log w1 = w_log w.
Proof.
  intros Hq Hf. unfold os_path_getsize, bind, call. rewrite Hq. simpl. rewrite Hf.
  eexists. split; [reflexivity | repeat split].
Qed.

Lemma image_open_calm path w f r :
  w_faults w = [] -> w_fs w !! fs_key (w_os w) path = Some f ->
  pil_decode pil (f_data f) = Some r ->
  exists w1, image_open pil path w = (Ok r, w1) /\ calm w w1.
Proof.
  intros Hq Hf Hd. unfold image_open, bind, call. rewrite Hq. simpl. rewrite Hf. simpl.
  rewrite Hd. eexists. split; [reflexivity | repeat split].
Qed.

Lemma call_calm ev w :
  w_faults w = [] -> exists w1, call ev w = (Ok tt, w1) /\ calm w w1.
Proof.
  intros Hq. unfold call. rewrite Hq. eexists. split; [reflexivity | repeat split].
Qed.

Lemma convert_to_rgb_calm img w :
  w_faults w = [] ->
  exists w1, _convert_to_rgb self img w = (Ok (rgb_of img), w1) /\ calm w w1.
Proof.
  intros Hq. unfold _convert_to_rgb, rgb_of.
  destruct (String.eqb (im_mode img) "RGBA").
  { unfold try_except, composite_on_white, bind, image_new_rgb, image_band, image_paste,
      bind, call, ret. rewrite Hq. simpl. eexists. split; [reflexivity | repeat split]. }
  destruct (String.eqb (im_mode img) "LA").
  { unfold try_except, composite_on_white, bind, image_new_rgb, image_band, image_paste,
      bind, call, ret. rewrite Hq. simpl. eexists. split; [reflexivity | repeat split]. }
  destruct (String.eqb (im_mode img) "P").
  { destruct (im_transparency img).
    - unfold try_except, composite_on_white, bind, image_new_rgb, image_band, image_paste,
        image_convert, bind, call, ret. rewrite Hq. simpl.
      eexists. split; [reflexivity | repeat split].
    - unfold try_except, image_convert, bind, call, ret. rewrite Hq. simpl.
      eexists. split; [reflexivity | repeat split]. }
  destruct (String.eqb (im_mode img) "L" || String.eqb (im_mode img) "1"
            || String.eqb (im_mode img) "PA") eqn:E.
  { assert (Hn : String.eqb (im_mode img) "RGB" = false).
    { apply String.eqb_neq. intros Hm. rewrite Hm in E. discriminate. }
    rewrite Hn. unfold try_except, image_convert, bind, call, ret. rewrite Hq. simpl.
    eexists. split; [reflexivity | repeat split]. }
  destruct (String.eqb (im_mode img) "RGB"); simpl.
  - exists w. split; [reflexivity | repeat split; auto].
  - unfold try_except, image_convert, bind, call, ret. rewrite Hq. simpl.
    eexists. split; [reflexivity | repeat split].
Qed.

Lemma image_resize_quiet img size w :
  w_faults w = [] -> 1 <= fst size -> 1 <= snd size ->
  image_resize img size w =
    (Ok (resized img size),
     World (w_os w) (w_fs w) [] (w_trace w ++ [EvResize size]) (w_log w)).
Proof.
  intros Hq H1 H2. unfold image_resize, resized, bind, call, ret, raise. rewrite Hq. simpl.
  case_bool_decide; [reflexivity | ].
  apply Z.ltb_ge in H1, H2. rewrite H1, H2. reflexivity.
Qed.

Lemma limit_long_edge_calm img w :
  w_faults w = [] ->
  1 <= fst (im_size (limited self img)) -> 1 <= snd (im_size (limited self img)) ->
  exists w1, limit_long_edge self img w = (Ok (limited self img, over_limit self img), w1) /\
             calm w w1.
Proof.
  intros Hq. unfold limit_long_edge, limited, limit_size, over_limit.
  destruct (im_size img) as [w_ h_] eqn:Es. cbn [fst snd].
  destruct ((max_dimension self >? 0) && (Z.max w_ h_ >? max_dimension self)).
  - rewrite !resized_size. cbn [fst snd]. intros H1 H2.
    unfold bind at 1.
    match goal with |- context [image_resize img ?sz w] =>
      rewrite (image_resize_quiet img sz w Hq H1 H2) end.
    unfold bind, log, ret. eexists. split; [reflexivity | repeat split].
  - intros _ _. exists w. repeat split; auto.
Qed.

Lemma make_backup_quiet path w :
  w_faults w = [] ->
  exists w1, make_backup self path w = (Ok tt, w1) /\
    w_faults w1 = [] /\ only_touches [path +:+ ".bak"] w w1 /\
    (forall f, backup self = true -> w_fs w !! fs_key (w_os w) (path +:+ ".bak") = None ->
       w_fs w !! fs_key (w_os w) path = Some f ->
       w_fs w1 !! fs_key (w_os w) (path +:+ ".bak") = Some f).
Proof.
  intros Hq.
  destruct (make_backup_spec self path w) as (Hok & Ht & _ & Hcopy).
  destruct (make_backup self path w) as [r w1] eqn:E. simpl in *. subst r.
  exists w1. split; [reflexivity | ].
  split; [ | split; [exact Ht | intros f Hb Hn Hf; exact (proj1 (Hcopy f Hb Hn Hq Hf))]].
  revert E. unfold make_backup, bind, path_exists. cbv beta iota.
  destruct (_ && _); [ | intros E; injection E as <-; exact Hq].
  unfold try_except, shutil_copy2, bind, call, log. rewrite Hq. simpl.
  destruct (w_fs w !! fs_key (w_os w) path); [ | intros E; injection E as <-; reflexivity].
  destruct (_ && _); intros E; injection E as <-; reflexivity.
Qed.

End QuietStages.

(** ** The downscale loop without faults *)

Section QuietLoop.
Variable pil : Pillow.
Variable self : t.
Variable tmp : string.
Hypothesis quality_floor : MIN_Q self <= 95.

Section OneImage.
Variable img : image.
Hypothesis encoder_succeeds :
  forall q, MIN_Q self <= q <= 95 -> is_Some (pil_encode pil img q).

Lemma search_loop_quiet c w :
  w_faults w = [] -> writable_or_absent tmp w ->
  quiet_search tmp w (snd (search_loop pil self img tmp c (search_start self) w)) /\
  high (fst (search_loop pil self img tmp c (search_start self) w)) <= 95.
Proof.
  intros Hq Hw.
  pose (I := fun (s : search) (w' : world) =>
    quiet_search tmp w w' /\ MIN_Q self <= low s /\ high s <= 95).
  destruct (search_loop_invariant pil self img tmp c I) with (s := search_start self) (w := w)
    as [(Hqs & _ & Hh) _].
  - intros s w1 (Hqs & Hlo & Hhi) Hle.
    pose proof (midpoint_between _ _ Hle) as Hmid.
    destruct (encoder_succeeds ((low s + high s) / 2) ltac:(lia)) as [data Hd].
    destruct (search_step_fields pil self img tmp c s w1) as (Hw1 & _ & _ & _ & Hb).
    pose proof Hqs as (Hq1 & _ & _ & Hw1' & _).
    rewrite (measure_quiet pil img tmp _ w1 data Hq1 Hw1' Hd) in Hw1, Hb.
    simpl in Hw1, Hb. rewrite Hw1. unfold I.
    split; [apply quiet_search_step; exact Hqs | ].
    destruct (_ >? _); destruct Hb as [-> ->]; lia.
  - unfold I, search_start. simpl. repeat split; auto; lia.
  - split; assumption.
Qed.

Lemma binary_compress_quiet c w :
  w_faults w = [] -> writable_or_absent tmp w ->
  exists q data r w',
    _binary_compress pil self img tmp c w = (r, w') /\
    MIN_Q self <= q <= 95 /\
    pil_encode pil img q = Some data /\
    w_faults w' = [] /\ w_os w' = w_os w /\
    w_fs w' = <[fs_key (w_os w) tmp := File data false]> (w_fs w).
Proof.
  intros Hq Hw. unfold _binary_compress. fold (search_start self).
  pose proof (search_loop_quiet c w Hq Hw) as [Hqs Hh].
  destruct (search_loop pil self img tmp c (search_start self) w) as [s1 w1].
  simpl in Hqs, Hh |- *. destruct Hqs as (Hq1 & Ho1 & _ & Hw1 & Hf1).
  assert (Hr : MIN_Q self <= Z.max (MIN_Q self) (high s1) <= 95) by lia.
  destruct (encoder_succeeds _ Hr) as [data Hd].
  rewrite (save_getsize_quiet pil img tmp _ w1 data Hq1 Hw1 Hd).
  exists (Z.max (MIN_Q self) (high s1)), data.
  assert (Hfs : <[fs_key (w_os w1) tmp := File data false]> (w_fs w1) =
                <[fs_key (w_os w) tmp := File data false]> (w_fs w)).
  { rewrite Ho1. destruct Hf1 as [-> | [d ->]]; [reflexivity | apply insert_insert_eq]. }
  destruct (float_overflows (target_size_kb self));
    (eexists; eexists; split; [reflexivity | ]; split; [exact Hr | ]; split; [exact Hd | ];
     simpl; split; [reflexivity | split; [exact Ho1 | exact Hfs]]).
Qed.

End OneImage.

Hypothesis dimension_floor : 1 <= MIN_DIMENSION self.

Lemma resize_then_log_quiet {A} curr sz l (k : image -> M A) w :
  w_faults w = [] -> 1 <= fst sz -> 1 <= snd sz ->
  (let* resized := image_resize curr sz in log l ;; k resized) w =
  k (resized curr sz)
    (World (w_os w) (w_fs w) [] (w_trace w ++ [EvResize sz]) (w_log w ++ [l])).
Proof.
  intros Hq H1 H2. unfold bind at 1. rewrite (image_resize_quiet curr sz w Hq H1 H2).
  unfold bind, log. reflexivity.
Qed.

Lemma adaptive_loop_turn c n curr last w :
  adaptive_loop pil self tmp c (S n) curr last w =
  let '((fs, ok), w1) := _binary_compress pil self curr tmp c w in
  if ok then (Ok (curr, Some (fs, ok)), w1)
  else if negb (auto_resize self) then (Ok (curr, Some (fs, ok)), w1)
  else
    let nw := shrink self (fst (im_size curr)) in
    let nh := shrink self (snd (im_size curr)) in
    if (nw <? MIN_DIMENSION self) || (nh <? MIN_DIMENSION self)
    then (Ok (curr, Some (fs, ok)), emit (LogMinDimension (nw, nh)) w1)
    else
      (let* resized := image_resize curr (nw, nh) in
       log (LogShrink (nw, nh)) ;;
       adaptive_loop pil self tmp c n resized (Some (fs, ok))) w1.
Proof. reflexivity. Qed.

Lemma adaptive_loop_quiet c : forall remaining curr last w,
  (forall j q, (j <= remaining)%nat -> MIN_Q self <= q <= 95 ->
     1 <= fst (im_size (candidate self curr j)) ->
     1 <= snd (im_size (candidate self curr j)) ->
     is_Some (pil_encode pil (candidate self curr j) q)) ->
  1 <= fst (im_size curr) -> 1 <= snd (im_size curr) ->
  w_faults w = [] -> writable_or_absent tmp w ->
  exists k q data r w',
    (k <= remaining)%nat /\
    adaptive_loop pil self tmp c (S remaining) curr last w = (Ok r, w') /\
    MIN_Q self <= q <= 95 /\
    pil_encode pil (candidate self curr k) q = Some data /\
    (auto_resize self = false -> k = O) /\
    w_faults w' = [] /\ w_os w' = w_os w /\
    w_fs w' = <[fs_key (w_os w) tmp := File data false]> (w_fs w).
Proof.
  induction remaining as [ | n IH]; intros curr last w Henc Hd1 Hd2 Hq Hw.
  - rewrite adaptive_loop_turn.
    destruct (binary_compress_quiet curr
                (fun q Hq' => Henc O q (Nat.le_refl _) Hq' Hd1 Hd2) c w Hq Hw)
      as (qv & dv & [fs ok] & w1 & E & Hqr & Hd & Hq1 & Ho1 & Hf1).
    rewrite E. cbv zeta.
    assert (Hdone : forall (r : image * option (fsize * bool)) w',
              w_faults w' = [] -> w_os w' = w_os w ->
              w_fs w' = <[fs_key (w_os w) tmp := File dv false]> (w_fs w) ->
              exists k q data r0 w0, (k <= 0)%nat /\ (Ok r, w') = (Ok r0, w0) /\
                MIN_Q self <= q <= 95 /\ pil_encode pil (candidate self curr k) q = Some data /\
                (auto_resize self = false -> k = O) /\
                w_faults w0 = [] /\ w_os w0 = w_os w /\
                w_fs w0 = <[fs_key (w_os w) tmp := File data false]> (w_fs w)).
    { intros r w' H1 H2 H3. exists O, qv, dv, r, w'. repeat split; auto; lia. }
    destruct ok; [apply Hdone; assumption | ].
    destruct (negb (auto_resize self)); [apply Hdone; assumption | ].
    destruct (_ || _) eqn:Edim; [apply Hdone; assumption | ].
    apply orb_false_iff in Edim. destruct Edim as [E1 E2]. apply Z.ltb_ge in E1, E2.
    cbv zeta. rewrite (resize_then_log_quiet _ _ _ _ w1 Hq1) by (cbn [fst snd]; lia).
    cbn [adaptive_loop]. unfold ret. apply Hdone; simpl; first [assumption | reflexivity].
  - rewrite adaptive_loop_turn.
    destruct (binary_compress_quiet curr
                (fun q Hq' => Henc O q (Nat.le_0_l _) Hq' Hd1 Hd2) c w Hq Hw)
      as (qv & dv & [fs ok] & w1 & E & Hqr & Hd & Hq1 & Ho1 & Hf1).
    rewrite E. cbv zeta.
    assert (Hdone : forall (r : image * option (fsize * bool)) w',
              w_faults w' = [] -> w_os w' = w_os w ->
              w_fs w' = <[fs_key (w_os w) tmp := File dv false]> (w_fs w) ->
              exists k q data r0 w0, (k <= S n)%nat /\ (Ok r, w') = (Ok r0, w0) /\
                MIN_Q self <= q <= 95 /\ pil_encode pil (candidate self curr k) q = Some data /\
                (auto_resize self = false -> k = O) /\
                w_faults w0 = [] /\ w_os w0 = w_os w /\
                w_fs w0 = <[fs_key (w_os w) tmp := File data false]> (w_fs w)).
    { intros r w' H1 H2 H3. exists O, qv, dv, r, w'. repeat split; auto; lia. }
    destruct ok; [apply Hdone; assumption | ].
    destruct (negb (auto_resize self)) eqn:Eauto; [apply Hdone; assumption | ].
    destruct (_ || _) eqn:Edim; [apply Hdone; assumption | ].
    apply orb_false_iff in Edim. destruct Edim as [E1 E2]. apply Z.ltb_ge in E1, E2.
    cbv zeta. rewrite (resize_then_log_quiet _ _ _ _ w1 Hq1) by (cbn [fst snd]; lia).
    fold (downscaled self curr).
    match goal with |- context [adaptive_loop pil self tmp c (S n) ?i ?l ?w2] =>
      destruct (IH i l w2)
        as (k & q' & data' & r & w' & Hk & E' & Hq'r & Hd' & _ & Hq2 & Ho2 & Hf2)
    end.
    + intros j q0 Hj Hq0. apply (Henc (S j) q0); [lia | exact Hq0].
    + unfold downscaled. rewrite resized_size. cbn [fst]. lia.
    + unfold downscaled. rewrite resized_size. cbn [snd]. lia.
    + reflexivity.
    + unfold writable_or_absent, os_path_exists, os_access_w. simpl. rewrite Hf1, Ho1.
      rewrite lookup_insert_eq. simpl. first [reflexivity | apply andb_false_r].
    + exists (S k), q', data', r, w'.
      split; [lia | ]. split; [exact E' | ]. split; [exact Hq'r | ].
      split; [exact Hd' | ].
      split; [intros Ha; rewrite Ha in Eauto; discriminate | ].
      split; [exact Hq2 | ].
      simpl in Ho2, Hf2. split; [congruence | ].
      rewrite Hf2, Hf1, Ho1. apply insert_insert_eq.
Qed.

End QuietLoop.

(** ** A job that goes through *)

(** X11: when no call fails, the file decodes, the job is not the one that
    is skipped, the image left by the colour conversion and the long-edge
    limit has both dimensions at least 1, the encoder succeeds at the
    qualities 10..95 on that image and on those the downscale loop derives
    from it (as far as their dimensions are at least 1), the scratch path is
    writable or absent, the output name is the name of the file itself or of
    another file, and no read-only attribute locks an output of another
    name: the job returns normally and leaves the output [root.jpg] holding
    the encoding, at a quality of 10..95, of the image after [k] downscale
    steps, [k] at most 4 and 0 when automatic resizing is off, that image
    being RGB; no scratch file; no original when the output has another
    name; with backups on and none there, a backup holding the original
    bytes; and a backup that existed, as it was. *)
Theorem job_installs_encoding
    (pil : Pillow) (target : Z) (backup auto_resize : bool) (max_dimension : Z)
    (path : string) (w : world) (f : file) (img : image) (fmt : string) :
  let self := __init__ target backup auto_resize max_dimension in
  let tmp := path +:+ ".tmp" in
  let bak := path +:+ ".bak" in
  let out := out_path_of w path in
  let key := fs_key (w_os w) in
  let base := limited self (rgb_of img) in
  w_faults w = [] ->
  w_fs w !! key path = Some f ->
  pil_decode pil (f_data f) = Some (img, fmt) ->
  is_jpg path && negb (over_limit self img)
    && (Z.of_nat (List.length (f_data f)) <=? 1024 * target) = false ->
  1 <= fst (im_size base) -> 1 <= snd (im_size base) ->
  (forall k q, (k <= 4)%nat -> 10 <= q <= 95 ->
     1 <= fst (im_size (candidate self base k)) ->
     1 <= snd (im_size (candidate self base k)) ->
     is_Some (pil_encode pil (candidate self base k) q)) ->
  writable_or_absent tmp w ->
  (key out = key path -> out = path) ->
  (out <> path -> locked_by_attribute out w = false) ->
  exists w' k q data,
    process_single_image pil self path w = (Ok tt, w') /\
    (k <= 4)%nat /\ (auto_resize = false -> k = O) /\ 10 <= q <= 95 /\
    im_mode (candidate self base k) = "RGB" /\
    pil_encode pil (candidate self base k) q = Some data /\
    w_fs w' !! key out = Some (File data false) /\
    w_fs w' !! key tmp = None /\
    (out <> path -> w_fs w' !! key path = None) /\
    (backup = true -> w_fs w !! key bak = None ->
       f_data <$> (w_fs w' !! key bak) = Some (f_data f)) /\
    (is_Some (w_fs w !! key bak) -> w_fs w' !! key bak = w_fs w !! key bak).
Proof.
  intros self tmp bak out key base Hq Hf Hdec Hskip Hb1 Hb2 Henc Htmp Halias Hout.
  subst key. cbv beta in *.
  destruct (job_keys_distinct (w_os w) path) as (Htp & Hbp & Htb & Hot & Hob).
  fold tmp bak in Htp, Hbp, Htb, Hot, Hob.
  change (splitext_root (w_os w) path +:+ ".jpg") with out in Hot, Hob.
  (* the steps before the check of line 156 *)
  destruct (clear_readonly_calm self path w f Hq Hf)
    as (w1 & f1 & E1 & Hq1 & Ho1 & Hf1 & Hd1 & Hr1 & Hfr1).
  destruct (getsize_calm path w1 f1 Hq1 ltac:(rewrite Ho1; exact Hf1))
    as (w2 & E2 & (Hq2 & Ho2 & Hfs2) & _).
  rewrite Hd1 in E2.
  assert (Hos2 : w_os w2 = w_os w) by congruence.
  assert (Hf2 : w_fs w2 !! fs_key (w_os w2) path = Some f1)
    by (rewrite Hos2, Hfs2; exact Hf1).
  destruct (image_open_calm pil path w2 f1 (img, fmt) Hq2 Hf2 ltac:(rewrite Hd1; exact Hdec))
    as (w3 & E3 & (Hq3 & Ho3 & Hfs3)).
  destruct (call_calm (EvLoad path) w3 Hq3) as (w4 & E4 & (Hq4 & Ho4 & Hfs4)).
  destruct (convert_to_rgb_calm self img w4 Hq4) as (w5 & E5 & (Hq5 & Ho5 & Hfs5)).
  destruct (limit_long_edge_calm self (rgb_of img) w5 Hq5 Hb1 Hb2)
    as (w6 & E6 & (Hq6 & Ho6 & Hfs6)).
  fold base in E6.
  assert (Hover : over_limit self (rgb_of img) = over_limit self img)
    by (unfold over_limit; rewrite rgb_of_size; reflexivity).
  rewrite Hover in E6.
  assert (Hos6 : w_os w6 = w_os w) by congruence.
  destruct (make_backup_quiet self path w6 Hq6) as (w7 & E7 & Hq7 & [Ho7 Hfr7] & Hcopy).
  fold bak in Hfr7, Hcopy. rewrite Hos6 in Hfr7, Hcopy.
  destruct (call_calm EvCopyImage w7 Hq7) as (w8 & E8 & (Hq8 & Ho8 & Hfs8)).
  assert (Hfs16 : w_fs w6 = w_fs w1) by congruence.
  assert (Hos8 : w_os w8 = w_os w) by congruence.
  assert (Hlk : forall p, p <> fs_key (w_os w) path -> p <> fs_key (w_os w) bak ->
                          w_fs w8 !! p = w_fs w !! p).
  { intros p Hp Hb. rewrite Hfs8, Hfr7, Hfs16 by (simpl; intros [H | []]; congruence).
    apply Hfr1, Hp. }
  assert (Hpath8 : w_fs w8 !! fs_key (w_os w) path = Some f1).
  { rewrite Hfs8, Hfr7, Hfs16 by (simpl; intros [H | []]; congruence). exact Hf1. }
  assert (Htmp8 : writable_or_absent tmp w8).
  { apply (writable_or_absent_same tmp w w8 Hos8); [ | exact Htmp].
    apply Hlk; assumption. }
  destruct (adaptive_loop_quiet pil self tmp ltac:(simpl; lia) ltac:(simpl; lia)
              (attempt_ceiling (over_limit self img) (is_jpg path)
                 (Z.of_nat (List.length (f_data f))))
              4 base None w8 Henc Hb1 Hb2 Hq8 Htmp8)
    as (k & q & data & r & w9 & Hk & E9 & Hqr & Hd9 & Hauto & Hq9 & Ho9 & Hfs9).
  change (MIN_Q self) with 10 in Hqr.
  change (ImageCompressorCore.auto_resize self) with auto_resize in Hauto.
  rewrite Hos8 in Hfs9.
  assert (Hos9 : w_os w9 = w_os w) by congruence.
  (* the replacement *)
  assert (Htmp9 : w_fs w9 !! fs_key (w_os w9) tmp = Some (File data false))
    by (rewrite Hos9, Hfs9; apply lookup_insert_eq).
  assert (Hcase : out = path \/ fs_key (w_os w) out <> fs_key (w_os w) path).
  { destruct (decide (fs_key (w_os w) out = fs_key (w_os w) path)) as [He | Hne];
      [left; exact (Halias He) | right; exact Hne]. }
  assert (Hlock9 : locked_by_attribute out w9 = false).
  { destruct Hcase as [Heq | Hne].
    - apply (not_locked_when_writable out w9 f1); [ | exact Hr1].
      rewrite Hos9, Hfs9, lookup_insert_ne by congruence. rewrite Heq. exact Hpath8.
    - assert (Hne' : out <> path) by (intros He; apply Hne; rewrite He; reflexivity).
      rewrite <- (Hout Hne'). apply locked_by_attribute_same; [exact Hos9 | ].
      rewrite Hfs9, lookup_insert_ne by congruence. apply Hlk; assumption. }
  destruct (safe_replace_quiet self tmp out w9 (File data false) Hq9 Htmp9
              ltac:(rewrite Hos9; congruence) Hlock9)
    as (w10 & E10 & Hq10 & Ho10 & _ & Hfs10 & _).
  rewrite Hos9 in Hfs10.
  assert (Hos10 : w_os w10 = w_os w) by congruence.
  assert (Hout10 : w_fs w10 !! fs_key (w_os w10) out = Some (File data false))
    by (rewrite Hos10, Hfs10; apply lookup_insert_eq).
  destruct (getsize_calm out w10 (File data false) Hq10 Hout10)
    as (w11 & E11 & (Hq11 & Ho11 & Hfs11) & _).
  rewrite Hos10 in Hout10.
  assert (Hos11 : w_os w11 = w_os w) by congruence.
  (* run the [try] block *)
  assert (Hbody : exists w12,
    compress_and_install pil self path tmp (Z.of_nat (List.length (f_data f))) img w4 =
      (Ok tt, w12) /\
    w_faults w12 = [] /\ w_os w12 = w_os w /\
    w_fs w12 = (if negb (String.eqb path out)
                then delete (fs_key (w_os w) path) (w_fs w10) else w_fs w10)).
  { unfold compress_and_install. unfold bind at 1. rewrite E5.
    unfold bind at 1. rewrite E6.
    change (target_size_kb self) with target. rewrite Hskip.
    unfold compress_to_budget.
    unfold bind at 1. rewrite E7.
    unfold bind at 1. unfold image_copy, bind at 1. rewrite E8. unfold ret at 1.
    unfold bind at 1.
    change (Z.to_nat (MAX_ATTEMPTS self)) with 5%nat. rewrite E9.
    unfold install_output.
    unfold bind at 1. rewrite Hos9. fold (out_path_of w path). fold out.
    unfold bind at 1. rewrite E10.
    unfold bind at 1. rewrite E11.
    unfold bind at 1, log at 1.
    destruct (negb (String.eqb path out)) eqn:Eeq.
    - assert (Hne : path <> out)
        by (apply negb_true_iff in Eeq; apply String.eqb_neq; exact Eeq).
      assert (Hkne : fs_key (w_os w) out <> fs_key (w_os w) path)
        by (destruct Hcase as [He | Hn]; [congruence | exact Hn]).
      set (w11' := emit (LogDone out (Z.of_nat (List.length data))
                           (Z.of_nat (List.length (f_data f)))) w11).
      assert (Hp11 : w_fs w11' !! fs_key (w_os w11') path = Some f1).
      { subst w11'. simpl. rewrite Hos11, Hfs11, Hfs10.
        rewrite lookup_insert_ne by congruence.
        rewrite lookup_delete_ne by congruence.
        rewrite lookup_delete_ne by congruence.
        rewrite Hfs9, lookup_insert_ne by congruence. exact Hpath8. }
      change (range 3) with (0 :: map Z.of_nat (seq 1 2)).
      rewrite (delete_original_quiet 0 _ path w11' f1 Hq11 Hp11
                 (not_locked_when_writable _ _ _ Hp11 Hr1)).
      eexists. split; [reflexivity | ]. subst w11'. simpl. rewrite Hos11, Hfs11.
      repeat split.
    - eexists. split; [reflexivity | ]. simpl. rewrite Hfs11.
      split; [exact Hq11 | split; [exact Hos11 | reflexivity]]. }
  destruct Hbody as (w12 & E12 & Hq12 & Hos12 & Hfs12).
  destruct (call_calm EvClose w12 Hq12) as (w13 & E13 & (Hq13 & Ho13 & Hfs13)).
  assert (Hos13 : w_os w13 = w_os w) by congruence.
  assert (Ht10 : w_fs w10 !! fs_key (w_os w) tmp = None).
  { rewrite Hfs10, lookup_insert_ne by congruence. apply lookup_delete_eq. }
  assert (Htmp13 : w_fs w13 !! fs_key (w_os w) tmp = None).
  { rewrite Hfs13, Hfs12.
    destruct (negb (String.eqb path out)); [ | exact Ht10].
    rewrite lookup_delete_ne by congruence. exact Ht10. }
  exists w13, k, q, data.
  split.
  { unfold process_single_image, try_block. fold tmp.
    rewrite E1, E2, E3, E4, E12. unfold bind. rewrite E13.
    rewrite (remove_tmp_absent tmp (range 3) w13 ltac:(rewrite Hos13; exact Htmp13)).
    reflexivity. }
  split; [exact Hk | ]. split; [exact Hauto | ]. split; [exact Hqr | ].
  split.
  { rewrite candidate_mode. unfold base. rewrite limited_mode. apply rgb_of_mode. }
  split; [exact Hd9 | ].
  assert (Hbak10 : w_fs w10 !! fs_key (w_os w) bak = w_fs w7 !! fs_key (w_os w) bak).
  { rewrite Hfs10, lookup_insert_ne by congruence.
    rewrite lookup_delete_ne by congruence. rewrite lookup_delete_ne by congruence.
    rewrite Hfs9, lookup_insert_ne by congruence. rewrite Hfs8. reflexivity. }
  assert (Hbak13 : w_fs w13 !! fs_key (w_os w) bak = w_fs w7 !! fs_key (w_os w) bak).
  { rewrite Hfs13, Hfs12. destruct (negb (String.eqb path out)); [ | exact Hbak10].
    rewrite lookup_delete_ne by congruence. exact Hbak10. }
  assert (Hbak6 : w_fs w6 !! fs_key (w_os w) bak = w_fs w !! fs_key (w_os w) bak)
    by (rewrite Hfs16; apply Hfr1; exact Hbp).
  assert (Hbaks :
    (backup = true -> w_fs w !! fs_key (w_os w) bak = None ->
       f_data <$> (w_fs w13 !! fs_key (w_os w) bak) = Some (f_data f)) /\
    (is_Some (w_fs w !! fs_key (w_os w) bak) ->
       w_fs w13 !! fs_key (w_os w) bak = w_fs w !! fs_key (w_os w) bak)).
  { rewrite Hbak13. split.
    - intros Hb Hn. rewrite (Hcopy f1 Hb ltac:(rewrite Hbak6; exact Hn)
                               ltac:(rewrite Hfs16; exact Hf1)).
      simpl. congruence.
    - intros [fb Hfb].
      destruct (make_backup_spec self path w6) as (_ & _ & Hsame & _).
      rewrite E7 in Hsame. simpl in Hsame.
      rewrite (Hsame ltac:(left; fold bak; rewrite Hos6, Hbak6, Hfb; eauto)). exact Hbak6. }
  rewrite Hfs13, Hfs12.
  destruct (negb (String.eqb path out)) eqn:Eeq.
  - assert (Hne : path <> out)
      by (apply negb_true_iff in Eeq; apply String.eqb_neq; exact Eeq).
    assert (Hkne : fs_key (w_os w) out <> fs_key (w_os w) path)
      by (destruct Hcase as [He | Hn]; [congruence | exact Hn]).
    split; [rewrite lookup_delete_ne by congruence; exact Hout10 | ].
    split; [rewrite Hfs13, Hfs12 in Htmp13; exact Htmp13 | ].
    split; [intros _; apply lookup_delete_eq | ].
    rewrite Hfs13, Hfs12 in Hbaks. exact Hbaks.
  - assert (Heq : path = out)
      by (apply negb_false_iff in Eeq; apply String.eqb_eq; exact Eeq).
    split; [exact Hout10 | ].
    split; [rewrite Hfs13, Hfs12 in Htmp13; exact Htmp13 | ].
    split; [intros Hne; congruence | ].
    rewrite Hfs13, Hfs12 in Hbaks. exact Hbaks.
Qed.

(** ** Starting and counting a batch *)

Section Batch.
Variable pil : Pillow.

Import ImageCompressorUI.

Lemma wrapper_counts p core u w :
  let r := wrapper pil p core (u, w) in
  image_list (fst r) = image_list u /\
  failed_count (fst r) = failed_count u /\
  processed_count u <= processed_count (fst r) <= processed_count u + 1.
Proof.
  unfold wrapper.
  destruct (ImageCompressorCore.process_single_image pil core p w) as [[[] | e] w1]; simpl;
    repeat split; lia.
Qed.

Lemma fold_wrapper_counts core : forall l u w,
  let r := fold_left (fun st p => wrapper pil p core st) l (u, w) in
  image_list (fst r) = image_list u /\
  failed_count (fst r) = failed_count u /\
  processed_count u <= processed_count (fst r) <= processed_count u + Z.of_nat (List.length l).
Proof.
  induction l as [ | p l IH]; intros u w.
  - simpl. repeat split; lia.
  - cbn [fold_left].
    destruct (wrapper_counts p core u w) as (Hl & Hf & Hp).
    destruct (wrapper pil p core (u, w)) as [u1 w1]. simpl in Hl, Hf, Hp.
    destruct (IH u1 w1) as (Hl' & Hf' & Hp').
    cbv zeta. rewrite Hl', Hf', Hl, Hf.
    split; [reflexivity | split; [reflexivity | ]].
    rewrite length_cons, Nat2Z.inj_succ. lia.
Qed.

(** X12: a batch that [start_work] lets start has a non-empty list, which
    the run does not change, and ends with a success count and a failure
    count between 0 and the number of images that add up to that number. *)
Theorem batch_counts_within_total (self self' : t) (w : world) :
  start_work self false = Started self' ->
  let r := thread_pool_run pil self' w in
  let n := Z.of_nat (List.length (image_list self)) in
  image_list (fst r) = image_list self /\
  0 < n /\
  0 <= fst (tally (fst r)) <= n /\
  0 <= snd (tally (fst r)) <= n /\
  fst (tally (fst r)) + snd (tally (fst r)) = n.
Proof.
  unfold start_work.
  destruct (image_list self) as [ | p l] eqn:El; [discriminate | ].
  destruct (target_size self <=? 0); [discriminate | ].
  destruct (_ || _); [discriminate | ].
  intros H. injection H as <-. cbv zeta.
  unfold thread_pool_run. cbn [image_list target_size backup auto_resize max_dimension].
  match goal with |- context [fold_left ?f ?l0 (?u0, w)] =>
    pose proof (fold_wrapper_counts
                  (ImageCompressorCore.__init__ (target_size self) (backup self)
                     (auto_resize self) (max_dimension self)) l0 u0 w) as H;
    destruct (fold_left f l0 (u0, w)) as [u1 w1]
  end.
  cbv zeta in H. cbn [fst image_list failed_count processed_count] in H.
  destruct H as (Hl & Hf & Hp).
  unfold tally. cbn [fst snd]. rewrite Hl.
  rewrite length_cons, Nat2Z.inj_succ in *.
  repeat split; try lia.
Qed.

(** X13: the recommended number of workers is between 1 and 8 whatever the
    number of processors, [None] and 0 included, so with the settings of
    [__init__] and a non-empty list [start_work] starts the batch. *)
Theorem default_settings_start (cpu_count : option Z) (l : list string) :
  l <> [] ->
  1 <= recommended_threads cpu_count <= 8 /\
  exists s, start_work (set_image_list l (ImageCompressorUI.__init__ cpu_count)) false = Started s.
Proof.
  intros Hl.
  assert (Hb : 1 <= recommended_threads cpu_count <= 8).
  { unfold recommended_threads. destruct cpu_count as [n | ]; [destruct (n =? 0) | ]; lia. }
  split; [exact Hb | ].
  unfold start_work, set_image_list. cbn [image_list target_size max_workers].
  destruct l as [ | p l]; [congruence | ].
  cbn [ImageCompressorUI.__init__ target_size max_workers].
  replace (100 <=? 0) with false by reflexivity.
  assert (E : (recommended_threads cpu_count <=? 0) || (recommended_threads cpu_count >? 16) = false).
  { apply orb_false_iff. split; [apply Z.leb_gt; lia | ].
    rewrite Z.gtb_ltb. apply Z.ltb_ge. lia. }
  rewrite E. eauto.
Qed.

End Batch.

(** ** Names *)

Lemma append_cons (c : ascii) (s t : string) : String c s +:+ t = String c (s +:+ t).
Proof. reflexivity. Qed.

Lemma string_append_assoc (a b c : string) : (a +:+ b) +:+ c = a +:+ (b +:+ c).
Proof.
  induction a as [ | x a IH]; [reflexivity | ].
  rewrite !append_cons, IH. reflexivity.
Qed.

Lemma substring_all (s : string) : substring 0 (String.length s) s = s.
Proof. induction s as [ | c s IH]; simpl; [reflexivity | rewrite IH; reflexivity]. Qed.

Lemma substring_split : forall (s : string) (n : nat),
  (n <= String.length s)%nat ->
  substring 0 n s +:+ substring n (String.length s - n) s = s.
Proof.
  induction s as [ | c s IH]; intros n Hn.
  - destruct n; reflexivity.
  - destruct n as [ | n].
    + simpl. rewrite substring_all. reflexivity.
    + simpl in Hn |- *. rewrite append_cons, IH by lia. reflexivity.
Qed.

Lemma substring_append_suffix : forall (s t : string),
  substring (String.length s) (String.length t) (s +:+ t) = t.
Proof.
  induction s as [ | c s IH]; intros t; [apply substring_all | ].
  rewrite append_cons. simpl. apply IH.
Qed.

Lemma endswith_append (s suffix : string) : endswith (s +:+ suffix) suffix = true.
Proof.
  unfold endswith. rewrite string_length_append.
  apply andb_true_iff. split; [apply Nat.leb_le; lia | ].
  replace (String.length s + String.length suffix - String.length suffix)%nat
    with (String.length s) by lia.
  rewrite substring_append_suffix. apply String.eqb_refl.
Qed.

Lemma endswith_split (s suffix : string) :
  endswith s suffix = true -> exists pre, s = pre +:+ suffix.
Proof.
  unfold endswith. intros H. apply andb_true_iff in H. destruct H as [Hle Heq].
  apply Nat.leb_le in Hle. apply String.eqb_eq in Heq.
  exists (substring 0 (String.length s - String.length suffix) s).
  pose proof (substring_split s (String.length s - String.length suffix)) as Hs.
  replace (String.length s - (String.length s - String.length suffix))%nat
    with (String.length suffix) in Hs by lia.
  rewrite Heq in Hs. symmetry. apply Hs. lia.
Qed.

Lemma lower_ascii_idem (c : ascii) : lower_ascii (lower_ascii c) = lower_ascii c.
Proof.
  destruct c as [[] [] [] [] [] [] [] []]; reflexivity.
Qed.

Lemma lower_idem (s : string) : lower (lower s) = lower s.
Proof.
  induction s as [ | c s IH]; simpl; [reflexivity | rewrite lower_ascii_idem, IH; reflexivity].
Qed.

(** A name that ends in [t] does not end in [s] when neither of [s] and [t]
    ends with the other; here for endings of four characters after a common
    split. *)
Lemma endswith_append_differs (a s t : string) :
  String.length s = String.length t -> s <> t -> endswith (a +:+ s) t = false.
Proof.
  intros Hlen Hne. destruct (endswith (a +:+ s) t) eqn:E; [ | reflexivity].
  apply endswith_split in E. destruct E as [pre E].
  exfalso. exact (append_suffix_differs s t Hlen Hne a pre E).
Qed.

Lemma endswith_append_differs5 (a s : string) (c : ascii) (t : string) :
  String.length s = String.length t -> s <> t ->
  endswith (a +:+ s) (String c t) = false.
Proof.
  intros Hlen Hne. destruct (endswith (a +:+ s) (String c t)) eqn:E; [ | reflexivity].
  apply endswith_split in E. destruct E as [pre E].
  change (String c t) with (String c EmptyString +:+ t) in E.
  rewrite <- string_append_assoc in E.
  exfalso. exact (append_suffix_differs s t Hlen Hne a _ E).
Qed.

Lemma endswith5_append_differs (a : string) (c : ascii) (s t : string) :
  String.length s = String.length t -> s <> t ->
  endswith (a +:+ String c s) t = false.
Proof.
  intros Hlen Hne. destruct (endswith (a +:+ String c s) t) eqn:E; [ | reflexivity].
  apply endswith_split in E. destruct E as [pre E].
  change (String c s) with (String c EmptyString +:+ s) in E.
  rewrite <- string_append_assoc in E.
  exfalso. exact (append_suffix_differs s t Hlen Hne _ pre E).
Qed.

Lemma scanned_is_not_backup (a e : string) :
  In e ImageCompressorUI.scanned_extensions -> endswith (a +:+ e) ".bak" = false.
Proof.
  intros Hin. simpl in Hin.
  destruct Hin as [<- | [<- | [<- | [<- | [<- | [<- | [<- | []]]]]]]];
    first [ apply endswith_append_differs; [reflexivity | discriminate]
          | apply endswith5_append_differs; [reflexivity | discriminate] ].
Qed.

Lemma leftover_is_not_scanned (a s : string) :
  s = ".bak" \/ s = ".tmp" ->
  existsb (endswith (a +:+ s)) ImageCompressorUI.scanned_extensions = false.
Proof.
  intros Hs. unfold ImageCompressorUI.scanned_extensions. cbn [existsb].
  destruct Hs as [-> | ->];
    repeat first
      [ rewrite endswith_append_differs by (first [reflexivity | discriminate])
      | rewrite endswith_append_differs5 by (first [reflexivity | discriminate]) ];
    reflexivity.
Qed.

Lemma scan_accepts_existsb (f : string) :
  ImageCompressorUI.scan_accepts f =
  existsb (endswith (lower f)) ImageCompressorUI.scanned_extensions.
Proof.
  unfold ImageCompressorUI.scan_accepts.
  destruct (existsb (endswith (lower f)) ImageCompressorUI.scanned_extensions) eqn:E;
    [ | reflexivity].
  apply existsb_exists in E. destruct E as (e & Hin & He).
  apply endswith_split in He. destruct He as [pre He].
  rewrite He, (scanned_is_not_backup pre e Hin). reflexivity.
Qed.

(** X14: a folder scan keeps exactly the files whose lower-cased name ends in
    one of the seven extensions, the test for [.bak] rejecting none of
    them; so a name with such an extension in any case is kept, and the
    backups [.bak] and scratch files [.tmp] that jobs leave are not. *)
Theorem scan_filter_by_extension :
  (forall join walk,
     ImageCompressorUI.scan_folder join walk =
     flat_map (fun '(root, _, files) =>
                 map (join root)
                     (List.filter
                        (fun f => existsb (endswith (lower f))
                                          ImageCompressorUI.scanned_extensions)
                        files))
              walk) /\
  (forall name ext, In (lower ext) ImageCompressorUI.scanned_extensions ->
                    ImageCompressorUI.scan_accepts (name +:+ ext) = true) /\
  (forall name ext, lower ext = ".bak" \/ lower ext = ".tmp" ->
                    ImageCompressorUI.scan_accepts (name +:+ ext) = false).
Proof.
  split; [ | split].
  - intros join walk. unfold ImageCompressorUI.scan_folder.
    induction walk as [ | [[root dirs] files] walk IH]; [reflexivity | ].
    cbn [flat_map]. rewrite IH. f_equal. f_equal.
    apply List.filter_ext. exact scan_accepts_existsb.
  - intros name ext Hin. rewrite scan_accepts_existsb. apply existsb_exists.
    exists (lower ext). split; [exact Hin | ].
    rewrite lower_append. apply endswith_append.
  - intros name ext Hs. rewrite scan_accepts_existsb, lower_append.
    apply leftover_is_not_scanned. exact Hs.
Qed.

(** X15: the JPEG test of [process_single_image] does not depend on the case
    of the name; it holds for a name ending in [.jpg] or [.jpeg] in any
    case, and fails for one ending in another scanned extension, [.bak] or
    [.tmp]. *)
Theorem is_jpg_by_extension (name ext : string) :
  is_jpg (lower (name +:+ ext)) = is_jpg (name +:+ ext) /\
  (lower ext = ".jpg" \/ lower ext = ".jpeg" -> is_jpg (name +:+ ext) = true) /\
  (In (lower ext) [".png"; ".webp"; ".bmp"; ".gif"; ".tiff"; ".bak"; ".tmp"] ->
   is_jpg (name +:+ ext) = false).
Proof.
  unfold is_jpg. rewrite lower_idem, lower_append. split; [reflexivity | ]. split.
  - intros [-> | ->]; rewrite endswith_append; [reflexivity | apply orb_true_r].
  - intros Hin. simpl in Hin.
    destruct Hin as [<- | [<- | [<- | [<- | [<- | [<- | [<- | []]]]]]]];
      apply orb_false_iff; split;
      first [ apply endswith_append_differs; [reflexivity | discriminate]
            | apply endswith5_append_differs; [reflexivity | discriminate]
            | apply endswith_append_differs5; [reflexivity | discriminate] ].
Qed.

(** ** Concrete runs *)

Lemma job_raises_only_on_close_witness :
  let self := __init__ 2 false true 0 in
  let r := process_single_image linear_pil self "small.jpg" close_fails_world in
  fst r = Raise (Fault EvClose) /\
  w_trace (snd r) =
    [EvGetsize "small.jpg"; EvOpen "small.jpg"; EvIdentify "small.jpg"; EvLoad "small.jpg";
     EvClose] /\
  w_log (snd r) = [LogSatisfied "small.jpg" 1500] /\
  w_fs (snd r) = w_fs close_fails_world.
Proof.
  pose proof (job_raises_only_on_close linear_pil (__init__ 2 false true 0) "small.jpg"
                close_fails_world) as H.
  cbv zeta in H |- *. destruct H as (_ & Hr & _ & _).
  rewrite Hr; [ | split; [eexists | ]; vm_compute; reflexivity].
  vm_compute. repeat split; reflexivity.
Defined.

Lemma job_installs_encoding_witness :
  exists w' k q data,
    process_single_image linear_pil (__init__ 2 true true 0) "Photo.PNG" windows_png_world
      = (Ok tt, w') /\
    (k <= 4)%nat /\ 10 <= q <= 95 /\
    pil_encode linear_pil
      (candidate (__init__ 2 true true 0)
         (Image "RGB" (200, 100) false (Decoded photo_bytes)) k) q = Some data /\
    w_fs w' !! "photo.jpg" = Some (File data false) /\
    w_fs w' !! "photo.png.tmp" = None /\
    w_fs w' !! "photo.png" = None /\
    f_data <$> (w_fs w' !! "photo.png.bak") = Some photo_bytes.
Proof.
  destruct (job_installs_encoding linear_pil 2 true true 0 "Photo.PNG" windows_png_world
              (File photo_bytes true) (Image "RGB" (200, 100) false (Decoded photo_bytes)) "JPEG")
    as (w' & k & q & data & Hrun & Hk & _ & Hq & _ & Henc & Hout & Htmp & Hpath & Hbak & _).
  - reflexivity.
  - reflexivity.
  - reflexivity.
  - reflexivity.
  - vm_compute. discriminate.
  - vm_compute. discriminate.
  - intros k q _ _ _ _. simpl. eauto.
  - reflexivity.
  - vm_compute. discriminate.
  - intros _. reflexivity.
  - exists w', k, q, data.
    split; [exact Hrun | ]. split; [exact Hk | ]. split; [exact Hq | ].
    split; [exact Henc | ]. split; [exact Hout | ]. split; [exact Htmp | ].
    split; [apply Hpath; discriminate | ].
    apply Hbak; reflexivity.
Defined.


(** X16: on Windows, where [PHOTO.JPG] and [PHOTO.jpg] name one file, a job
    on [PHOTO.JPG] installs its result under the output name [PHOTO.jpg],
    takes the two names for different files (line 203) and removes the
    original, which is the result it has just installed: it returns
    normally, logs the completion and the deletion, and leaves no file. *)
Theorem capitals_extension_loses_file :
  let self := __init__ 2 false true 0 in
  let r := process_single_image linear_pil self "PHOTO.JPG" capitals_world in
  out_path_of capitals_world "PHOTO.JPG" = "PHOTO.jpg" /\
  fst r = Ok tt /\
  w_fs (snd r) !! "photo.jpg" = None /\ w_fs (snd r) !! "photo.jpg.tmp" = None /\
  w_log (snd r) = [LogDone "PHOTO.jpg" 2040 3000; LogDeleted "PHOTO.JPG"].
Proof. vm_compute. repeat split; reflexivity. Qed.

Lemma batch_counts_within_total_witness :
  ImageCompressorUI.start_work one_job_ui false = ImageCompressorUI.Started one_job_ui /\
  let r := ImageCompressorUI.thread_pool_run linear_pil one_job_ui locked_world in
  ImageCompressorUI.image_list (fst r) = ["locked.jpg"] /\
  fst (ImageCompressorUI.tally (fst r)) + snd (ImageCompressorUI.tally (fst r)) = 1.
Proof.
  split; [reflexivity | ].
  pose proof (batch_counts_within_total linear_pil one_job_ui one_job_ui locked_world eq_refl)
    as H.
  cbv zeta in H |- *. destruct H as (Hl & _ & _ & _ & Hsum).
  split; [exact Hl | exact Hsum].
Defined.

Lemma default_settings_start_witness :
  ["a.jpg"] <> [] /\
  1 <= ImageCompressorUI.recommended_threads (Some 4) <= 8 /\
  exists s,
    ImageCompressorUI.start_work
      (ImageCompressorUI.set_image_list ["a.jpg"] (ImageCompressorUI.__init__ (Some 4))) false
    = ImageCompressorUI.Started s.
Proof.
  assert (H : ["a.jpg"] <> []) by discriminate.
  split; [exact H | ].
  exact (default_settings_start (Some 4) ["a.jpg"] H).
Defined.

